(** * camus: a single-host deployment manager (server.go)

    A shallow embedding of [server.go]: the port allocator
    ([findUnusedPort]), the registry store ([readConfig], [writeConfig]),
    deploy-id generation ([NewDeployDir]), the health-check loop
    ([waitForAppToStart]) and the orchestration ([Run]).

    Go strings are byte sequences: they are modelled by [string] (a list of
    8-bit [ascii]).  Go [int] is modelled by [Z]; the places where the 64-bit
    range matters (map keys read back from JSON) check it explicitly.
    Everything the program does to the outside (dialling, the file system,
    spawning, HTTP, the clock, the log) goes through an explicit [World] of
    oracles and a [State] that is threaded through the calls.

    The library functions the program calls ([strconv], [path],
    [unicode/utf8], [encoding/json], [net/http]) are modelled after the
    current Go releases, as far as the program uses them: [json.Marshal] and
    [json.Unmarshal] at the type [Config] only. *)

From Stdlib Require Import ZArith NArith Lia Ascii String List Bool.
From Stdlib Require Import DecimalString.
From stdpp Require Import base option list strings gmap fin_maps sorting.

Open Scope string_scope.
Open Scope list_scope.
Open Scope Z_scope.

Set Warnings "-register-all".

(** ** Bytes and strings *)

Module GoString.

Definition code (c : ascii) : Z := Z.of_N (N_of_ascii c).
Definition chr (z : Z) : ascii := ascii_of_N (Z.to_N z).

Fixpoint of_list (l : list ascii) : string :=
  match l with
  | [] => EmptyString
  | c :: l' => String c (of_list l')
  end.

Fixpoint to_list (s : string) : list ascii :=
  match s with
  | EmptyString => []
  | String c s' => c :: to_list s'
  end.

Fixpoint drop (n : nat) (s : string) : string :=
  match n, s with
  | O, _ => s
  | S n', String _ s' => drop n' s'
  | S _, EmptyString => EmptyString
  end.

(** [strings.Join] *)
Fixpoint join (sep : string) (l : list string) : string :=
  match l with
  | [] => EmptyString
  | [x] => x
  | x :: l' => x +:+ sep +:+ join sep l'
  end.

End GoString.
Import GoString.

(** ** [strconv] and [fmt]: decimal integers *)

Module Strconv.

Definition digit_char (d : Z) : ascii := chr (48 + d).

(** Decimal digits of a non-negative number, least significant first.
    The fuel is the bit length, which bounds the decimal length. *)
Fixpoint digits_le (fuel : nat) (n : Z) : list Z :=
  match fuel with
  | O => [n mod 10]
  | S f => if n <? 10 then [n] else (n mod 10) :: digits_le f (n / 10)
  end.

Definition utoa (n : Z) : string :=
  of_list (map digit_char (rev (digits_le (Z.to_nat (Z.log2_up (n + 1))) n))).

(** [strconv.Itoa], which is also what [%d] prints. *)
Definition Itoa (z : Z) : string :=
  if z <? 0 then String "-" (utoa (- z)) else utoa z.

(** [%02d]: zero padding up to width two (the sign counts). *)
Definition fmt_02d (z : Z) : string :=
  let s := Itoa z in
  if (String.length s <? 2)%nat then String "0" s else s.

Definition is_digit (c : ascii) : bool := (48 <=? code c) && (code c <=? 57).

Fixpoint parse_digits (s : string) (acc : Z) : option Z :=
  match s with
  | EmptyString => Some acc
  | String c s' =>
      if is_digit c then parse_digits s' (acc * 10 + (code c - 48)) else None
  end.

Definition parse_uint (s : string) : option Z :=
  match s with
  | EmptyString => None
  | _ => parse_digits s 0
  end.

Definition min_int64 : Z := - 2 ^ 63.
Definition max_int64 : Z := 2 ^ 63 - 1.
Definition is_int64 (z : Z) : bool := (min_int64 <=? z) && (z <=? max_int64).

(** [strconv.ParseInt(s, 10, 64)]: an optional sign, at least one digit,
    nothing else, and the value has to fit 64 bits. *)
Definition ParseInt (s : string) : option Z :=
  let signed :=
    match s with
    | String c s' =>
        if code c =? 45 then z ← parse_uint s'; Some (- z)
        else if code c =? 43 then parse_uint s'
        else parse_uint s
    | EmptyString => None
    end in
  z ← signed; if is_int64 z then Some z else None.

End Strconv.
Import Strconv.

(** ** [path]: [Clean] and [Join] *)

Module Path.

Definition slash : ascii := "/"%char.

(** The elements between slashes; [cur] is the element being read, reversed. *)
Fixpoint split_go (s : string) (cur : list ascii) : list string :=
  match s with
  | EmptyString => [of_list (rev cur)]
  | String c s' =>
      if Ascii.eqb c slash then of_list (rev cur) :: split_go s' []
      else split_go s' (c :: cur)
  end.

Definition split (s : string) : list string := split_go s [].

(** One element of the path against the elements kept so far (innermost
    first): empty and [.] elements vanish, [..] removes the element before
    it, or stays when there is nothing to remove and the path is relative. *)
Definition clean_step (rooted : bool) (kept : list string) (e : string) : list string :=
  if String.eqb e EmptyString then kept
  else if String.eqb e "." then kept
  else if String.eqb e ".." then
    match kept with
    | top :: below => if String.eqb top ".." then e :: kept else below
    | [] => if rooted then kept else [e]
    end
  else e :: kept.

Definition is_rooted (p : string) : bool :=
  match p with
  | String c _ => Ascii.eqb c slash
  | EmptyString => false
  end.

Definition Clean (p : string) : string :=
  let rooted := is_rooted p in
  let kept := fold_left (clean_step rooted) (split p) [] in
  let body := join "/" (rev kept) in
  let out := if rooted then String slash body else body in
  if String.eqb out EmptyString then "." else out.

Fixpoint drop_empty (elem : list string) : list string :=
  match elem with
  | e :: rest => if String.eqb e EmptyString then drop_empty rest else elem
  | [] => []
  end.

Definition Join (elem : list string) : string :=
  match drop_empty elem with
  | [] => EmptyString
  | l => Clean (join "/" l)
  end.

End Path.

(** ** [unicode/utf8] *)

Module UTF8.

Definition RuneError : Z := 0xFFFD.
Definition MaxRune : Z := 0x10FFFF.

Definition between (lo hi b : Z) : bool := (lo <=? b) && (b <=? hi).

(** The table [first] with [acceptRanges]: for a leading byte, the length
    of the sequence and the range the second byte has to be in. *)
Definition lead (b0 : Z) : option (nat * Z * Z) :=
  if between 0xC2 0xDF b0 then Some (2%nat, 0x80, 0xBF)
  else if b0 =? 0xE0 then Some (3%nat, 0xA0, 0xBF)
  else if between 0xE1 0xEC b0 then Some (3%nat, 0x80, 0xBF)
  else if b0 =? 0xED then Some (3%nat, 0x80, 0x9F)
  else if between 0xEE 0xEF b0 then Some (3%nat, 0x80, 0xBF)
  else if b0 =? 0xF0 then Some (4%nat, 0x90, 0xBF)
  else if between 0xF1 0xF3 b0 then Some (4%nat, 0x80, 0xBF)
  else if b0 =? 0xF4 then Some (4%nat, 0x80, 0x8F)
  else None.

Definition cont (b : Z) : bool := between 0x80 0xBF b.
Definition low6 (b : Z) : Z := Z.land b 0x3F.

(** [utf8.DecodeRuneInString]: the rune at the head of [s] and its width;
    [(RuneError, 1)] for a byte that starts no well-formed sequence. *)
Definition DecodeRune (s : string) : Z * nat :=
  match s with
  | EmptyString => (RuneError, 0%nat)
  | String c0 s1 =>
      let b0 := code c0 in
      if b0 <? 0x80 then (b0, 1%nat)
      else
        match lead b0, s1 with
        | Some (2%nat, lo, hi), String c1 _ =>
            if between lo hi (code c1)
            then (Z.lor (Z.shiftl (Z.land b0 0x1F) 6) (low6 (code c1)), 2%nat)
            else (RuneError, 1%nat)
        | Some (3%nat, lo, hi), String c1 (String c2 _) =>
            if between lo hi (code c1) && cont (code c2)
            then (Z.lor (Z.lor (Z.shiftl (Z.land b0 0x0F) 12)
                               (Z.shiftl (low6 (code c1)) 6))
                        (low6 (code c2)), 3%nat)
            else (RuneError, 1%nat)
        | Some (4%nat, lo, hi), String c1 (String c2 (String c3 _)) =>
            if between lo hi (code c1) && cont (code c2) && cont (code c3)
            then (Z.lor (Z.lor (Z.lor (Z.shiftl (Z.land b0 0x07) 18)
                                      (Z.shiftl (low6 (code c1)) 12))
                               (Z.shiftl (low6 (code c2)) 6))
                        (low6 (code c3)), 4%nat)
            else (RuneError, 1%nat)
        | _, _ => (RuneError, 1%nat)
        end
  end.

(** A byte [tag | (x & 0xff)], as [byte(x)] truncates. *)
Definition tagged (tag x : Z) : ascii := chr (Z.lor tag (Z.land x 0xFF)).
Definition trail (x : Z) : ascii := chr (Z.lor 0x80 (low6 x)).

Definition encode3 (r : Z) : string :=
  String (tagged 0xE0 (Z.shiftr r 12))
    (String (trail (Z.shiftr r 6)) (String (trail r) EmptyString)).

(** [utf8.EncodeRune]; negative runes, surrogates and runes above
    [MaxRune] are written as [RuneError]. *)
Definition EncodeRune (r : Z) : string :=
  if between 0 0x7F r then String (chr r) EmptyString
  else if between 0 0x7FF r then
    String (tagged 0xC0 (Z.shiftr r 6)) (String (trail r) EmptyString)
  else if (r <? 0) || (MaxRune <? r) || between 0xD800 0xDFFF r then
    encode3 RuneError
  else if r <=? 0xFFFF then encode3 r
  else
    String (tagged 0xF0 (Z.shiftr r 18))
      (String (trail (Z.shiftr r 12))
         (String (trail (Z.shiftr r 6)) (String (trail r) EmptyString))).

(** Well-formed UTF-8: every byte belongs to a sequence [DecodeRune] accepts. *)
Fixpoint valid_go (fuel : nat) (s : string) : bool :=
  match fuel, s with
  | _, EmptyString => true
  | O, _ => false
  | S f, String _ _ =>
      let '(r, size) := DecodeRune s in
      if (r =? RuneError) && (size =? 1)%nat then false
      else valid_go f (drop size s)
  end.

Definition Valid (s : string) : bool := valid_go (String.length s) s.

End UTF8.

(** ** [encoding/json]: strings *)

Module JSON.
Import UTF8.

Definition dquote : ascii := "034"%char.
Definition bslash : ascii := "092"%char.

Definition hex_digit (n : Z) : ascii :=
  if n <? 10 then chr (48 + n) else chr (87 + n).

(** [htmlSafeSet]: the ASCII bytes written as they are. *)
Definition html_safe (b : Z) : bool :=
  (0x20 <=? b) && (b <? 0x80)
  && negb ((b =? 34) || (b =? 92) || (b =? 60) || (b =? 62) || (b =? 38)).

Definition esc (c : ascii) : string := String bslash (String c EmptyString).

(** The escape of an ASCII byte outside [htmlSafeSet]. *)
Definition escape_ascii (b : Z) : string :=
  if (b =? 92) || (b =? 34) then esc (chr b)
  else if b =? 8 then esc "b"
  else if b =? 12 then esc "f"
  else if b =? 10 then esc "n"
  else if b =? 13 then esc "r"
  else if b =? 9 then esc "t"
  else
    String bslash
      (String "u" (String "0" (String "0"
         (String (hex_digit (Z.shiftr b 4))
            (String (hex_digit (Z.land b 0xF)) EmptyString))))).

(** First [n] bytes of a string. *)
Fixpoint take (n : nat) (s : string) : string :=
  match n, s with
  | S n', String c s' => String c (take n' s')
  | _, _ => EmptyString
  end.

(** The loop of [appendString] (with [escapeHTML] set, as [Marshal] does):
    safe bytes are copied, other ASCII bytes escaped, a byte that is not
    well-formed UTF-8 becomes the escape of U+FFFD, U+2028 and U+2029 are
    escaped, every other rune is copied. *)
Fixpoint quote_go (fuel : nat) (s : string) : string :=
  match fuel, s with
  | S f, String c s' =>
      let b := code c in
      if b <? 0x80 then
        (if html_safe b then String c EmptyString else escape_ascii b)
          +:+ quote_go f s'
      else
        let '(r, size) := DecodeRune s in
        if (r =? RuneError) && (size =? 1)%nat then
          String bslash "ufffd" +:+ quote_go f s'
        else if (r =? 0x2028) || (r =? 0x2029) then
          String bslash "u202" +:+ String (hex_digit (Z.land r 0xF)) EmptyString
            +:+ quote_go f (drop size s)
        else take size s +:+ quote_go f (drop size s)
  | _, _ => EmptyString
  end.

Definition quote (s : string) : string :=
  String dquote (quote_go (String.length s) s +:+ String dquote EmptyString).

Definition hex_val (c : ascii) : option Z :=
  let b := code c in
  if between 48 57 b then Some (b - 48)
  else if between 97 102 b then Some (b - 87)
  else if between 65 70 b then Some (b - 55)
  else None.

(** [getu4]: the number written by an escape [\uXXXX] at the head of [s]. *)
Definition getu4 (s : string) : option (Z * string) :=
  match s with
  | String c0 (String c1 (String h1 (String h2 (String h3 (String h4 rest))))) =>
      if Ascii.eqb c0 bslash && Ascii.eqb c1 "u" then
        a ← hex_val h1; b ← hex_val h2; c ← hex_val h3; d ← hex_val h4;
        Some (((a * 16 + b) * 16 + c) * 16 + d, rest)
      else None
  | _ => None
  end.

(** [utf16.DecodeRune] *)
Definition utf16_DecodeRune (r1 r2 : Z) : Z :=
  if between 0xD800 0xDBFF r1 && between 0xDC00 0xDFFF r2
  then Z.lor (Z.shiftl (r1 - 0xD800) 10) (r2 - 0xDC00) + 0x10000
  else RuneError.

Definition with_prefix (p : string) (r : option (string * string))
  : option (string * string) :=
  '(t, rest) ← r; Some (p +:+ t, rest).

(** The text of a string literal, read from just after its opening quote:
    the scanner's checks (no raw control byte, known escapes only) and
    [unquote]'s decoding, with bytes that are not well-formed UTF-8
    replaced by U+FFFD.  Returns the decoded string and what follows the
    closing quote. *)
Fixpoint unquote_go (fuel : nat) (s : string) : option (string * string) :=
  match fuel, s with
  | S f, String c s' =>
      let b := code c in
      if b =? 34 then Some (EmptyString, s')
      else if b =? 92 then
        match s' with
        | String e s'' =>
            let one (x : ascii) := with_prefix (String x EmptyString) (unquote_go f s'') in
            let k := code e in
            if (k =? 34) || (k =? 92) || (k =? 47) then one e
            else if k =? 98 then one (chr 8)
            else if k =? 102 then one (chr 12)
            else if k =? 110 then one (chr 10)
            else if k =? 114 then one (chr 13)
            else if k =? 116 then one (chr 9)
            else if k =? 117 then
              match getu4 s with
              | Some (rr, after) =>
                  if between 0xD800 0xDFFF rr then
                    match getu4 after with
                    | Some (rr1, after1) =>
                        let dec := utf16_DecodeRune rr rr1 in
                        if dec =? RuneError
                        then with_prefix (EncodeRune RuneError) (unquote_go f after)
                        else with_prefix (EncodeRune dec) (unquote_go f after1)
                    | None => with_prefix (EncodeRune RuneError) (unquote_go f after)
                    end
                  else with_prefix (EncodeRune rr) (unquote_go f after)
              | None => None
              end
            else None
        | EmptyString => None
        end
      else if b <? 0x20 then None
      else if b <? 0x80 then with_prefix (String c EmptyString) (unquote_go f s')
      else
        let '(r, size) := DecodeRune s in
        with_prefix (EncodeRune r) (unquote_go f (drop size s))
  | _, _ => None
  end.

Definition unquote (s : string) : option (string * string) :=
  unquote_go (String.length s) s.

End JSON.

(** ** [encoding/json]: values *)

Module JSONValue.
Import JSON.

Inductive json : Type :=
| JNull
| JBool (b : bool)
| JNumber (lit : string)
| JString (s : string)
| JArray (elems : list json)
| JObject (members : list (string * json)).

Definition is_space (c : ascii) : bool :=
  let b := code c in (b =? 32) || (b =? 9) || (b =? 13) || (b =? 10).

Fixpoint skip_ws (s : string) : string :=
  match s with
  | String c s' => if is_space c then skip_ws s' else s
  | EmptyString => s
  end.

(** [expect p s]: [s] without its prefix [p]. *)
Fixpoint expect (p s : string) : option string :=
  match p, s with
  | EmptyString, _ => Some s
  | String a p', String b s' => if Ascii.eqb a b then expect p' s' else None
  | _, _ => None
  end.

(** A maximal run of decimal digits. *)
Fixpoint span_digits (s : string) : string * string :=
  match s with
  | String c s' =>
      if is_digit c then let '(d, r) := span_digits s' in (String c d, r)
      else (EmptyString, s)
  | EmptyString => (EmptyString, s)
  end.

Definition nonempty (s : string) : bool := negb (String.eqb s EmptyString).

(** The number grammar of the scanner: an optional minus sign; a zero, or
    a non-zero digit and any digits; optionally a point and one digit or
    more; optionally [e] or [E], an optional sign and one digit or more. *)
Definition scan_number (s : string) : option (string * string) :=
  let '(sign, s1) :=
    match s with
    | String c r => if Ascii.eqb c "-" then ("-", r) else (EmptyString, s)
    | _ => (EmptyString, s)
    end in
  '(int, s2) ←
    match s1 with
    | String c r =>
        if Ascii.eqb c "0" then Some ("0", r)
        else if is_digit c then Some (span_digits s1)
        else None
    | EmptyString => None
    end;
  '(frac, s3) ←
    match s2 with
    | String c r =>
        if Ascii.eqb c "." then
          let '(d, r') := span_digits r in
          if nonempty d then Some (String c d, r') else None
        else Some (EmptyString, s2)
    | EmptyString => Some (EmptyString, s2)
    end;
  '(exp, s4) ←
    match s3 with
    | String c r =>
        if Ascii.eqb c "e" || Ascii.eqb c "E" then
          let '(sg, r1) :=
            match r with
            | String g r' =>
                if Ascii.eqb g "+" || Ascii.eqb g "-"
                then (String g EmptyString, r') else (EmptyString, r)
            | _ => (EmptyString, r)
            end in
          let '(d, r2) := span_digits r1 in
          if nonempty d then Some (String c (sg +:+ d), r2) else None
        else Some (EmptyString, s3)
    | EmptyString => Some (EmptyString, s3)
    end;
  Some (sign +:+ int +:+ frac +:+ exp, s4).

(** The scanner refuses a document nested deeper than this. *)
Definition maxNestingDepth : Z := 10000.

(** One JSON value at the head of [s] (no leading white space), and what
    follows it.  [fuel] bounds the number of nested calls; the length of
    the input is always enough. *)
Fixpoint parse_value (fuel : nat) (depth : Z) (s : string) : option (json * string) :=
  match fuel, s with
  | S f, String c s' =>
      if Ascii.eqb c "{" then
        if maxNestingDepth <=? depth then None
        else
          match skip_ws s' with
          | String c1 r1 =>
              if Ascii.eqb c1 "}" then Some (JObject [], r1)
              else '(ms, r) ← parse_members f (depth + 1) (String c1 r1);
                   Some (JObject ms, r)
          | EmptyString => None
          end
      else if Ascii.eqb c "[" then
        if maxNestingDepth <=? depth then None
        else
          match skip_ws s' with
          | String c1 r1 =>
              if Ascii.eqb c1 "]" then Some (JArray [], r1)
              else '(es, r) ← parse_elems f (depth + 1) (String c1 r1);
                   Some (JArray es, r)
          | EmptyString => None
          end
      else if Ascii.eqb c dquote then
        '(t, r) ← unquote s'; Some (JString t, r)
      else if Ascii.eqb c "t" then r ← expect "rue" s'; Some (JBool true, r)
      else if Ascii.eqb c "f" then r ← expect "alse" s'; Some (JBool false, r)
      else if Ascii.eqb c "n" then r ← expect "ull" s'; Some (JNull, r)
      else '(lit, r) ← scan_number s; Some (JNumber lit, r)
  | _, _ => None
  end
with parse_members (fuel : nat) (depth : Z) (s : string)
  : option (list (string * json) * string) :=
  match fuel, s with
  | S f, String c s' =>
      if Ascii.eqb c dquote then
        '(k, r1) ← unquote s';
        match skip_ws r1 with
        | String c2 r2 =>
            if Ascii.eqb c2 ":" then
              '(v, r3) ← parse_value f depth (skip_ws r2);
              match skip_ws r3 with
              | String c4 r4 =>
                  if Ascii.eqb c4 "," then
                    '(ms, r5) ← parse_members f depth (skip_ws r4);
                    Some ((k, v) :: ms, r5)
                  else if Ascii.eqb c4 "}" then Some ([(k, v)], r4)
                  else None
              | EmptyString => None
              end
            else None
        | EmptyString => None
        end
      else None
  | _, _ => None
  end
with parse_elems (fuel : nat) (depth : Z) (s : string)
  : option (list json * string) :=
  match fuel with
  | S f =>
      '(v, r1) ← parse_value f depth s;
      match skip_ws r1 with
      | String c2 r2 =>
          if Ascii.eqb c2 "," then
            '(es, r3) ← parse_elems f depth (skip_ws r2); Some (v :: es, r3)
          else if Ascii.eqb c2 "]" then Some ([v], r2)
          else None
      | EmptyString => None
      end
  | O => None
  end.

(** [checkValid] and the scan of the whole document: one value, white
    space around it, nothing else. *)
Definition parse (data : string) : option json :=
  '(j, r) ← parse_value (S (String.length data)) 0 (skip_ws data);
  if nonempty (skip_ws r) then None else Some j.

End JSONValue.

(** * server.go: data *)

Record Deploy := {
  Id : string;
  Note : string;
  Port : Z (* -1 for not running *)
}.

Definition deployPath : string := "deploys".
Definition configPath : string := "config.json".

(** A Go map is [nil] ([None]) or allocated. *)
Record Config := {
  Ports : option (gmap Z string);
  Labels : option (gmap string string)
}.

(** [var config Config] *)
Definition zero_Config : Config := {| Ports := None; Labels := None |}.

(** ** [encoding/json] at type [Config] *)

Module ConfigJSON.
Import JSON JSONValue.

Definition encode_entry (kv : string * string) : string :=
  quote kv.1 +:+ ":" +:+ quote kv.2.

Definition encode_object (entries : list (string * string)) : string :=
  "{" +:+ join "," (map encode_entry entries) +:+ "}".

(** Map entries are written in the order of their key strings. *)
Definition key_le : relation (string * string) := λ x y, String.le x.1 y.1.

#[export] Instance key_le_dec : RelDecision key_le :=
  λ x y, decide (String.le x.1 y.1).

Definition encode_map {K} `{Countable K} (key : K → string)
    (m : option (gmap K string)) : string :=
  match m with
  | None => "null"
  | Some m =>
      encode_object (merge_sort key_le (prod_map key id <$> map_to_list m))
  end.

(** [json.Marshal(s.config)]; no value of this type makes it fail. *)
Definition Marshal (c : Config) : string :=
  "{" +:+ quote "Ports" +:+ ":" +:+ encode_map Itoa (Ports c)
      +:+ "," +:+ quote "Labels" +:+ ":" +:+ encode_map id (Labels c) +:+ "}".

(** [foldRune]: the smallest rune that differs from [r] by case only.  Two
    runes beyond ASCII have an ASCII letter among their case variants: the
    long s (U+017F) and the Kelvin sign (U+212A).  Every other rune beyond
    ASCII folds to a rune beyond ASCII, and the model keeps it as it is:
    that decides the same for the names of [Config]'s fields, which are
    ASCII. *)
Definition foldRune (r : Z) : Z :=
  if r =? 0x17F then 83        (* S *)
  else if r =? 0x212A then 75  (* K *)
  else r.

(** [foldName]: ASCII letters to upper case, every other rune folded. *)
Fixpoint fold_go (fuel : nat) (s : string) : string :=
  match fuel, s with
  | S f, String c s' =>
      if code c <? 128 then
        String (if UTF8.between 97 122 (code c) then chr (code c - 32) else c)
          (fold_go f s')
      else
        let (r, size) := UTF8.DecodeRune (String c s') in
        UTF8.EncodeRune (foldRune r) +:+ fold_go f (drop size (String c s'))
  | _, _ => EmptyString
  end.

Definition foldName (s : string) : string := fold_go (String.length s) s.

(** A key selects a struct field when it is the field's name, or when the
    two have the same folded name. *)
Definition names_field (key field : string) : bool :=
  String.eqb key field || String.eqb (foldName key) (foldName field).

(** The members of an object into a map of strings: every key has to be
    readable as a [K], every value a string or [null] (which leaves the
    zero string). *)
Fixpoint decode_members {K} `{Countable K} (key : string → option K)
    (ms : list (string * json)) (m : gmap K string) : option (gmap K string) :=
  match ms with
  | [] => Some m
  | (k, v) :: ms' =>
      k' ← key k;
      v' ← match v with
            | JString t => Some t
            | JNull => Some EmptyString
            | _ => None
            end;
      decode_members key ms' (<[k' := v']> m)
  end.

Definition decode_map {K} `{Countable K} (key : string → option K)
    (v : json) (old : option (gmap K string)) : option (option (gmap K string)) :=
  match v with
  | JNull => Some None
  | JObject ms => Some <$> decode_members key ms (default ∅ old)
  | _ => None
  end.

Fixpoint decode_fields (ms : list (string * json)) (c : Config) : option Config :=
  match ms with
  | [] => Some c
  | (k, v) :: ms' =>
      if names_field k "Ports" then
        p ← decode_map ParseInt v (Ports c);
        decode_fields ms' {| Ports := p; Labels := Labels c |}
      else if names_field k "Labels" then
        l ← decode_map Some v (Labels c);
        decode_fields ms' {| Ports := Ports c; Labels := l |}
      else decode_fields ms' c
  end.

Inductive json_error := SyntaxError | UnmarshalTypeError.

(** [json.Unmarshal(data, &config)] on a zero [config]: the configuration
    read, or the error. *)
Definition Unmarshal (data : string) : Config + json_error :=
  match parse data with
  | None => inr SyntaxError
  | Some JNull => inl zero_Config
  | Some (JObject ms) =>
      match decode_fields ms zero_Config with
      | Some c => inl c
      | None => inr UnmarshalTypeError
      end
  | Some _ => inr UnmarshalTypeError
  end.

End ConfigJSON.

(** * server.go: the world outside the program *)

Inductive errno := ENOENT | EACCES | EISDIR | ENOSPC | EIO.

Inductive error : Type :=
| errorString (msg : string)                 (* errors.New(msg) *)
| PathError (op path : string) (e : errno)   (* os, io/ioutil *)
| JSONError (e : ConfigJSON.json_error)      (* encoding/json *)
| OpError (op addr : string)                 (* net: no connection *)
| TimeoutError                               (* net/http: Client.Timeout exceeded *)
| URLError (op url : string) (err : error)   (* net/http wraps what a request fails with *)
| ExecError (name : string)                  (* os/exec *)
| ManifestError (msg : string).              (* what ApplicationFromConfig fails with *)

(** Modelled from the spec: the type [Application] and the function
    [ApplicationFromConfig] are declared outside server.go.  Section 2 of the
    specification gives their interface: a run command parameterised by the
    port, and a health-check path. *)
Record Application := {
  RunCmd : Z → string;
  HealthEndpoint : string
}.

(** Modelled from the spec: [NewDeployDirResponse] is declared outside
    server.go; section 4.5 gives its two components. *)
Record NewDeployDirResponse := {
  DeployId : string;
  Path_ : string
}.

(** [exec.Cmd] as [Run] fills it. *)
Record Cmd := {
  Args : list string;
  Dir : string;
  Setpgid : bool
}.

(** What the far end does with one HTTP request: it does not answer
    (connection refused or reset); it answers with a status the client hands
    over to its caller; or it answers with a redirect (a 301, 302, 303, 307 or
    308 with a Location), which the client follows if its policy allows, to
    meet [next] there. *)
Inductive Exchange :=
| NoResponse
| Response (status : Z)
| Redirect (status : Z) (location : string) (next : Exchange).

Record Attempt := {
  latency : N;          (* nanoseconds until the exchange is over *)
  exchange : Exchange
}.

(** How a write of a whole file can go wrong. *)
Inductive WriteFault :=
| OpenFails (e : errno)                 (* nothing is touched *)
| WriteFails (written : nat) (e : errno). (* truncated, then cut short *)

(** [time.Time] as read by [time.Now()], in local time. *)
Record Time := {
  Year : Z; Month : Z; Day : Z;
  Hour : Z; Minute : Z; Second : Z;
  Nanosecond : Z
}.

Record World := {
  dial : string → bool;                          (* net.Dial(tcp, addr) connects *)
  manifest : string → Application + error;       (* ApplicationFromConfig(path) *)
  read_fault : string → option errno;            (* a read of this path fails *)
  write_fault : string → option WriteFault;      (* a write of this path fails *)
  start_fault : Cmd → option error;              (* cmd.Start() fails *)
  http : string → nat → Attempt;                 (* the n-th GET of this url *)
  calendar : Z → Time                            (* local time at an instant *)
}.

Inductive event :=
| EvDial (addr : string) (connected : bool)
| EvLog (line : string)                          (* package log *)
| EvPrintln (line : string)                      (* builtin println *)
| EvWriteFile (path data : string) (ok : bool)
| EvStart (cmd : Cmd) (ok : bool)
| EvGet (url : string)
| EvSleep (d : Z).

Record State := {
  config : Config;                (* the Config that s.config points to *)
  files : gmap string string;     (* regular files by path *)
  procs : list Cmd;               (* processes started, oldest first *)
  now : Z;                        (* monotonic clock, nanoseconds *)
  gets : nat;                     (* GET requests issued so far *)
  trace : list event              (* what happened, oldest first *)
}.

(** ** A monad for the program's steps *)

Inductive Res (A : Type) : Type :=
| Done (a : A) (st : State)     (* returned [a] *)
| Panic (msg : string) (st : State)
| Diverge.                      (* the loop bound of the model ran out *)
Arguments Done {A} a st.
Arguments Panic {A} msg st.
Arguments Diverge {A}.

Definition M (A : Type) : Type := World → State → Res A.

Definition ret {A} (a : A) : M A := λ _ st, Done a st.

Definition bind {A B} (m : M A) (k : A → M B) : M B :=
  λ w st,
    match m w st with
    | Done a st' => k a w st'
    | Panic msg st' => Panic msg st'
    | Diverge => Diverge
    end.

Notation "'do' x <- m ; k" := (bind m (λ x, k))
  (at level 10, x pattern, m at level 100, k at level 200,
   format "'[v' 'do'  x  <-  m ; '/' k ']'").
Notation "m ;; k" := (bind m (λ _, k))
  (at level 100, k at level 200, right associativity).

Definition panic {A} (msg : string) : M A := λ _ st, Panic msg st.
Definition diverge {A} : M A := λ _ _, Diverge.

Definition emit (e : event) : M unit :=
  λ _ st,
    Done tt {| config := config st; files := files st; procs := procs st;
               now := now st; gets := gets st; trace := trace st ++ [e] |}.

Definition ask : M World := λ w st, Done w st.
Definition get_state : M State := λ _ st, Done st st.

(** [log.Print] and [log.Println]: the line, without date and time;
    [Println] puts a space between its operands. *)
Definition log_Print (line : string) : M unit := emit (EvLog line).
Definition log_Println (line : string) : M unit := emit (EvLog line).
Definition println (line : string) : M unit := emit (EvPrintln line).

(** [time.Now()]: the monotonic reading and [time.Sleep].  The clock of the
    model moves only where the program waits, and by the time it asks for:
    [time.Sleep] pauses the time given (Go pauses at least that long), and
    what the program does in between takes no time.  So the clock gives
    the time that must have passed at least. *)
Definition time_Now : M Z := λ _ st, Done (now st) st.

Definition advance (d : Z) : M unit :=
  λ _ st,
    Done tt {| config := config st; files := files st; procs := procs st;
               now := now st + d; gets := gets st; trace := trace st |}.

Definition time_Sleep (d : Z) : M unit := emit (EvSleep d) ;; advance d.

(** [net.Dial] followed, on success, by [conn.Close()].  The time a
    dial takes is not modelled. *)
Definition net_Dial (addr : string) : M bool :=
  do w <- ask;
  emit (EvDial addr (dial w addr)) ;; ret (dial w addr).

(** [ioutil.ReadFile] *)
Definition ioutil_ReadFile (path : string) : M (string + error) :=
  λ w st,
    match read_fault w path with
    | Some e => Done (inr (PathError "open" path e)) st
    | None =>
        match files st !! path with
        | Some data => Done (inl data) st
        | None => Done (inr (PathError "open" path ENOENT)) st
        end
    end.

Definition set_file (path data : string) : M unit :=
  λ _ st,
    Done tt {| config := config st; files := <[path := data]> (files st);
               procs := procs st; now := now st; gets := gets st;
               trace := trace st |}.

(** [ioutil.WriteFile]: create or truncate, write, close.  There is no
    temporary file: a write cut short leaves the file cut short. *)
Definition ioutil_WriteFile (path data : string) : M (option error) :=
  do w <- ask;
  match write_fault w path with
  | None =>
      set_file path data ;; emit (EvWriteFile path data true) ;; ret None
  | Some (OpenFails e) =>
      emit (EvWriteFile path data false) ;; ret (Some (PathError "open" path e))
  | Some (WriteFails n e) =>
      set_file path (JSON.take n data) ;; emit (EvWriteFile path data false) ;;
      ret (Some (PathError "write" path e))
  end.

(** [cmd.Start()] *)
Definition cmd_Start (cmd : Cmd) : M (option error) :=
  λ w st,
    match start_fault w cmd with
    | Some e =>
        Done (Some e)
          {| config := config st; files := files st; procs := procs st;
             now := now st; gets := gets st;
             trace := trace st ++ [EvStart cmd false] |}
    | None =>
        Done None
          {| config := config st; files := files st; procs := procs st ++ [cmd];
             now := now st; gets := gets st;
             trace := trace st ++ [EvStart cmd true] |}
    end.

(** ** [net/http]: the client *)

Record Client := {
  CheckRedirect : string → option error;  (* the policy, asked at each redirect *)
  ClientTimeout : Z                       (* the field Timeout *)
}.

(** What [client.Get] hands back for an exchange: the response or [nil],
    and the error or [nil].  When the policy refuses a redirect, [Get]
    returns the redirecting response together with the wrapped error. *)
Fixpoint deliver (c : Client) (url : string) (x : Exchange)
  : option Z * option error :=
  match x with
  | NoResponse => (None, Some (URLError "Get" url (OpError "dial" url)))
  | Response status => (Some status, None)
  | Redirect status location next =>
      match CheckRedirect c location with
      | Some e => (Some status, Some (URLError "Get" location e))
      | None => deliver c location next
      end
  end.

(** [client.Get(url)]: the request takes the time the far end takes, but
    no longer than the client's time limit, after which it has failed. *)
Definition client_Get (c : Client) (url : string) : M (option Z * option error) :=
  λ w st,
    let a := http w url (gets st) in
    let late := ClientTimeout c <? Z.of_N (latency a) in
    let took := if late then ClientTimeout c else Z.of_N (latency a) in
    Done (if late then (None, Some (URLError "Get" url TimeoutError))
          else deliver c url (exchange a))
      {| config := config st; files := files st; procs := procs st;
         now := now st + took; gets := S (gets st);
         trace := trace st ++ [EvGet url] |}.

(** * server.go: the program *)

Record ServerImpl := {
  root : string
  (* config *Config: the Config it points to is [config] of the [State] *)
}.

Definition empty_if_nil {K} `{Countable K} (m : option (gmap K string))
  : option (gmap K string) :=
  match m with
  | None => Some ∅     (* make(map[...]string) *)
  | Some _ => m
  end.

Definition readConfig (path : string) : M (option Config * option error) :=
  do r <- ioutil_ReadFile path;
  let decoded :=
    match r with
    | inl data => ConfigJSON.Unmarshal data
    | inr _ => inl zero_Config
    end in
  match decoded with
  | inr e => ret (None, Some (JSONError e))
  | inl config =>
      ret (Some {| Ports := empty_if_nil (Ports config);
                   Labels := empty_if_nil (Labels config) |}, None)
  end.

(** [time.Now()] with its calendar fields. *)
Definition time_Now_local : M Time :=
  do w <- ask; do t <- time_Now; ret (calendar w t).

Definition timestamp (t : Time) : string :=
  Itoa (Year t) +:+ "-" +:+ fmt_02d (Month t) +:+ "-" +:+ fmt_02d (Day t)
    +:+ "-" +:+ fmt_02d (Hour t) +:+ "-" +:+ fmt_02d (Minute t)
    +:+ "-" +:+ fmt_02d (Second t).

Definition NewDeployDir (s : ServerImpl) : M NewDeployDirResponse :=
  do t <- time_Now_local;
  ret {| DeployId := timestamp t;
         Path_ := Path.Join [root s; deployPath; timestamp t] |}.

Definition port_addr (i : Z) : string := "127.0.0.1:" +:+ Itoa i.

(** The loop of [findUnusedPort] with [n] candidates left, [i] the next. *)
Fixpoint scan_ports (n : nat) (i : Z) : M (Z * option error) :=
  match n with
  | O => ret (-1, Some (errorString "Could not find free port"))
  | S n' =>
      do connected <- net_Dial (port_addr i);
      if connected then scan_ports n' (i + 1) else ret (i, None)
  end.

Definition findUnusedPort (s : ServerImpl) : M (Z * option error) :=
  scan_ports (Z.to_nat (8100 - 8001)) 8001.

Definition writeConfig (s : ServerImpl) : M (option error) :=
  do st <- get_state;
  ioutil_WriteFile (Path.Join [root s; configPath]) (ConfigJSON.Marshal (config st)).

(** [s.config.Ports[port] = deployId]; assigning into a nil map panics. *)
Definition assign_port (port : Z) (deployId : string) : M unit :=
  λ _ st,
    match Ports (config st) with
    | None => Panic "assignment to entry in nil map" st
    | Some m =>
        Done tt {| config := {| Ports := Some (<[port := deployId]> m);
                                Labels := Labels (config st) |};
                   files := files st; procs := procs st; now := now st;
                   gets := gets st; trace := trace st |}
    end.

Definition second : Z := 1000000000.
Definition millisecond : Z := 1000000.

Definition MAX_STARTUP_TIME : Z := 1 * second.
Definition MAX_HEALTH_CHECK_TIME : Z := 2 * second.
Definition STARTUP_HEALTH_CHECK_INTERVAL : Z := 100 * millisecond.

Definition health_client : Client := {|
  CheckRedirect := λ _, Some (errorString "health check should not redirect");
  ClientTimeout := MAX_HEALTH_CHECK_TIME
|}.

(** The [for] loop of [waitForAppToStart]; [fuel] bounds its iterations. *)
Fixpoint poll (fuel : nat) (url : string) (end_ : Z) : M (option error) :=
  match fuel with
  | O => diverge
  | S fuel' =>
      log_Print "." ;;
      do (resp, err) <- client_Get health_client url;
      match err, resp with
      | None, Some status =>
          if status =? 200 then log_Println "ok" ;; ret None
          else
            log_Println ("bad: " +:+ Itoa status) ;;
            ret (Some (errorString ("Health check failed " +:+ Itoa status)))
      | None, None => panic "nil pointer dereference"
      | Some _, _ =>
          do t <- time_Now;
          if end_ <? t
          then ret (Some (errorString "Failed to connect to app after timeout"))
          else time_Sleep STARTUP_HEALTH_CHECK_INTERVAL ;; poll fuel' url end_
      end
  end.

(** The loop sleeps a fixed interval between attempts and leaves once the
    deadline is behind, so this many iterations are never exceeded (see
    [poll_fuel_enough]). *)
Definition max_polls : nat :=
  Z.to_nat (MAX_STARTUP_TIME / STARTUP_HEALTH_CHECK_INTERVAL) + 2.

Definition health_url (port : Z) (app : Application) : string :=
  "http://localhost:" +:+ Itoa port +:+ HealthEndpoint app.

Definition waitForAppToStart (port : Z) (app : Application) : M (option error) :=
  do t <- time_Now;
  poll max_polls (health_url port app) (t + MAX_STARTUP_TIME).

(** Modelled from the spec: [ApplicationFromConfig] is defined outside
    server.go.  Section 2 of the specification describes it as a parser of
    the manifest at a known path; it reads, and changes nothing. *)
Definition ApplicationFromConfig (path : string) : M (Application + error) :=
  do w <- ask; ret (manifest w path).

Definition Run (s : ServerImpl) (deployId : string) : M (option error) :=
  do (port, err) <- findUnusedPort s;
  match err with
  | Some e => ret (Some e)
  | None =>
      log_Println ("Found port  " +:+ Itoa port) ;;
      let deployPath := Path.Join [root s; deployPath; deployId] in
      do r <- ApplicationFromConfig (Path.Join [deployPath; "deploy.json"]);
      match r with
      | inr e => ret (Some e)
      | inl app =>
          assign_port port deployId ;;
          writeConfig s ;;
          println deployPath ;;
          println (RunCmd app port) ;;
          let cmd := {| Args := ["sh"; "-c"; RunCmd app port];
                        Dir := deployPath; Setpgid := true |} in
          do err <- cmd_Start cmd;
          match err with
          | Some e => ret (Some e)
          | None => waitForAppToStart port app
          end
      end
  end.

(** * Notions used in the statements *)

(** The candidate port [q] has a listener: dialling it connects. *)
Definition connects (w : World) (q : Z) : bool := dial w (port_addr q).

(** The dials made for the [n] candidates from [i] on, in order. *)
Definition dials (w : World) (i : Z) (n : nat) : list event :=
  (λ q, EvDial (port_addr q) (connects w q)) <$> seqZ i (Z.of_nat n).

(** Frame of the scan: nothing but the trace changes. *)
Definition same_but_trace (st st' : State) : Prop :=
  config st' = config st ∧ files st' = files st ∧ procs st' = procs st
  ∧ now st' = now st ∧ gets st' = gets st.

(** ** The health check *)

Definition timeout_error : error :=
  errorString "Failed to connect to app after timeout".

Definition bad_status_error (status : Z) : error :=
  errorString ("Health check failed " +:+ Itoa status).

(** The attempt the next GET of [url] will be. *)
Definition attempt (w : World) (url : string) (st : State) : Attempt :=
  http w url (gets st).

(** The far end is done within the client's time limit. *)
Definition in_time (a : Attempt) : bool :=
  Z.of_N (latency a) <=? MAX_HEALTH_CHECK_TIME.

(** The time the GET takes. *)
Definition took (a : Attempt) : Z :=
  if in_time a then Z.of_N (latency a) else MAX_HEALTH_CHECK_TIME.

(** What the GET returns. *)
Definition get_result (url : string) (a : Attempt) : option Z * option error :=
  if in_time a then deliver health_client url (exchange a)
  else (None, Some (URLError "Get" url TimeoutError)).

(** The request does not complete: [client.Get] returns an error. *)
Definition failed (a : Attempt) : bool :=
  negb (in_time a)
  || match exchange a with Response _ => false | _ => true end.

Definition logged (line : string) (st : State) : State :=
  {| config := config st; files := files st; procs := procs st;
     now := now st; gets := gets st; trace := trace st ++ [EvLog line] |}.

(** The state once one iteration has logged its dot and made its GET. *)
Definition polled (w : World) (url : string) (st : State) : State :=
  {| config := config st; files := files st; procs := procs st;
     now := now st + took (attempt w url st); gets := S (gets st);
     trace := (trace st ++ [EvLog "."]) ++ [EvGet url] |}.

(** The state after sleeping the poll interval. *)
Definition slept (st : State) : State :=
  {| config := config st; files := files st; procs := procs st;
     now := now st + STARTUP_HEALTH_CHECK_INTERVAL; gets := gets st;
     trace := trace st ++ [EvSleep STARTUP_HEALTH_CHECK_INTERVAL] |}.

(** ** Worlds and states for the examples *)

Definition example_app : Application := {|
  RunCmd := λ port, "myapp --port=" +:+ Itoa port;
  HealthEndpoint := "/healthz"
|}.

Definition example_time : Time := {|
  Year := 2020; Month := 1; Day := 2; Hour := 3; Minute := 4; Second := 5;
  Nanosecond := 678
|}.

(** Nothing listens on the candidate ports, every manifest resolves to
    [example_app], no file operation and no spawn fails, and every GET is
    answered with [x] after one millisecond. *)
Definition world_answering (x : nat → Exchange) : World := {|
  dial := λ _, false;
  manifest := λ _, inl example_app;
  read_fault := λ _, None;
  write_fault := λ _, None;
  start_fault := λ _, None;
  http := λ _ n, {| latency := 1000000; exchange := x n |};
  calendar := λ _, example_time
|}.

Definition healthy_world : World := world_answering (λ _, Response 200).

(** The first GET is redirected, the second answered with 200. *)
Definition redirecting_world : World :=
  world_answering
    (λ n, match n with
          | O => Redirect 302 "/login" (Response 200)
          | S _ => Response 200
          end).

Definition silent_world : World := world_answering (λ _, NoResponse).

Definition with_write_fault (f : string → option WriteFault) (w : World) : World := {|
  dial := dial w; manifest := manifest w; read_fault := read_fault w;
  write_fault := f; start_fault := start_fault w; http := http w;
  calendar := calendar w
|}.

Definition with_start_fault (f : Cmd → option error) (w : World) : World := {|
  dial := dial w; manifest := manifest w; read_fault := read_fault w;
  write_fault := write_fault w; start_fault := f; http := http w;
  calendar := calendar w
|}.

Definition with_manifest (f : string → Application + error) (w : World) : World := {|
  dial := dial w; manifest := f; read_fault := read_fault w;
  write_fault := write_fault w; start_fault := start_fault w; http := http w;
  calendar := calendar w
|}.

Definition with_dial (f : string → bool) (w : World) : World := {|
  dial := f; manifest := manifest w; read_fault := read_fault w;
  write_fault := write_fault w; start_fault := start_fault w; http := http w;
  calendar := calendar w
|}.

Definition with_read_fault (f : string → option errno) (w : World) : World := {|
  dial := dial w; manifest := manifest w; read_fault := f;
  write_fault := write_fault w; start_fault := start_fault w; http := http w;
  calendar := calendar w
|}.

Definition empty_Config : Config := {| Ports := Some ∅; Labels := Some ∅ |}.

(** A server just started on an empty root. *)
Definition fresh : State := {|
  config := empty_Config; files := ∅; procs := []; now := 0; gets := 0;
  trace := []
|}.

Definition example_server : ServerImpl := {| root := "/srv/camus" |}.

(** ** The steps of [Run] *)

Definition deploy_dir (s : ServerImpl) (deployId : string) : string :=
  Path.Join [root s; deployPath; deployId].

Definition manifest_path (s : ServerImpl) (deployId : string) : string :=
  Path.Join [deploy_dir s deployId; "deploy.json"].

Definition config_path (s : ServerImpl) : string :=
  Path.Join [root s; configPath].

Definition run_cmd (s : ServerImpl) (deployId : string) (app : Application)
    (port : Z) : Cmd :=
  {| Args := ["sh"; "-c"; RunCmd app port];
     Dir := deploy_dir s deployId; Setpgid := true |}.

Definition found_line (port : Z) : string := "Found port  " +:+ Itoa port.

(** The state with [m] as the registry's ports. *)
Definition with_ports (m : gmap Z string) (st : State) : State :=
  {| config := {| Ports := Some m; Labels := Labels (config st) |};
     files := files st; procs := procs st; now := now st; gets := gets st;
     trace := trace st |}.

Definition with_file (path data : string) (st : State) : State :=
  {| config := config st; files := <[path := data]> (files st);
     procs := procs st; now := now st; gets := gets st; trace := trace st |}.

Definition recorded (e : event) (st : State) : State :=
  {| config := config st; files := files st; procs := procs st;
     now := now st; gets := gets st; trace := trace st ++ [e] |}.

(** The state a write of [data] to [path] leaves, and whether it succeeded. *)
Definition write_outcome (w : World) (path data : string) (st : State)
  : option error * State :=
  match write_fault w path with
  | None =>
      (None, recorded (EvWriteFile path data true) (with_file path data st))
  | Some (OpenFails e) =>
      (Some (PathError "open" path e), recorded (EvWriteFile path data false) st)
  | Some (WriteFails n e) =>
      (Some (PathError "write" path e),
       recorded (EvWriteFile path data false)
         (with_file path (JSON.take n data) st))
  end.

(** The state after the registry has been written and the two [println]s
    have been made. *)
Definition announced (s : ServerImpl) (deployId : string) (app : Application)
    (port : Z) (w : World) (st : State) : State :=
  recorded (EvPrintln (RunCmd app port))
    (recorded (EvPrintln (deploy_dir s deployId))
       (write_outcome w (config_path s) (ConfigJSON.Marshal (config st)) st).2).

Definition launched (cmd : Cmd) (st : State) : State :=
  {| config := config st; files := files st; procs := procs st ++ [cmd];
     now := now st; gets := gets st; trace := trace st ++ [EvStart cmd true] |}.

(** The lines the program has written with [log] and [println]. *)
Fixpoint log_lines (tr : list event) : list string :=
  match tr with
  | EvLog line :: tr' => line :: log_lines tr'
  | EvPrintln line :: tr' => line :: log_lines tr'
  | _ :: tr' => log_lines tr'
  | [] => []
  end.

(** The commands whose start was attempted, with the outcome. *)
Fixpoint starts (tr : list event) : list (Cmd * bool) :=
  match tr with
  | EvStart cmd ok :: tr' => (cmd, ok) :: starts tr'
  | _ :: tr' => starts tr'
  | [] => []
  end.

(** Two runs that cannot be told apart by what [Run] returns, by the
    registry in memory, the processes, the clock, the requests made, the
    lines logged and the commands started.  The files may differ. *)
Definition alike (st st' : State) : Prop :=
  config st = config st' ∧ procs st = procs st' ∧ now st = now st'
  ∧ gets st = gets st' ∧ log_lines (trace st) = log_lines (trace st')
  ∧ starts (trace st) = starts (trace st').

Definition same_run {A} (r r' : Res A) : Prop :=
  match r, r' with
  | Done a st, Done a' st' => a = a' ∧ alike st st'
  | Panic msg st, Panic msg' st' => msg = msg' ∧ alike st st'
  | Diverge, Diverge => True
  | _, _ => False
  end.

(** The config file cannot be opened for writing. *)
Definition readonly_world : World :=
  with_write_fault (λ _, Some (OpenFails EACCES)) healthy_world.

(** ** Deploy ids *)

(** [matches_pattern pat s]: [s] has the shape [pat], where [d] in the
    pattern stands for one decimal digit and every other byte for itself. *)
Fixpoint matches_pattern (pat s : string) : bool :=
  match pat, s with
  | EmptyString, EmptyString => true
  | String p pat', String c s' =>
      (if Ascii.eqb p "d" then is_digit c else Ascii.eqb p c)
      && matches_pattern pat' s'
  | _, _ => false
  end.

(** YYYY-MM-DD-HH-MM-SS *)
Definition id_pattern : string := "dddd-dd-dd-dd-dd-dd".

(** A clock reading: a date and a time of day, in a year of four digits. *)
Definition clock_reading (t : Time) : Prop :=
  1000 ≤ Year t ≤ 9999 ∧ 1 ≤ Month t ≤ 12 ∧ 1 ≤ Day t ≤ 31
  ∧ 0 ≤ Hour t ≤ 23 ∧ 0 ≤ Minute t ≤ 59 ∧ 0 ≤ Second t ≤ 59.

(** Two readings within the same second of the clock. *)
Definition same_second (t t' : Time) : Prop :=
  Year t = Year t' ∧ Month t = Month t' ∧ Day t = Day t'
  ∧ Hour t = Hour t' ∧ Minute t = Minute t' ∧ Second t = Second t'.

(** ** Notions for the round trip through the config file *)

(** The number a list of decimal digits stands for, least significant first. *)
Definition digits_value (ds : list Z) : Z :=
  fold_right (λ d acc, d + 10 * acc) 0 ds.

(** What a string reads back as after a trip through JSON: every byte that
    is not part of well-formed UTF-8 has become U+FFFD. *)
Fixpoint coerce_go (fuel : nat) (s : string) : string :=
  match fuel, s with
  | S f, String _ s' =>
      let '(r, size) := UTF8.DecodeRune s in
      if (r =? UTF8.RuneError) && (size =? 1)%nat
      then UTF8.EncodeRune UTF8.RuneError +:+ coerce_go f s'
      else JSON.take size s +:+ coerce_go f (drop size s)
  | _, _ => EmptyString
  end.

Definition coerce (s : string) : string := coerce_go (String.length s) s.

Import UTF8 JSON JSONValue ConfigJSON.

(** The member an entry is read back as. *)
Definition member_of (kv : string * string) : string * json :=
  (coerce kv.1, JString (coerce kv.2)).

(** The entries of a map in the order the encoder writes them. *)
Definition entries_of {K} `{Countable K} (key : K → string) (m : gmap K string)
  : list (string * string) :=
  merge_sort key_le (prod_map key id <$> map_to_list m).

(** The value a map is read back as. *)
Definition map_json {K} `{Countable K} (key : K → string)
    (m : option (gmap K string)) : json :=
  match m with
  | None => JNull
  | Some m => JObject (map member_of (entries_of key m))
  end.

(** Every byte is an ASCII byte. *)
Fixpoint ascii_only (s : string) : bool :=
  match s with
  | String c s' => (code c <? 0x80) && ascii_only s'
  | EmptyString => true
  end.

(** One entry put into the map being read. *)
Definition insert_coerced {K} `{Countable K} (m : gmap K string) (kv : K * string)
  : gmap K string :=
  <[kv.1 := coerce kv.2]> m.

(** The ports as they come back from the file. *)
Definition coerced_ports (p : option (gmap Z string)) : option (gmap Z string) :=
  match p with
  | Some m => Some (coerce <$> m)
  | None => None
  end.

(** The byte 0xFF, and the UTF-8 encoding of U+FFFD. *)
Definition stray_byte : string := String "255" EmptyString.
Definition replacement_character : string :=
  String "239" (String "191" (String "189" EmptyString)).

(** The candidates 8001 to 8049 have a listener, 8050 has none, and the
    application answers from its fourth poll on. *)
Definition busy_world : World :=
  with_dial (λ addr, existsb (λ q, String.eqb addr (port_addr q)) (seqZ 8001 49))
    (world_answering
       (λ n, if (n <? 3)%nat then NoResponse else Response 200)).

(** * server.go: listing the deploys and starting the server

    [ListDeploys] and [NewServerImpl] ask the host for things the [World]
    above has no oracle for: the entries of a directory, the working
    directory, whether a directory can be opened.  A [Host] answers
    them. *)

(** [os.FileInfo]: the name of the entry, and whether it is a directory. *)
Record FileInfo := {
  Name : string;
  IsDir : bool
}.

(** What the host answers to the calls the [World] does not cover. *)
Record Host := {
  getwd : string + errno;                    (* os.Getwd() *)
  open_fault : string → option errno;        (* os.Open(name) fails *)
  readdir : string → list FileInfo + error   (* the entries of a directory, as the system hands them out *)
}.

(** The order of [ioutil.ReadDir]: by name, byte by byte. *)
Definition by_name : relation FileInfo := λ x y, String.le (Name x) (Name y).

#[export] Instance by_name_dec : RelDecision by_name :=
  λ x y, decide (String.le (Name x) (Name y)).

(** [ioutil.ReadDir]: the entries of the directory, sorted by name. *)
Definition ioutil_ReadDir (h : Host) (dirname : string)
  : M (list FileInfo + error) :=
  ret match readdir h dirname with
      | inl infos => inl (merge_sort by_name infos)
      | inr e => inr e
      end.

(** [append(s, x)] on a slice that may be [nil] ([None]). *)
Definition append {A} (s : option (list A)) (x : A) : option (list A) :=
  Some (default [] s ++ [x]).

Definition ListDeploys (h : Host) (s : ServerImpl)
  : M (option (list Deploy) * option error) :=
  do r <- ioutil_ReadDir h (Path.Join [root s; deployPath]);
  match r with
  | inr err => ret (None, Some err)
  | inl infos =>
      ret (fold_left
             (λ result info,
                append result {| Id := Name info; Note := EmptyString; Port := -1 |})
             infos None,
           None)
  end.

(** The text of a system error. *)
Definition errno_text (e : errno) : string :=
  match e with
  | ENOENT => "no such file or directory"
  | EACCES => "permission denied"
  | EISDIR => "is a directory"
  | ENOSPC => "no space left on device"
  | EIO => "input/output error"
  end.

(** [filepath.Abs] on a Unix host, where [filepath.Clean] and
    [filepath.Join] are [path.Clean] and [path.Join]. *)
Definition filepath_Abs (h : Host) (p : string) : string + errno :=
  if Path.is_rooted p then inl (Path.Clean p)
  else match getwd h with
       | inl wd => inl (Path.Join [wd; p])
       | inr e => inr e
       end.

Definition os_Open (h : Host) (name : string) : M (option errno) :=
  ret (open_fault h name).

(** [os.IsNotExist(err)] *)
Definition os_IsNotExist (err : option errno) : bool :=
  match err with
  | Some ENOENT => true
  | _ => false
  end.

(** The mode bits [0644]: [rw-r--r--]. *)
Definition mode_0644 : Z := 6 * 64 + 4 * 8 + 4.

(** How a call ends that may end the process. *)
Inductive Ending (A : Type) : Type :=
| Returned (a : A)
| Exited (status : Z).   (* os.Exit(status) *)
Arguments Returned {A} a.
Arguments Exited {A} status.

(** What a call of [NewServerImpl] comes to: how it ends, and the calls
    of [os.MkdirAll] it made, each with its path and mode bits.  What such
    a call does to the disk is not modelled; its result is dropped by the
    program. *)
Record Started := {
  ending : Ending (option ServerImpl * option error);
  made : list (string * Z)
}.

(** The server's [config] is set to point to [c]. *)
Definition set_config (c : Config) : M unit :=
  λ _ st,
    Done tt {| config := c; files := files st; procs := procs st;
               now := now st; gets := gets st; trace := trace st |}.

(** [log.Fatal] prints its operands as [log.Print] does and ends the
    process with status 1; the error [filepath.Abs] fails with is that of
    [os.Getwd].  [readConfig] gives a registry or an error, never neither
    (see [readConfig_returns]): for that case the model lets the server
    point to the zero registry. *)
Definition NewServerImpl (h : Host) (root : string) : M Started :=
  match filepath_Abs h root with
  | inr e =>
      log_Print ("Root path:" +:+ "getwd: " +:+ errno_text e) ;;
      ret {| ending := Exited 1; made := [] |}
  | inl root =>
      do (config, err) <- readConfig (Path.Join [root; configPath]);
      match err with
      | Some e => ret {| ending := Returned (None, Some e); made := [] |}
      | None =>
          set_config (default zero_Config config) ;;
          do err <- os_Open h (Path.Join [root; deployPath]);
          ret {| ending := Returned (Some {| root := root |}, None);
                 made := if os_IsNotExist err
                         then [(Path.Join [root; deployPath], mode_0644)]
                         else [] |}
      end
  end.

(** * More notions used in the statements *)

(** ** Decimal numerals *)

(** The decimal numeral of [z], as the Standard Library prints it. *)
Definition decimal (z : Z) : string := NilZero.string_of_int (Z.to_int z).

(** Two decimal digits: the tens, then the units. *)
Definition two_digits (z : Z) : string := decimal (z / 10) +:+ decimal (z mod 10).

(** The address of the candidate port [q] on the local host. *)
Definition candidate_address (q : Z) : string := "127.0.0.1:" +:+ decimal q.

(** The connection attempts to the [n] candidates from [i] on, in order,
    each with what the world answers. *)
Definition attempts (w : World) (i : Z) (n : nat) : list event :=
  (λ q, EvDial (candidate_address q) (dial w (candidate_address q)))
    <$> seqZ i (Z.of_nat n).

(** The id the specification describes for the reading [t]: year, month,
    day, hour, minute and second, in this order, the year in full and the
    others with two digits, with dashes in between. *)
Definition stamp_of (t : Time) : string :=
  decimal (Year t) +:+ "-" +:+ two_digits (Month t) +:+ "-" +:+ two_digits (Day t)
    +:+ "-" +:+ two_digits (Hour t) +:+ "-" +:+ two_digits (Minute t)
    +:+ "-" +:+ two_digits (Second t).

(** The first second of the year 10000. *)
Definition year_10000 : Time := {|
  Year := 10000; Month := 1; Day := 1; Hour := 0; Minute := 0; Second := 0;
  Nanosecond := 0
|}.

(** What [ioutil.ReadFile] gives for the path, if it gives anything. *)
Definition readable (w : World) (st : State) (path : string) : option string :=
  match read_fault w path with
  | Some _ => None
  | None => files st !! path
  end.

(** The state with [c] as the registry. *)
Definition with_config (c : Config) (st : State) : State :=
  {| config := c; files := files st; procs := procs st; now := now st;
     gets := gets st; trace := trace st |}.

(** ** The health check *)

(** The last request the loop made. *)
Definition last_attempt (w : World) (url : string) (st' : State) : Attempt :=
  http w url (gets st' - 1).

(** Every request takes three seconds to be answered. *)
Definition slow_world : World := {|
  dial := λ _, false;
  manifest := λ _, inl example_app;
  read_fault := λ _, None;
  write_fault := λ _, None;
  start_fault := λ _, None;
  http := λ _ _, {| latency := 3000000000; exchange := Response 200 |};
  calendar := λ _, example_time
|}.

(** What the health check adds to the trace: log lines, requests to the
    one url, sleeps of the poll interval. *)
Definition health_event (url : string) (ev : event) : Prop :=
  match ev with
  | EvLog _ => True
  | EvGet u => u = url
  | EvSleep d => d = STARTUP_HEALTH_CHECK_INTERVAL
  | _ => False
  end.

(** ** The registry *)

(** The deploy id the registry holds for a port, if any. *)
Definition assigned (c : Config) (port : Z) : option string :=
  m ← Ports c; m !! port.

(** A registry that holds a stale entry for port 8001 and one for 9000. *)
Definition stale : State := with_ports (<[8001 := "old"]> {[9000 := "other"]}) fresh.

(** The keys of a ports map are Go ints. *)
Definition go_ints (m : gmap Z string) : Prop :=
  ∀ k, is_Some (m !! k) → is_int64 k = true.

(** A registry whose strings are all well-formed UTF-8. *)
Definition utf8_registry (c : Config) : Prop :=
  (∀ m, Ports c = Some m →
        go_ints m ∧ ∀ k v, m !! k = Some v → Valid v = true)
  ∧ (∀ m, Labels c = Some m →
          ∀ k v, m !! k = Some v → Valid k = true ∧ Valid v = true).

(** A registry as [readConfig] returns it: nil maps made empty. *)
Definition allocated (c : Config) : Config :=
  {| Ports := empty_if_nil (Ports c); Labels := empty_if_nil (Labels c) |}.

(** ** Paths *)

(** A path element that [Clean] keeps as it is: it is not empty, neither
    [.] nor [..], and holds no slash. *)
Definition plain (e : string) : bool :=
  negb (String.eqb e EmptyString) && negb (String.eqb e ".")
  && negb (String.eqb e "..")
  && forallb (λ c, negb (Ascii.eqb c Path.slash)) (to_list e).

(** The absolute path with these elements. *)
Definition abs_path (elems : list string) : string :=
  String Path.slash (join "/" elems).

(** ** Deploy ids and time *)

(** The reading as the number YYYYMMDDHHMMSS. *)
Definition chrono (t : Time) : Z :=
  ((((Year t * 100 + Month t) * 100 + Day t) * 100 + Hour t) * 100
   + Minute t) * 100 + Second t.


(** The number the decimal digits of [s] spell after [acc], the other
    bytes skipped. *)
Fixpoint digits_number (s : string) (acc : Z) : Z :=
  match s with
  | EmptyString => acc
  | String c s' =>
      digits_number s' (if is_digit c then acc * 10 + (code c - 48) else acc)
  end.

(** How many decimal digits [s] holds. *)
Fixpoint digit_count (s : string) : nat :=
  match s with
  | EmptyString => O
  | String c s' => ((if is_digit c then 1 else 0) + digit_count s')%nat
  end.


(** The last second of 2019. *)
Definition year_end : Time := {|
  Year := 2019; Month := 12; Day := 31; Hour := 23; Minute := 59; Second := 59;
  Nanosecond := 0
|}.

Definition with_calendar (f : Z → Time) (w : World) : World := {|
  dial := dial w; manifest := manifest w; read_fault := read_fault w;
  write_fault := write_fault w; start_fault := start_fault w; http := http w;
  calendar := f
|}.

(** ** Hosts for the examples *)

(** A host whose directories hold the given entries. *)
Definition host_listing (infos : list FileInfo) : Host := {|
  getwd := inl "/";
  open_fault := λ _, None;
  readdir := λ _, inl infos
|}.

(** A host whose working directory is [/home/camus] and where no deploys
    directory is found. *)
Definition bare_host : Host := {|
  getwd := inl "/home/camus";
  open_fault := λ _, Some ENOENT;
  readdir := λ path, inr (PathError "open" path ENOENT)
|}.

(** * Properties *)

(** ** The port allocator *)

Section PortAllocator.
Variable w : World.

Lemma dials_S i n :
  dials w i (S n) = EvDial (port_addr i) (connects w i) :: dials w (i + 1) n.
Proof.
  unfold dials. rewrite Nat2Z.inj_succ, seqZ_cons by lia.
  simpl. do 3 f_equal; lia.
Qed.

Lemma scan_ports_spec n i st :
  (∃ k : nat,
      (k < n)%nat ∧ connects w (i + Z.of_nat k) = false
      ∧ (∀ q, i ≤ q < i + Z.of_nat k → connects w q = true)
      ∧ ∃ st', scan_ports n i w st = Done (i + Z.of_nat k, None) st'
               ∧ trace st' = trace st ++ dials w i (S k)
               ∧ config st' = config st ∧ files st' = files st
               ∧ procs st' = procs st ∧ now st' = now st ∧ gets st' = gets st)
  ∨ ((∀ q, i ≤ q < i + Z.of_nat n → connects w q = true)
     ∧ ∃ st', scan_ports n i w st
              = Done (-1, Some (errorString "Could not find free port")) st'
              ∧ trace st' = trace st ++ dials w i n
              ∧ config st' = config st ∧ files st' = files st
              ∧ procs st' = procs st ∧ now st' = now st ∧ gets st' = gets st).
Proof.
  revert i st. induction n as [|n IH]; intros i st.
  - right. split; [intros; lia|]. eexists. split; [reflexivity|].
    unfold dials. simpl. rewrite app_nil_r. done.
  - destruct (connects w i) eqn:Hc.
    + set (st1 := {| config := config st; files := files st; procs := procs st;
                     now := now st; gets := gets st;
                     trace := trace st ++ [EvDial (port_addr i) true] |}).
      assert (Hstep : scan_ports (S n) i w st = scan_ports n (i + 1) w st1).
      { simpl. unfold bind, net_Dial, bind, ask, emit, ret. simpl.
        fold (connects w i). rewrite Hc. reflexivity. }
      destruct (IH (i + 1) st1) as
        [(k & Hk & Hfree & Hbelow & st' & Hrun & Htr & Hrest)
        |(Hall & st' & Hrun & Htr & Hrest)].
      * left. exists (S k). rewrite Nat2Z.inj_succ.
        replace (i + Z.succ (Z.of_nat k)) with (i + 1 + Z.of_nat k) by lia.
        split; [lia|]. split; [done|]. split.
        { intros q Hq. destruct (decide (q = i)) as [->|]; [done|].
          apply Hbelow. lia. }
        exists st'. rewrite Hstep. split; [done|]. split; [|done].
        rewrite Htr, (dials_S i (S k)), Hc. simpl. by rewrite <- app_assoc.
      * right. split.
        { intros q Hq. destruct (decide (q = i)) as [->|]; [done|].
          apply Hall. lia. }
        exists st'. rewrite Hstep. split; [done|]. split; [|done].
        rewrite Htr, (dials_S i n), Hc. simpl. by rewrite <- app_assoc.
    + left. exists O. rewrite Z.add_0_r. split; [lia|]. split; [done|].
      split; [intros; lia|]. eexists. split.
      { simpl. unfold bind, net_Dial, bind, ask, emit, ret. simpl.
        fold (connects w i). rewrite Hc. reflexivity. }
      simpl. rewrite (dials_S i 0), Hc. done.
Qed.

End PortAllocator.

Lemma findUnusedPort_cases s w st :
  (∃ p st',
      findUnusedPort s w st = Done (p, None) st'
      ∧ 8001 ≤ p < 8100 ∧ connects w p = false
      ∧ (∀ q, 8001 ≤ q < p → connects w q = true)
      ∧ trace st' = trace st ++ dials w 8001 (Z.to_nat (p - 8001 + 1))
      ∧ same_but_trace st st')
  ∨ ((∀ q, 8001 ≤ q < 8100 → connects w q = true)
     ∧ ∃ st',
         findUnusedPort s w st
         = Done (-1, Some (errorString "Could not find free port")) st'
         ∧ trace st' = trace st ++ dials w 8001 99
         ∧ same_but_trace st st').
Proof.
  unfold findUnusedPort.
  destruct (scan_ports_spec w (Z.to_nat (8100 - 8001)) 8001 st) as
    [(k & Hk & Hfree & Hbelow & st' & Hrun & Htr & Hrest)
    |(Hall & st' & Hrun & Htr & Hrest)].
  - left. exists (8001 + Z.of_nat k), st'. split; [done|].
    split; [lia|]. split; [done|]. split; [done|]. split; [|done].
    rewrite Htr. do 2 f_equal. lia.
  - right. split; [intros q Hq; apply Hall; lia|].
    exists st'. split; [done|]. split; [|done]. rewrite Htr. reflexivity.
Qed.

Lemma forallb_seqZ (P : Z → bool) lo n z :
  forallb P (seqZ lo n) = true → lo ≤ z < lo + n → P z = true.
Proof.
  intros Hall Hz. rewrite forallb_forall in Hall. apply Hall.
  apply list_elem_of_In, elem_of_seqZ. lia.
Qed.

(** On the candidate ports, [%d] prints the decimal numeral. *)
Lemma port_addr_candidate q :
  8001 ≤ q < 8100 → port_addr q = candidate_address q.
Proof.
  intros Hq.
  apply String.eqb_eq,
    (forallb_seqZ (λ q, String.eqb (port_addr q) (candidate_address q)) 8001 99);
    [vm_compute; reflexivity|lia].
Qed.

Lemma dials_attempts w i n :
  8001 ≤ i → i + Z.of_nat n ≤ 8100 → dials w i n = attempts w i n.
Proof.
  intros Hi Hn. unfold dials, attempts. apply list_eq_Forall2, Forall2_fmap.
  apply Forall_Forall2_diag, Forall_forall. intros q Hq%elem_of_seqZ.
  unfold connects. by rewrite port_addr_candidate by lia.
Qed.

(** C5. [findUnusedPort] tries the candidates 8001, 8002, ... in order,
    each by a connection attempt to 127.0.0.1:<candidate>, and returns the
    first one whose attempt fails: the port returned lies in [8001, 8100),
    the attempt to its address failed, the attempt to the address of every
    candidate below it connected, and the attempts made are exactly those
    to the candidates up to it, in order.  When the attempts to all 99
    candidates connect, it returns -1 with the error "Could not find free
    port", having tried each once. *)
Theorem findUnusedPort_first_free s w st :
  (∃ p st',
      findUnusedPort s w st = Done (p, None) st'
      ∧ 8001 ≤ p < 8100
      ∧ dial w (candidate_address p) = false
      ∧ (∀ q, 8001 ≤ q < p → dial w (candidate_address q) = true)
      ∧ trace st' = trace st ++ attempts w 8001 (Z.to_nat (p - 8001 + 1)))
  ∨ ((∀ q, 8001 ≤ q < 8100 → dial w (candidate_address q) = true)
     ∧ ∃ st',
         findUnusedPort s w st
         = Done (-1, Some (errorString "Could not find free port")) st'
         ∧ trace st' = trace st ++ attempts w 8001 99).
Proof.
  destruct (findUnusedPort_cases s w st) as
    [(p & st' & H1 & H2 & H3 & H4 & H5 & _)|(Hall & st' & H1 & H2 & _)].
  - left. exists p, st'. split; [done|]. split; [done|].
    unfold connects in *. rewrite <- port_addr_candidate by done.
    split; [done|]. split.
    + intros q Hq. rewrite <- port_addr_candidate by lia. by apply H4.
    + rewrite <- dials_attempts by lia. done.
  - right. split.
    + intros q Hq. rewrite <- port_addr_candidate by lia. by apply Hall.
    + exists st'. split; [done|]. rewrite <- dials_attempts by lia. done.
Qed.

(** ** The health check *)

Lemma in_time_late a :
  (ClientTimeout health_client <? Z.of_N (latency a)) = negb (in_time a).
Proof.
  unfold in_time. simpl.
  destruct (Z.ltb_spec MAX_HEALTH_CHECK_TIME (Z.of_N (latency a)));
    destruct (Z.leb_spec (Z.of_N (latency a)) MAX_HEALTH_CHECK_TIME); simpl; lia.
Qed.

(** One iteration of the loop, by what the GET returns. *)
Lemma poll_S f url e w st :
  poll (S f) url e w st =
  let st1 := polled w url st in
  match get_result url (attempt w url st) with
  | (Some status, None) =>
      if status =? 200 then Done None (logged "ok" st1)
      else Done (Some (bad_status_error status))
             (logged ("bad: " +:+ Itoa status) st1)
  | (None, None) => Panic "nil pointer dereference" st1
  | (_, Some _) =>
      if e <? now st1 then Done (Some timeout_error) st1
      else poll f url e w (slept st1)
  end.
Proof.
  cbn [poll]. unfold bind at 1. unfold log_Print at 1, emit at 1.
  unfold bind at 1. unfold client_Get. cbn [gets trace config files procs now].
  unfold polled, get_result, took, attempt.
  rewrite in_time_late.
  change (ClientTimeout health_client) with MAX_HEALTH_CHECK_TIME.
  destruct (in_time (http w url (gets st))); cbn [negb].
  - destruct (deliver health_client url (exchange (http w url (gets st))))
      as [[status|] [err|]]; cbn [now];
      first [ destruct (status =? 200); reflexivity
            | unfold bind at 1; unfold time_Now; cbn [now];
              match goal with |- context [e <? ?t] => destruct (e <? t) end;
              reflexivity
            | reflexivity ].
  - unfold bind at 1; unfold time_Now; cbn [now].
    match goal with |- context [e <? ?t] => destruct (e <? t) end; reflexivity.
Qed.

Lemma deliver_health_client url x :
  deliver health_client url x =
  match x with
  | NoResponse => (None, Some (URLError "Get" url (OpError "dial" url)))
  | Response status => (Some status, None)
  | Redirect status location _ =>
      (Some status,
       Some (URLError "Get" location
               (errorString "health check should not redirect")))
  end.
Proof. destruct x; reflexivity. Qed.

Lemma get_result_failed url a :
  failed a = true → ∃ r e, get_result url a = (r, Some e).
Proof.
  unfold failed, get_result. destruct (in_time a); cbn [negb orb]; [|eauto].
  rewrite deliver_health_client. destruct (exchange a); [eauto|done|eauto].
Qed.

Lemma poll_failed f url e w st :
  failed (attempt w url st) = true →
  poll (S f) url e w st =
  if e <? now (polled w url st) then Done (Some timeout_error) (polled w url st)
  else poll f url e w (slept (polled w url st)).
Proof.
  intros Hf. rewrite poll_S. cbv zeta.
  destruct (get_result_failed url _ Hf) as (r & err & ->).
  destruct r; reflexivity.
Qed.

Lemma poll_response f url e w st status :
  in_time (attempt w url st) = true →
  exchange (attempt w url st) = Response status →
  poll (S f) url e w st =
  if status =? 200 then Done None (logged "ok" (polled w url st))
  else Done (Some (bad_status_error status))
         (logged ("bad: " +:+ Itoa status) (polled w url st)).
Proof.
  intros Ht Hx. rewrite poll_S. cbv zeta. unfold get_result.
  rewrite Ht, Hx. reflexivity.
Qed.

Lemma took_nonneg a : 0 ≤ took a.
Proof. unfold took, MAX_HEALTH_CHECK_TIME, second. destruct (in_time a); lia. Qed.

Lemma get_result_not_nil url a : get_result url a ≠ (None, None).
Proof.
  unfold get_result. destruct (in_time a); [|done].
  rewrite deliver_health_client. by destruct (exchange a).
Qed.

(** The loop leaves before the fuel is used up: every iteration that goes
    round again has slept one interval, and none goes round again once the
    deadline is behind. *)
Lemma poll_fuel_enough f url e w st :
  e - now st < Z.of_nat f * STARTUP_HEALTH_CHECK_INTERVAL →
  ∃ r st', poll (S f) url e w st = Done r st'.
Proof.
  revert st. induction f as [|f IH]; intros st Hf; rewrite poll_S; cbv zeta;
    pose proof (took_nonneg (attempt w url st)) as Htook;
    pose proof (get_result_not_nil url (attempt w url st)) as Hnil;
    destruct (get_result url (attempt w url st)) as [[status|] [err|]];
    try done; try (destruct (status =? 200); eauto; fail).
  all: destruct (Z.ltb_spec e (now (polled w url st))) as [Hlt|Hge]; eauto.
  all: try (exfalso; cbn [polled now] in Hge; lia).
  all: apply IH; cbn [slept polled now]; lia.
Qed.

(** More fuel does not change what the loop returns. *)
Lemma poll_fuel_mono f url e w st r st' :
  poll f url e w st = Done r st' → ∀ k, poll (f + k) url e w st = Done r st'.
Proof.
  revert st. induction f as [|f IH]; intros st Hrun k; [done|].
  change (S f + k)%nat with (S (f + k)). rewrite poll_S in Hrun |- *.
  cbv zeta in *.
  destruct (get_result url (attempt w url st)) as [[status|] [err|]]; try done.
  all: destruct (e <? now (polled w url st)); [done|]; by apply IH.
Qed.

Lemma waitForAppToStart_poll port app w st :
  waitForAppToStart port app w st =
  poll max_polls (health_url port app) (now st + MAX_STARTUP_TIME) w st.
Proof. reflexivity. Qed.

Lemma waitForAppToStart_returns port app w st :
  ∃ r st', waitForAppToStart port app w st = Done r st'.
Proof.
  rewrite waitForAppToStart_poll. apply (poll_fuel_enough 11).
  unfold MAX_STARTUP_TIME, STARTUP_HEALTH_CHECK_INTERVAL, second, millisecond.
  lia.
Qed.

(** C2 as stated does not hold: a poll that is answered with a redirect does
    not end the check.  Here the first GET is redirected and answered in
    time, the checker sleeps one interval, polls again, gets 200 and returns
    no error at all. *)
Lemma redirect_then_healthy :
  let url := health_url 8050 example_app in
  exchange (attempt redirecting_world url fresh) = Redirect 302 "/login" (Response 200)
  ∧ in_time (attempt redirecting_world url fresh) = true
  ∧ waitForAppToStart 8050 example_app redirecting_world fresh
    = Done None
        {| config := empty_Config; files := ∅; procs := [];
           now := 102000000; gets := 2;
           trace := [EvLog "."; EvGet url; EvSleep 100000000;
                     EvLog "."; EvGet url; EvLog "ok"] |}.
Proof. vm_compute. done. Qed.

(** The check ends with no error, with the timeout error or with a
    bad-status error; no other error comes out of it. *)
Lemma poll_errors f url e w st err st' :
  poll f url e w st = Done (Some err) st' →
  err = timeout_error ∨ ∃ status, err = bad_status_error status.
Proof.
  revert st. induction f as [|f IH]; intros st Hrun; [done|].
  rewrite poll_S in Hrun. cbv zeta in Hrun.
  destruct (get_result url (attempt w url st)) as [[status|] [x|]]; try done.
  - destruct (e <? now (polled w url st)); [|by eapply IH].
    injection Hrun as <- _. by left.
  - destruct (status =? 200); [done|]. injection Hrun as <- _. right. eauto.
  - destruct (e <? now (polled w url st)); [|by eapply IH].
    injection Hrun as <- _. by left.
Qed.

(** C2, amended. A poll that is answered with a redirect makes [client.Get]
    return an error (the redirect policy refuses), and the loop treats it
    like every other failed request: when the deadline is behind, it returns
    "Failed to connect to app after timeout"; otherwise it sleeps the poll
    interval and polls again.  No error of the check names a redirect: the
    check fails with the timeout error or with a bad status. *)
Theorem redirect_is_retried port app f e w st status location next :
  let url := health_url port app in
  exchange (attempt w url st) = Redirect status location next →
  poll (S f) url e w st
  = (if e <? now (polled w url st)
     then Done (Some timeout_error) (polled w url st)
     else poll f url e w (slept (polled w url st)))
  ∧ ∀ err st', waitForAppToStart port app w st = Done (Some err) st' →
               err = timeout_error ∨ ∃ code, err = bad_status_error code.
Proof.
  intros url Hx. split.
  - apply poll_failed. unfold failed. rewrite Hx. apply orb_true_r.
  - intros err st'. rewrite waitForAppToStart_poll. apply poll_errors.
Qed.

Lemma redirect_is_retried_witness :
  let url := health_url 8050 example_app in
  exchange (attempt redirecting_world url fresh) = Redirect 302 "/login" (Response 200)
  ∧ poll 12 url 1000000000 redirecting_world fresh
    = poll 11 url 1000000000 redirecting_world
        (slept (polled redirecting_world url fresh)).
Proof.
  split; [reflexivity|].
  destruct (redirect_is_retried 8050 example_app 11 1000000000
              redirecting_world fresh 302 "/login" (Response 200))
    as [Hstep _]; [reflexivity|].
  exact Hstep.
Defined.



(** C4. A poll that completes with status 200 ends the check with no error,
    at the first iteration as at any other.  A poll that does not complete
    is followed, while the deadline is not behind, by a sleep of the poll
    interval and another iteration; once the deadline is behind, it ends the
    check with "Failed to connect to app after timeout".  The check always
    returns. *)
Theorem health_check_polling port app w st :
  let url := health_url port app in
  (in_time (attempt w url st) = true →
   exchange (attempt w url st) = Response 200 →
   (∀ f e, poll (S f) url e w st = Done None (logged "ok" (polled w url st)))
   ∧ waitForAppToStart port app w st = Done None (logged "ok" (polled w url st)))
  ∧ (failed (attempt w url st) = true →
     ∀ f e,
       (now (polled w url st) ≤ e →
        poll (S f) url e w st = poll f url e w (slept (polled w url st))
        ∧ now (slept (polled w url st))
          = now (polled w url st) + STARTUP_HEALTH_CHECK_INTERVAL)
       ∧ (e < now (polled w url st) →
          poll (S f) url e w st = Done (Some timeout_error) (polled w url st)))
  ∧ ∃ r st', waitForAppToStart port app w st = Done r st'.
Proof.
  intros url. split; [|split].
  - intros Ht Hx.
    assert (Hstep : ∀ f e, poll (S f) url e w st
                           = Done None (logged "ok" (polled w url st))).
    { intros f e. by rewrite (poll_response f url e w st 200 Ht Hx). }
    split; [exact Hstep|].
    rewrite waitForAppToStart_poll. fold url. change max_polls with (S 11).
    apply Hstep.
  - intros Hf f e. rewrite (poll_failed f url e w st Hf). split.
    + intros Hle. destruct (Z.ltb_spec e (now (polled w url st))); [lia|done].
    + intros Hlt. destruct (Z.ltb_spec e (now (polled w url st))); [done|lia].
  - apply waitForAppToStart_returns.
Qed.

Lemma health_check_polling_witness :
  let url := health_url 8050 example_app in
  in_time (attempt healthy_world url fresh) = true
  ∧ exchange (attempt healthy_world url fresh) = Response 200
  ∧ waitForAppToStart 8050 example_app healthy_world fresh
    = Done None (logged "ok" (polled healthy_world url fresh)).
Proof.
  split; [reflexivity|]. split; [reflexivity|].
  destruct (health_check_polling 8050 example_app healthy_world fresh)
    as [Hok _].
  destruct Hok as [_ Hrun]; [reflexivity|reflexivity|]. exact Hrun.
Defined.

(** When no poll is ever answered, the check gives up after the deadline:
    eleven polls, one second and eleven milliseconds. *)
Example silent_app_times_out :
  ∃ st', waitForAppToStart 8050 example_app silent_world fresh
         = Done (Some timeout_error) st'
         ∧ gets st' = 11%nat ∧ now st' = 1011000000.
Proof. eexists. vm_compute. done. Qed.

(** ** [Run], step by step *)

Lemma ioutil_WriteFile_outcome path data w st :
  ioutil_WriteFile path data w st
  = Done (write_outcome w path data st).1 (write_outcome w path data st).2.
Proof.
  unfold ioutil_WriteFile, write_outcome, bind, ask.
  destruct (write_fault w path) as [[e|n e]|]; reflexivity.
Qed.

Lemma Run_unfold s deployId w st :
  Run s deployId w st =
  match findUnusedPort s w st with
  | Done (_, Some e) st1 => Done (Some e) st1
  | Done (port, None) st1 =>
      let st2 := logged (found_line port) st1 in
      match manifest w (manifest_path s deployId) with
      | inr e => Done (Some e) st2
      | inl app =>
          match Ports (config st2) with
          | None => Panic "assignment to entry in nil map" st2
          | Some m =>
              let st3 := with_ports (<[port := deployId]> m) st2 in
              let st4 := announced s deployId app port w st3 in
              let cmd := run_cmd s deployId app port in
              match start_fault w cmd with
              | Some e => Done (Some e) (recorded (EvStart cmd false) st4)
              | None => waitForAppToStart port app w (launched cmd st4)
              end
          end
      end
  | Panic msg st1 => Panic msg st1
  | Diverge => Diverge
  end.
Proof.
  unfold Run. unfold bind at 1.
  destruct (findUnusedPort s w st) as [[port [e|]] st1|msg st1|];
    try reflexivity.
  unfold bind at 1. unfold log_Println at 1, emit at 1.
  unfold bind at 1. unfold ApplicationFromConfig at 1, bind at 1, ask, ret.
  fold (deploy_dir s deployId). fold (manifest_path s deployId).
  fold (found_line port). cbv zeta.
  destruct (manifest w (manifest_path s deployId)) as [app|e]; [|reflexivity].
  unfold bind at 1. unfold assign_port at 1. cbn [config Ports logged].
  destruct (Ports (config st1)) as [m|]; [|reflexivity].
  unfold bind at 1. unfold writeConfig at 1, bind at 1, get_state.
  rewrite ioutil_WriteFile_outcome.
  unfold bind at 1. unfold println at 1, emit at 1.
  unfold bind at 1. unfold println at 1, emit at 1.
  unfold bind at 1. unfold cmd_Start at 1.
  fold (run_cmd s deployId app port).
  destruct (start_fault w (run_cmd s deployId app port)); reflexivity.
Qed.

Lemma log_lines_app tr tr' : log_lines (tr ++ tr') = log_lines tr ++ log_lines tr'.
Proof.
  induction tr as [|[] tr IH]; cbn [log_lines app]; rewrite ?IH; reflexivity.
Qed.

Lemma starts_app tr tr' : starts (tr ++ tr') = starts tr ++ starts tr'.
Proof.
  induction tr as [|[] tr IH]; cbn [starts app]; rewrite ?IH; reflexivity.
Qed.

Lemma alike_refl st : alike st st.
Proof. by repeat split. Qed.

Lemma alike_recorded e st st' :
  alike st st' → alike (recorded e st) (recorded e st').
Proof.
  intros (Hc & Hp & Hn & Hg & Hl & Hs). repeat split; cbn; try done.
  - by rewrite !log_lines_app, Hl.
  - by rewrite !starts_app, Hs.
Qed.

Lemma alike_logged line st st' :
  alike st st' → alike (logged line st) (logged line st').
Proof. apply (alike_recorded (EvLog line)). Qed.

Lemma alike_polled w w' url st st' :
  http w' = http w → alike st st' → alike (polled w url st) (polled w' url st').
Proof.
  intros Hw (Hc & Hp & Hn & Hg & Hl & Hs). unfold polled, attempt.
  rewrite Hw, Hg, Hn. repeat split; cbn; try done.
  - by rewrite !log_lines_app, Hl.
  - by rewrite !starts_app, Hs.
Qed.

Lemma alike_slept st st' : alike st st' → alike (slept st) (slept st').
Proof.
  intros (Hc & Hp & Hn & Hg & Hl & Hs). repeat split; cbn; try done.
  - by rewrite Hn.
  - by rewrite !log_lines_app, Hl.
  - by rewrite !starts_app, Hs.
Qed.

(** The loop does not look at the files, and reads the world only through
    [http]. *)
Lemma poll_alike f url e w w' st st' :
  http w' = http w → alike st st' →
  same_run (poll f url e w st) (poll f url e w' st').
Proof.
  intros Hw. revert st st'. induction f as [|f IH]; intros st st' Hst; [done|].
  rewrite !poll_S. cbv zeta.
  pose proof (alike_polled w w' url st st' Hw Hst) as Hp.
  assert (Ha : attempt w' url st' = attempt w url st).
  { unfold attempt. destruct Hst as (_ & _ & _ & -> & _). by rewrite Hw. }
  rewrite Ha.
  destruct (get_result url (attempt w url st)) as [[status|] [err|]].
  - assert (Hn : now (polled w url st) = now (polled w' url st'))
      by (destruct Hp as (_ & _ & Hn & _); exact Hn).
    rewrite <- Hn. destruct (e <? now (polled w url st)); [done|].
    apply IH. by apply alike_slept.
  - destruct (status =? 200); split; try done; by apply alike_logged.
  - assert (Hn : now (polled w url st) = now (polled w' url st'))
      by (destruct Hp as (_ & _ & Hn & _); exact Hn).
    rewrite <- Hn. destruct (e <? now (polled w url st)); [done|].
    apply IH. by apply alike_slept.
  - done.
Qed.

(** The loop leaves the registry, the files and the processes alone, and
    only adds to the trace. *)
Lemma poll_frame f url e w st r st' :
  poll f url e w st = Done r st' →
  config st' = config st ∧ files st' = files st ∧ procs st' = procs st
  ∧ ∃ tail, trace st' = trace st ++ tail.
Proof.
  revert st. induction f as [|f IH]; intros st Hrun; [done|].
  rewrite poll_S in Hrun. cbv zeta in Hrun.
  assert (Hstep : poll f url e w (slept (polled w url st)) = Done r st' →
            config st' = config st ∧ files st' = files st ∧ procs st' = procs st
            ∧ ∃ tail, trace st' = trace st ++ tail).
  { intros H2. destruct (IH _ H2) as (Hc & Hf & Hp & tail & Ht).
    rewrite Hc, Hf, Hp, Ht. repeat split. cbn. eexists.
    rewrite <- !app_assoc. reflexivity. }
  destruct (get_result url (attempt w url st)) as [[status|] [err|]].
  - destruct (e <? now (polled w url st)); [|by apply Hstep].
    injection Hrun as <- <-. repeat split. cbn. eexists.
    rewrite <- !app_assoc. reflexivity.
  - destruct (status =? 200); injection Hrun as <- <-; repeat split; cbn;
      eexists; rewrite <- !app_assoc; reflexivity.
  - destruct (e <? now (polled w url st)); [|by apply Hstep].
    injection Hrun as <- <-. repeat split. cbn. eexists.
    rewrite <- !app_assoc. reflexivity.
  - done.
Qed.

Lemma scan_ports_dial n i w w' st :
  dial w' = dial w → scan_ports n i w' st = scan_ports n i w st.
Proof.
  intros Hd. revert i st. induction n as [|n IH]; intros i st; [reflexivity|].
  cbn [scan_ports]. unfold bind, net_Dial, bind, ask, emit, ret.
  rewrite Hd. destruct (dial w (port_addr i)); [apply IH|reflexivity].
Qed.

Lemma findUnusedPort_found s w st p st1 :
  findUnusedPort s w st = Done (p, None) st1 →
  8001 ≤ p < 8100 ∧ connects w p = false ∧ same_but_trace st st1.
Proof.
  intros Hrun.
  destruct (findUnusedPort_cases s w st) as
    [(p' & st' & H1 & H2 & H3 & _ & _ & H6)|(_ & st' & H1 & _)];
    rewrite H1 in Hrun; [|done].
  injection Hrun as <- <-. done.
Qed.

(** C6. When every candidate port connects, [Run] returns "Could not find
    free port"; when a port is found but the manifest does not resolve, it
    returns the manifest's error.  Either way the registry in memory, the
    files and the processes are as they were before the call. *)
Theorem run_aborts_without_side_effects s deployId w st :
  ((∀ q, 8001 ≤ q < 8100 → connects w q = true) →
   ∃ st', Run s deployId w st
          = Done (Some (errorString "Could not find free port")) st'
          ∧ config st' = config st ∧ files st' = files st
          ∧ procs st' = procs st ∧ starts (trace st') = starts (trace st))
  ∧ (∀ e, (∃ q, 8001 ≤ q < 8100 ∧ connects w q = false) →
          manifest w (manifest_path s deployId) = inr e →
          ∃ st', Run s deployId w st = Done (Some e) st'
                 ∧ config st' = config st ∧ files st' = files st
                 ∧ procs st' = procs st ∧ starts (trace st') = starts (trace st)).
Proof.
  assert (Hd : ∀ i n, starts (dials w i n) = []).
  { intros i n. unfold dials. induction (seqZ i (Z.of_nat n)); done. }
  split.
  - intros Hall. rewrite Run_unfold.
    destruct (findUnusedPort_cases s w st) as
      [(p & st' & _ & Hp & Hfree & _)|(_ & st' & -> & Htr & Hc & Hf & Hp & _)].
    + rewrite Hall in Hfree by done. done.
    + exists st'. rewrite Htr, starts_app, Hd, app_nil_r. done.
  - intros e (q & Hq & Hfree) Hm. rewrite Run_unfold.
    destruct (findUnusedPort_cases s w st) as
      [(p & st' & -> & _ & _ & _ & Htr & Hc & Hf & Hp & _)|(Hall & _)].
    + cbv zeta. rewrite Hm. eexists. split; [reflexivity|].
      cbn [logged config files procs trace].
      rewrite starts_app, Htr, starts_app, Hd, !app_nil_r. done.
    + rewrite Hall in Hfree by done. done.
Qed.

Lemma run_aborts_without_side_effects_witness :
  let w := with_manifest (λ _, inr (ManifestError "no deploy.json")) healthy_world in
  (∃ q, 8001 ≤ q < 8100 ∧ connects w q = false)
  ∧ manifest w (manifest_path example_server "dX")
    = inr (ManifestError "no deploy.json")
  ∧ ∃ st', Run example_server "dX" w fresh
           = Done (Some (ManifestError "no deploy.json")) st'
           ∧ config st' = config fresh ∧ files st' = files fresh
           ∧ procs st' = procs fresh.
Proof.
  intros w.
  assert (Hfree : ∃ q, 8001 ≤ q < 8100 ∧ connects w q = false).
  { exists 8001. split; [lia|reflexivity]. }
  split; [exact Hfree|]. split; [reflexivity|].
  destruct (run_aborts_without_side_effects example_server "dX" w fresh)
    as [_ Hm].
  destruct (Hm (ManifestError "no deploy.json") Hfree eq_refl)
    as (st' & Hrun & Hc & Hf & Hp & _).
  exists st'. done.
Defined.

(** C1 as stated does not hold: the write of the registry can fail, and
    [Run] goes on.  Here the config file cannot be opened for writing; the
    port is allocated, the manifest resolves, the process is started and
    found healthy, [Run] returns no error, and no file holds the
    assignment. *)
Lemma launched_without_persisting :
  (∃ st1, findUnusedPort example_server readonly_world fresh = Done (8001, None) st1)
  ∧ manifest readonly_world (manifest_path example_server "dX") = inl example_app
  ∧ ∃ st', Run example_server "dX" readonly_world fresh = Done None st'
           ∧ procs st' = [run_cmd example_server "dX" example_app 8001]
           ∧ files st' !! config_path example_server = None.
Proof.
  split; [eexists; vm_compute; reflexivity|]. split; [reflexivity|].
  eexists. split; [vm_compute; reflexivity|]. split; reflexivity.
Qed.

(** C1, amended. When a port is found and the manifest resolves, [Run]
    records the port for the deploy in the registry in memory and writes the
    whole registry to the config file before it starts the process.  Whatever
    [Run] then returns (the start may fail, the health check may fail), the
    assignment stays in the registry in memory, and the file, when the write
    succeeded, still holds the registry with the assignment. *)
Theorem port_recorded_before_launch s deployId w st m port st1 app :
  Ports (config st) = Some m →
  findUnusedPort s w st = Done (port, None) st1 →
  manifest w (manifest_path s deployId) = inl app →
  let registry := {| Ports := Some (<[port := deployId]> m);
                     Labels := Labels (config st) |} in
  let data := ConfigJSON.Marshal registry in
  let cmd := run_cmd s deployId app port in
  ∃ r st' written tail,
    Run s deployId w st = Done r st'
    ∧ config st' = registry
    ∧ trace st' = trace st1
                  ++ [EvLog (found_line port);
                      EvWriteFile (config_path s) data written;
                      EvPrintln (deploy_dir s deployId);
                      EvPrintln (RunCmd app port);
                      EvStart cmd match start_fault w cmd with
                                  | Some _ => false
                                  | None => true
                                  end]
                  ++ tail
    ∧ (start_fault w cmd ≠ None → r = start_fault w cmd)
    ∧ (write_fault w (config_path s) = None →
       written = true ∧ files st' !! config_path s = Some data).
Proof.
  intros Hm Hport Happ registry data cmd.
  destruct (findUnusedPort_found s w st port st1 Hport)
    as (_ & _ & Hc & Hf & _).
  rewrite Run_unfold, Hport. cbv zeta. rewrite Happ.
  cbn [logged config]. rewrite Hc, Hm.
  fold cmd.
  set (st3 := with_ports (<[port:=deployId]> m) (logged (found_line port) st1)).
  assert (Hreg : config st3 = registry).
  { unfold st3, registry. cbn. by rewrite Hc. }
  set (out := write_outcome w (config_path s) (ConfigJSON.Marshal (config st3)) st3).
  assert (Hout : ∃ written,
             config out.2 = registry
             ∧ trace out.2 = trace st1 ++ [EvLog (found_line port);
                                           EvWriteFile (config_path s) data written]
             ∧ (write_fault w (config_path s) = None →
                written = true ∧ files out.2 !! config_path s = Some data)).
  { unfold out, write_outcome. rewrite Hreg. fold data.
    destruct (write_fault w (config_path s)) as [[e|n e]|].
    - exists false. cbn. rewrite <- app_assoc. done.
    - exists false. cbn. rewrite <- app_assoc. done.
    - exists true. cbn. rewrite <- app_assoc. split; [done|]. split; [done|].
      intros _. split; [done|]. apply lookup_insert_eq. }
  destruct Hout as (written & Hcfg & Htr & Hfile).
  assert (Hann : announced s deployId app port w st3
                 = recorded (EvPrintln (RunCmd app port))
                     (recorded (EvPrintln (deploy_dir s deployId)) out.2))
    by reflexivity.
  rewrite Hann.
  destruct (start_fault w cmd) as [e|] eqn:Hstart.
  - exists (Some e). eexists. exists written, []. split; [reflexivity|].
    cbn [recorded config trace files]. rewrite Htr, <- !app_assoc.
    split; [done|]. split; [done|]. split; [done|]. exact Hfile.
  - destruct (waitForAppToStart_returns port app w
                (launched cmd
                   (recorded (EvPrintln (RunCmd app port))
                      (recorded (EvPrintln (deploy_dir s deployId)) out.2))))
      as (r & st' & Hrun).
    rewrite Hrun. rewrite waitForAppToStart_poll in Hrun.
    apply poll_frame in Hrun as (Hc' & Hf' & _ & tail & Htail).
    exists r, st', written, tail. split; [done|].
    rewrite Hc', Hf', Htail. cbn [launched recorded config trace files].
    rewrite Htr, <- !app_assoc. split; [done|]. split; [done|].
    split; [done|]. exact Hfile.
Qed.

Lemma port_recorded_before_launch_witness :
  let w := with_start_fault (λ _, Some (ExecError "sh")) healthy_world in
  Ports (config fresh) = Some ∅
  ∧ manifest w (manifest_path example_server "dX") = inl example_app
  ∧ ∃ st1, findUnusedPort example_server w fresh = Done (8001, None) st1
  ∧ ∃ st', Run example_server "dX" w fresh = Done (Some (ExecError "sh")) st'
           ∧ Ports (config st') = Some (<[8001 := "dX"]> ∅).
Proof.
  intros w. split; [reflexivity|]. split; [reflexivity|].
  eexists. split; [vm_compute; reflexivity|].
  edestruct (port_recorded_before_launch example_server "dX" w fresh ∅ 8001)
    as (r & st' & written & tail & Hrun & Hcfg & _ & Hr & _);
    [reflexivity|vm_compute; reflexivity|reflexivity|].
  exists st'. rewrite Hrun, Hcfg. split; [|reflexivity].
  rewrite Hr; [reflexivity|discriminate].
Defined.

(** C8 as stated does not hold: a failed write of the registry is not
    logged.  Here the config file cannot be opened for writing; the trace
    shows the failed write, [Run] returns no error, and the lines written by
    [log] and [println] are the same as when the write succeeds. *)
Lemma persist_failure_not_logged :
  ∃ st' st'',
    Run example_server "dX" readonly_world fresh = Done None st'
    ∧ EvWriteFile "/srv/camus/config.json"
        (ConfigJSON.Marshal {| Ports := Some (<[8001 := "dX"]> ∅);
                               Labels := Some ∅ |}) false ∈ trace st'
    ∧ log_lines (trace st')
      = ["Found port  8001"; "/srv/camus/deploys/dX"; "myapp --port=8001";
         "."; "ok"]
    ∧ Run example_server "dX" healthy_world fresh = Done None st''
    ∧ log_lines (trace st'') = log_lines (trace st').
Proof.
  eexists. eexists. split; [vm_compute; reflexivity|].
  split; [|split; [reflexivity|split; [vm_compute; reflexivity|reflexivity]]].
  cbn [trace]. apply list_elem_of_In. vm_compute. tauto.
Qed.

(** C8, amended. A failed write of the registry is dropped: it is neither
    returned nor logged.  Whether and how the write fails, [Run] returns the
    same result, logs the same lines, starts the same command and makes the
    same requests; only the files differ. *)
Theorem persist_failure_is_dropped s deployId w st f :
  same_run (Run s deployId w st) (Run s deployId (with_write_fault f w) st).
Proof.
  rewrite !Run_unfold.
  assert (Hscan : findUnusedPort s (with_write_fault f w) st = findUnusedPort s w st)
    by (apply scan_ports_dial; reflexivity).
  rewrite Hscan.
  destruct (findUnusedPort s w st) as [[port [e|]] st1|msg st1|];
    [split; [done|apply alike_refl]| |split; [done|apply alike_refl]|done].
  cbv zeta. cbn [manifest with_write_fault].
  destruct (manifest w (manifest_path s deployId)) as [app|e];
    [|split; [done|apply alike_refl]].
  cbn [logged config].
  destruct (Ports (config st1)) as [m|]; [|split; [done|apply alike_refl]].
  change (start_fault (with_write_fault f w)) with (start_fault w).
  set (st3 := with_ports (<[port:=deployId]> m) (logged (found_line port) st1)).
  assert (Hann : alike (announced s deployId app port w st3)
                   (announced s deployId app port (with_write_fault f w) st3)).
  { unfold announced. do 2 apply alike_recorded.
    unfold write_outcome. cbn [write_fault with_write_fault].
    destruct (write_fault w (config_path s)) as [[e|n e]|];
      destruct (f (config_path s)) as [[e'|n' e']|];
      repeat split; cbn; rewrite ?log_lines_app, ?starts_app; done. }
  destruct (start_fault w (run_cmd s deployId app port)) as [e|].
  - split; [done|]. by apply alike_recorded.
  - rewrite !waitForAppToStart_poll.
    assert (Hl : alike (launched (run_cmd s deployId app port)
                          (announced s deployId app port w st3))
                   (launched (run_cmd s deployId app port)
                      (announced s deployId app port (with_write_fault f w) st3))).
    { destruct Hann as (Hc & Hp & Hn & Hg & Hl & Hs).
      repeat split; cbn [launched config procs now gets trace]; try done.
      - by rewrite Hp.
      - by rewrite !log_lines_app, Hl.
      - by rewrite !starts_app, Hs. }
    destruct Hl as (Hc & Hp & Hn & Hg & Hl & Hs).
    rewrite <- Hn. apply poll_alike; [reflexivity|done].
Qed.

(** ** The registry store *)

(** C10. [readConfig] returns a registry with two empty maps and no error
    whenever the file cannot be read, whatever the reason (a missing file, a
    permission error, ...).  It returns an error exactly when the file is
    read and [json.Unmarshal] refuses its contents; otherwise it returns a
    registry whose maps are allocated. *)
Theorem readConfig_read_failure path w st :
  (∀ e, ioutil_ReadFile path w st = Done (inr e) st →
        readConfig path w st = Done (Some empty_Config, None) st)
  ∧ (∀ e, read_fault w path = Some e →
          readConfig path w st = Done (Some empty_Config, None) st)
  ∧ (files st !! path = None →
     readConfig path w st = Done (Some empty_Config, None) st)
  ∧ (∀ err, readConfig path w st = Done (None, Some err) st
            ↔ ∃ data je, ioutil_ReadFile path w st = Done (inl data) st
                         ∧ ConfigJSON.Unmarshal data = inr je
                         ∧ err = JSONError je)
  ∧ (∃ r, readConfig path w st = Done r st
          ∧ ((∃ err, r = (None, Some err))
             ∨ ∃ ports labels,
                 r = (Some {| Ports := Some ports; Labels := Some labels |}, None))).
Proof.
  assert (Hread : ∃ r, ioutil_ReadFile path w st = Done r st).
  { unfold ioutil_ReadFile. destruct (read_fault w path); [eauto|].
    destruct (files st !! path); eauto. }
  assert (Hfail : ∀ e, ioutil_ReadFile path w st = Done (inr e) st →
                       readConfig path w st = Done (Some empty_Config, None) st).
  { intros e He. unfold readConfig, bind. rewrite He. reflexivity. }
  split; [exact Hfail|]. split; [|split; [|split]].
  - intros e He. apply (Hfail (PathError "open" path e)).
    unfold ioutil_ReadFile. by rewrite He.
  - intros Hnone. destruct (read_fault w path) as [e|] eqn:He.
    + apply (Hfail (PathError "open" path e)).
      unfold ioutil_ReadFile. by rewrite He.
    + apply (Hfail (PathError "open" path ENOENT)).
      unfold ioutil_ReadFile. by rewrite He, Hnone.
  - intros err. destruct Hread as ([data|e] & Hr); unfold readConfig, bind;
      rewrite Hr.
    + destruct (ConfigJSON.Unmarshal data) as [c|je] eqn:Hu; unfold ret; split.
      * intros [=].
      * intros (data' & je' & [= <-] & Hu' & _). congruence.
      * intros [= <-]. eauto.
      * intros (data' & je' & [= <-] & Hu' & ->). congruence.
    + unfold ret. split; [intros [=]|]. intros (data & je & [=] & _).
  - destruct Hread as ([data|e] & Hr); unfold readConfig, bind; rewrite Hr.
    + destruct (ConfigJSON.Unmarshal data) as [c|je]; unfold ret.
      * eexists. split; [reflexivity|]. right.
        destruct c as [[p|] [l|]]; cbn; eauto.
      * eexists. split; [reflexivity|]. left. eauto.
    + eexists. split; [reflexivity|]. right. cbn. eauto.
Qed.

Lemma readConfig_read_failure_witness :
  let w := with_read_fault (λ _, Some EACCES) healthy_world in
  let st := with_file "/srv/camus/config.json" "not json" fresh in
  read_fault w "/srv/camus/config.json" = Some EACCES
  ∧ readConfig "/srv/camus/config.json" w st = Done (Some empty_Config, None) st.
Proof.
  intros w st. split; [reflexivity|].
  destruct (readConfig_read_failure "/srv/camus/config.json" w st)
    as (_ & Hfault & _).
  apply (Hfault EACCES). reflexivity.
Defined.

Example readConfig_malformed :
  readConfig "/srv/camus/config.json" healthy_world
    (with_file "/srv/camus/config.json" "not json" fresh)
  = Done (None, Some (JSONError ConfigJSON.SyntaxError))
      (with_file "/srv/camus/config.json" "not json" fresh).
Proof. vm_compute. reflexivity. Qed.

(** ** Deploy ids *)

Lemma matches_pattern_app p1 s1 p2 s2 :
  matches_pattern p1 s1 = true → matches_pattern p2 s2 = true →
  matches_pattern (p1 +:+ p2) (s1 +:+ s2) = true.
Proof.
  revert s1. induction p1 as [|p p1 IH]; intros [|c s1] H1 H2; try done.
  cbn [matches_pattern] in H1. apply andb_true_iff in H1 as [Hc H1].
  change (matches_pattern (String p (p1 +:+ p2)) (String c (s1 +:+ s2)) = true).
  cbn [matches_pattern]. rewrite Hc. cbn [andb]. by apply IH.
Qed.

Lemma year_four_digits y :
  1000 ≤ y ≤ 9999 → matches_pattern "dddd" (Itoa y) = true.
Proof.
  intros Hy.
  apply (forallb_seqZ (λ y, matches_pattern "dddd" (Itoa y)) 1000 9000);
    [vm_compute; reflexivity|lia].
Qed.

Lemma field_two_digits z :
  0 ≤ z ≤ 59 → matches_pattern "-dd" ("-" +:+ fmt_02d z) = true.
Proof.
  intros Hz.
  apply (forallb_seqZ (λ z, matches_pattern "-dd" ("-" +:+ fmt_02d z)) 0 60);
    [vm_compute; reflexivity|lia].
Qed.

Lemma timestamp_matches t :
  clock_reading t → matches_pattern id_pattern (timestamp t) = true.
Proof.
  intros (Hy & Hm & Hd & Hh & Hmi & Hs).
  change id_pattern
    with ("dddd" +:+ ("-dd" +:+ ("-dd" +:+ ("-dd" +:+ ("-dd" +:+ "-dd"))))).
  change (timestamp t)
    with (Itoa (Year t) +:+ (("-" +:+ fmt_02d (Month t))
          +:+ (("-" +:+ fmt_02d (Day t))
          +:+ (("-" +:+ fmt_02d (Hour t))
          +:+ (("-" +:+ fmt_02d (Minute t))
          +:+ ("-" +:+ fmt_02d (Second t))))))).
  apply matches_pattern_app; [by apply year_four_digits|].
  repeat (apply matches_pattern_app; [apply field_two_digits; lia|]).
  apply field_two_digits; lia.
Qed.

(** [%d] prints a year of four digits as its decimal numeral, and [%02d]
    prints a field below 60 with two digits. *)
Lemma Itoa_year y : 1000 ≤ y ≤ 9999 → Itoa y = decimal y.
Proof.
  intros Hy.
  apply String.eqb_eq,
    (forallb_seqZ (λ y, String.eqb (Itoa y) (decimal y)) 1000 9000);
    [vm_compute; reflexivity|lia].
Qed.

Lemma fmt_02d_two_digits z : 0 ≤ z ≤ 59 → fmt_02d z = two_digits z.
Proof.
  intros Hz.
  apply String.eqb_eq,
    (forallb_seqZ (λ z, String.eqb (fmt_02d z) (two_digits z)) 0 60);
    [vm_compute; reflexivity|lia].
Qed.

Lemma timestamp_stamp_of t : clock_reading t → timestamp t = stamp_of t.
Proof.
  intros (Hy & Hm & Hd & Hh & Hmi & Hs). unfold timestamp, stamp_of.
  rewrite Itoa_year by done. by rewrite !fmt_02d_two_digits by lia.
Qed.

(** C9 as stated does not hold: the id does not always have the shape
    YYYY-MM-DD-HH-MM-SS.  The year is printed without padding, so in the
    year 10000 the id has five digits before the first dash. *)
Lemma id_of_five_digit_year :
  let w := with_calendar (λ _, year_10000) healthy_world in
  ∃ r, NewDeployDir example_server w fresh = Done r fresh
       ∧ DeployId r = "10000-01-01-00-00-00"
       ∧ matches_pattern id_pattern (DeployId r) = false.
Proof. intros w. eexists. split; [reflexivity|]. vm_compute. done. Qed.

(** C9. [NewDeployDir] takes the deploy id from the local time, down to the
    second.  The path is the root joined with "deploys" and the id, the
    state is left as it is, and two calls within the same second of the
    clock give the same id and path.  At a clock reading in a year of four
    digits the id is the year, the month, the day, the hour, the minute and
    the second of the reading, in this order, the year in full and the
    others with two digits, dashes in between: it has the shape
    YYYY-MM-DD-HH-MM-SS. *)
Theorem NewDeployDir_timestamp s w st :
  ∃ r, NewDeployDir s w st = Done r st
       ∧ Path_ r = Path.Join [root s; deployPath; DeployId r]
       ∧ (∀ w' st',
            same_second (calendar w (now st)) (calendar w' (now st')) →
            ∃ r', NewDeployDir s w' st' = Done r' st'
                  ∧ DeployId r' = DeployId r ∧ Path_ r' = Path_ r)
       ∧ (clock_reading (calendar w (now st)) →
          DeployId r = stamp_of (calendar w (now st))
          ∧ matches_pattern id_pattern (DeployId r) = true).
Proof.
  eexists. split; [reflexivity|]. cbn [DeployId Path_].
  split; [reflexivity|]. split.
  - intros w' st' (Hy & Hm & Hd & Hh & Hmi & Hs).
    eexists. split; [reflexivity|]. cbn [DeployId Path_].
    unfold timestamp. rewrite Hy, Hm, Hd, Hh, Hmi, Hs. done.
  - intros Ht. split; [by apply timestamp_stamp_of|by apply timestamp_matches].
Qed.

Lemma NewDeployDir_timestamp_witness :
  clock_reading (calendar healthy_world (now fresh))
  ∧ ∃ r, NewDeployDir example_server healthy_world fresh = Done r fresh
         ∧ DeployId r = "2020-01-02-03-04-05"
         ∧ Path_ r = "/srv/camus/deploys/2020-01-02-03-04-05".
Proof.
  assert (Ht : clock_reading (calendar healthy_world (now fresh))).
  { unfold clock_reading. cbn. lia. }
  split; [exact Ht|].
  destruct (NewDeployDir_timestamp example_server healthy_world fresh)
    as (r & Hrun & Hpath & _ & Hshape).
  destruct (Hshape Ht) as [Hid _].
  exists r. split; [exact Hrun|]. split.
  - rewrite Hid. vm_compute. reflexivity.
  - rewrite Hpath, Hid. vm_compute. reflexivity.
Defined.

(** ** Strings *)

Lemma sapp_cons c s t : String c s +:+ t = String c (s +:+ t).
Proof. reflexivity. Qed.

Lemma sapp_nil_l (s : string) : EmptyString +:+ s = s.
Proof. reflexivity. Qed.

Lemma sapp_nil_r (s : string) : s +:+ EmptyString = s.
Proof. induction s as [|c s IH]; [done|]. by rewrite sapp_cons, IH. Qed.

Lemma sapp_assoc (a b c : string) : (a +:+ b) +:+ c = a +:+ (b +:+ c).
Proof. induction a as [|x a IH]; [done|]. by rewrite !sapp_cons, IH. Qed.

Lemma sapp_length (a b : string) :
  String.length (a +:+ b) = (String.length a + String.length b)%nat.
Proof. induction a as [|x a IH]; [done|]. rewrite sapp_cons. cbn. by rewrite IH. Qed.

Lemma of_list_app l l' : of_list (l ++ l') = of_list l +:+ of_list l'.
Proof. induction l as [|c l IH]; [done|]. cbn. by rewrite IH. Qed.

Lemma code_range c : 0 ≤ code c < 256.
Proof.
  unfold code. pose proof (N_ascii_bounded c) as H. lia.
Qed.

Lemma chr_code c : chr (code c) = c.
Proof. unfold chr, code. rewrite N2Z.id. apply ascii_N_embedding. Qed.

Lemma code_chr z : 0 ≤ z < 256 → code (chr z) = z.
Proof.
  intros Hz. unfold chr, code. rewrite N_ascii_embedding by lia. lia.
Qed.

Lemma code_inj c c' : code c = code c' → c = c'.
Proof. intros H. rewrite <- (chr_code c), <- (chr_code c'). by rewrite H. Qed.

(** ** Decimal integers *)

Lemma digits_le_range f n :
  0 ≤ n → Forall (λ d, 0 ≤ d ≤ 9) (digits_le f n).
Proof.
  revert n. induction f as [|f IH]; intros n Hn; cbn [digits_le].
  - constructor; [|done]. pose proof (Z.mod_pos_bound n 10). lia.
  - destruct (Z.ltb_spec n 10).
    + constructor; [lia|done].
    + constructor; [pose proof (Z.mod_pos_bound n 10); lia|].
      apply IH. apply Z.div_pos; lia.
Qed.

Lemma digits_le_value f n :
  0 ≤ n < 10 * 2 ^ Z.of_nat f → digits_value (digits_le f n) = n.
Proof.
  revert n. induction f as [|f IH]; intros n Hn; cbn [digits_le].
  - cbn in *. rewrite Z.mod_small; lia.
  - destruct (Z.ltb_spec n 10); [cbn; lia|].
    cbn [digits_value fold_right]. fold (digits_value (digits_le f (n / 10))).
    rewrite IH.
    + pose proof (Z.div_mod n 10). lia.
    + rewrite Nat2Z.inj_succ, Z.pow_succ_r in Hn by lia.
      split; [apply Z.div_pos; lia|].
      apply Z.div_lt_upper_bound; lia.
Qed.

Lemma utoa_fuel n : 0 ≤ n → n < 2 ^ Z.of_nat (Z.to_nat (Z.log2_up (n + 1))).
Proof.
  intros Hn. rewrite Z2Nat.id by apply Z.log2_up_nonneg.
  destruct (Z.eq_dec n 0) as [->|]; [done|].
  pose proof (Z.log2_up_spec (n + 1)). lia.
Qed.

Lemma code_digit_char d : 0 ≤ d ≤ 9 → code (digit_char d) = 48 + d.
Proof. intros Hd. unfold digit_char. apply code_chr. lia. Qed.

Lemma is_digit_digit_char d : 0 ≤ d ≤ 9 → is_digit (digit_char d) = true.
Proof.
  intros Hd. unfold is_digit. rewrite code_digit_char by done.
  apply andb_true_iff. split; apply Z.leb_le; lia.
Qed.

Lemma parse_digits_of_list ds acc :
  Forall (λ d, 0 ≤ d ≤ 9) ds →
  parse_digits (of_list (map digit_char ds)) acc
  = Some (fold_left (λ a d, a * 10 + d) ds acc).
Proof.
  intros Hds. revert acc. induction Hds as [|d ds Hd _ IH]; intros acc; [done|].
  cbn [map of_list parse_digits fold_left].
  rewrite is_digit_digit_char, code_digit_char by done.
  rewrite IH. do 2 f_equal. lia.
Qed.

Lemma fold_left_rev_digits ds :
  fold_left (λ a d, a * 10 + d) (rev ds) 0 = digits_value ds.
Proof.
  induction ds as [|d ds IH]; [done|].
  cbn [rev]. rewrite fold_left_app. cbn. rewrite IH. unfold digits_value. lia.
Qed.

Lemma parse_digits_utoa n : 0 ≤ n → parse_digits (utoa n) 0 = Some n.
Proof.
  intros Hn. unfold utoa.
  rewrite parse_digits_of_list
    by (apply Forall_rev, digits_le_range; done).
  rewrite fold_left_rev_digits, digits_le_value; [done|].
  pose proof (utoa_fuel n Hn). lia.
Qed.

(** The text of a non-negative number starts with a digit. *)
Lemma utoa_head n :
  0 ≤ n → ∃ d s, 0 ≤ d ≤ 9 ∧ utoa n = String (digit_char d) s.
Proof.
  intros Hn. unfold utoa.
  pose proof (digits_le_range (Z.to_nat (Z.log2_up (n + 1))) n Hn) as Hr.
  apply Forall_rev in Hr.
  destruct (rev (digits_le (Z.to_nat (Z.log2_up (n + 1))) n)) as [|d ds] eqn:Hds.
  - apply (f_equal (@length Z)) in Hds. rewrite length_rev in Hds.
    destruct (Z.to_nat (Z.log2_up (n + 1))); cbn in Hds; [done|].
    destruct (n <? 10); done.
  - exists d. eexists. split; [by inversion Hr|]. reflexivity.
Qed.

Lemma parse_uint_utoa n : 0 ≤ n → parse_uint (utoa n) = Some n.
Proof.
  intros Hn. destruct (utoa_head n Hn) as (d & s & Hd & Heq).
  unfold parse_uint. rewrite <- (parse_digits_utoa n Hn). by rewrite Heq.
Qed.

(** [ParseInt] reads back what [Itoa] writes. *)
Lemma ParseInt_Itoa n : is_int64 n = true → ParseInt (Itoa n) = Some n.
Proof.
  intros Hr. unfold Itoa. destruct (Z.ltb_spec n 0) as [Hneg|Hpos].
  - unfold ParseInt. change (code "-") with 45. cbn [Z.eqb Pos.eqb].
    rewrite parse_uint_utoa by lia. cbn. rewrite Z.opp_involutive, Hr. done.
  - destruct (utoa_head n Hpos) as (d & s & Hd & Heq).
    unfold ParseInt. rewrite Heq, code_digit_char by done.
    destruct (Z.eqb_spec (48 + d) 45); [lia|].
    destruct (Z.eqb_spec (48 + d) 43); [lia|].
    rewrite <- Heq, parse_uint_utoa by done. cbn. by rewrite Hr.
Qed.

(** ** UTF-8 *)

Import UTF8.

Lemma lor_disjoint a lo k :
  0 ≤ k → a mod 2 ^ k = 0 → 0 ≤ lo < 2 ^ k → Z.lor a lo = a + lo.
Proof.
  intros Hk Ha Hlo. symmetry. apply Z.add_nocarry_lor.
  apply Z.bits_inj'. intros n Hn. rewrite Z.land_spec, Z.bits_0.
  destruct (Z.lt_ge_cases n k) as [Hlt|Hge].
  - rewrite <- (Z.mod_pow2_bits_low a k n) by lia. rewrite Ha, Z.bits_0. done.
  - rewrite <- (Z.mod_small lo (2 ^ k)) by lia.
    rewrite Z.mod_pow2_bits_high by lia. apply andb_false_r.
Qed.

Lemma low6_mod b : low6 b = b mod 64.
Proof. unfold low6. change 0x3F with (Z.ones 6). by rewrite Z.land_ones. Qed.

Lemma land_mask b k : 0 ≤ k → Z.land b (Z.ones k) = b mod 2 ^ k.
Proof. intros. by rewrite Z.land_ones. Qed.

Lemma tagged_small tag k y :
  0 ≤ k ≤ 8 → tag mod 2 ^ k = 0 → 0 ≤ y < 2 ^ k → tagged tag y = chr (tag + y).
Proof.
  intros Hk Ht Hy. unfold tagged. change 0xFF with (Z.ones 8).
  rewrite Z.land_ones by lia.
  assert (2 ^ k ≤ 2 ^ 8) by (apply Z.pow_le_mono_r; lia).
  rewrite Z.mod_small by lia. by rewrite (lor_disjoint tag y k) by lia.
Qed.

Lemma trail_mod x : trail x = chr (128 + x mod 64).
Proof.
  unfold trail. rewrite low6_mod.
  rewrite (lor_disjoint 0x80 (x mod 64) 6); [done|lia|done|].
  apply Z.mod_pos_bound. lia.
Qed.

Lemma chr_eq z c : z = code c → chr z = c.
Proof. intros ->. apply chr_code. Qed.

Lemma rune2 b0 b1 :
  Z.lor (Z.shiftl (Z.land b0 0x1F) 6) (low6 b1) = (b0 mod 32) * 64 + b1 mod 64.
Proof.
  rewrite low6_mod. change 0x1F with (Z.ones 5).
  rewrite Z.land_ones, Z.shiftl_mul_pow2 by lia.
  apply (lor_disjoint _ _ 6); [lia| |apply Z.mod_pos_bound; lia].
  change (2 ^ 6) with 64. change (2^5) with 32. 
  rewrite Z.mod_mul; lia.
Qed.

Lemma rune3 b0 b1 b2 :
  Z.lor (Z.lor (Z.shiftl (Z.land b0 0x0F) 12) (Z.shiftl (low6 b1) 6)) (low6 b2)
  = (b0 mod 16) * 4096 + (b1 mod 64) * 64 + b2 mod 64.
Proof.
  rewrite !low6_mod. change 0x0F with (Z.ones 4).
  rewrite Z.land_ones, !Z.shiftl_mul_pow2 by lia.
  change (2 ^ 4) with 16. change (2 ^ 12) with 4096. change (2 ^ 6) with 64.
  pose proof (Z.mod_pos_bound b1 64). pose proof (Z.mod_pos_bound b2 64).
  rewrite (lor_disjoint (b0 mod 16 * 4096) _ 12); [|lia| |lia].
  - apply (lor_disjoint _ _ 6); [lia| |lia]. change (2^6) with 64.
    replace (b0 mod 16 * 4096 + b1 mod 64 * 64) with ((b0 mod 16 * 64 + b1 mod 64) * 64) by lia.
    apply Z.mod_mul. lia.
  - change (2^12) with 4096. apply Z.mod_mul. lia.
Qed.

Lemma rune4 b0 b1 b2 b3 :
  Z.lor (Z.lor (Z.lor (Z.shiftl (Z.land b0 0x07) 18) (Z.shiftl (low6 b1) 12))
           (Z.shiftl (low6 b2) 6)) (low6 b3)
  = (b0 mod 8) * 262144 + (b1 mod 64) * 4096 + (b2 mod 64) * 64 + b3 mod 64.
Proof.
  rewrite !low6_mod. change 0x07 with (Z.ones 3).
  rewrite Z.land_ones, !Z.shiftl_mul_pow2 by lia.
  change (2 ^ 3) with 8. change (2 ^ 18) with 262144.
  change (2 ^ 12) with 4096. change (2 ^ 6) with 64.
  pose proof (Z.mod_pos_bound b1 64). pose proof (Z.mod_pos_bound b2 64).
  pose proof (Z.mod_pos_bound b3 64).
  rewrite (lor_disjoint (b0 mod 8 * 262144) _ 18); [|lia| |lia].
  - rewrite (lor_disjoint _ (b2 mod 64 * 64) 12); [|lia| |lia].
    + apply (lor_disjoint _ _ 6); [lia| |lia]. change (2 ^ 6) with 64.
      replace (b0 mod 8 * 262144 + b1 mod 64 * 4096 + b2 mod 64 * 64)
        with ((b0 mod 8 * 4096 + b1 mod 64 * 64 + b2 mod 64) * 64) by lia.
      apply Z.mod_mul. lia.
    + change (2 ^ 12) with 4096.
      replace (b0 mod 8 * 262144 + b1 mod 64 * 4096)
        with ((b0 mod 8 * 64 + b1 mod 64) * 4096) by lia.
      apply Z.mod_mul. lia.
  - change (2 ^ 18) with 262144. apply Z.mod_mul. lia.
Qed.

Lemma between_true lo hi b : between lo hi b = true ↔ lo ≤ b ≤ hi.
Proof. unfold between. rewrite andb_true_iff, !Z.leb_le. done. Qed.

Lemma lead_cases b0 n lo hi :
  lead b0 = Some (n, lo, hi) →
  (n = 2%nat ∧ 0xC2 ≤ b0 ≤ 0xDF ∧ lo = 0x80 ∧ hi = 0xBF)
  ∨ (n = 3%nat ∧ 0xE0 ≤ b0 ≤ 0xEF ∧ 0x80 ≤ lo ∧ hi ≤ 0xBF
     ∧ (b0 = 0xE0 → lo = 0xA0) ∧ (b0 = 0xED → hi = 0x9F))
  ∨ (n = 4%nat ∧ 0xF0 ≤ b0 ≤ 0xF4 ∧ 0x80 ≤ lo ∧ hi ≤ 0xBF
     ∧ (b0 = 0xF0 → lo = 0x90) ∧ (b0 = 0xF4 → hi = 0x8F)).
Proof.
  unfold lead.
  repeat match goal with
         | |- context [if between ?l ?h b0 then _ else _] =>
             destruct (between l h b0) eqn:?;
             [match goal with H : between _ _ _ = true |- _ =>
                apply between_true in H end;
              intros [= <- <- <-]; lia|]
         | |- context [if b0 =? ?c then _ else _] =>
             destruct (Z.eqb_spec b0 c); [intros [= <- <- <-]; lia|]
         end.
  done.
Qed.


Ltac ztests :=
  repeat match goal with
    | |- context [?a <=? ?b] =>
        first [ replace (a <=? b) with true by (symmetry; apply Z.leb_le; lia)
              | replace (a <=? b) with false by (symmetry; apply Z.leb_gt; lia) ]
    | |- context [?a <? ?b] =>
        first [ replace (a <? b) with true by (symmetry; apply Z.ltb_lt; lia)
              | replace (a <? b) with false by (symmetry; apply Z.ltb_ge; lia) ]
    end.

Ltac zlia := Z.div_mod_to_equations; lia.

Lemma encode2 b0 b1 :
  0xC2 ≤ b0 ≤ 0xDF → 0x80 ≤ b1 ≤ 0xBF →
  EncodeRune ((b0 mod 32) * 64 + b1 mod 64)
  = String (chr b0) (String (chr b1) EmptyString).
Proof.
  intros H0 H1. set (r := (b0 mod 32) * 64 + b1 mod 64).
  assert (Hr : 0x80 ≤ r ≤ 0x7FF) by (unfold r; zlia).
  unfold EncodeRune, between. ztests. cbn [andb orb].
  rewrite trail_mod, Z.shiftr_div_pow2 by lia. change (2 ^ 6) with 64.
  rewrite (tagged_small 0xC0 6) by (try done; change (2 ^ 6) with 64; unfold r; zlia).
  repeat (apply (f_equal2 String); [f_equal; unfold r; zlia|]); reflexivity.
Qed.

Lemma encode3_bytes b0 b1 b2 :
  0xE0 ≤ b0 ≤ 0xEF → 0x80 ≤ b1 ≤ 0xBF → 0x80 ≤ b2 ≤ 0xBF →
  (b0 = 0xE0 → 0xA0 ≤ b1) → (b0 = 0xED → b1 ≤ 0x9F) →
  EncodeRune ((b0 mod 16) * 4096 + (b1 mod 64) * 64 + b2 mod 64)
  = String (chr b0) (String (chr b1) (String (chr b2) EmptyString)).
Proof.
  intros H0 H1 H2 Hlo Hhi.
  set (r := (b0 mod 16) * 4096 + (b1 mod 64) * 64 + b2 mod 64).
  assert (Hr : 0x800 ≤ r ≤ 0xFFFF ∧ ¬ (0xD800 ≤ r ≤ 0xDFFF)) by (unfold r; zlia).
  unfold EncodeRune, between, MaxRune. ztests. cbn [andb orb].
  replace ((0xD800 <=? r) && (r <=? 0xDFFF)) with false
    by (symmetry; apply andb_false_iff; rewrite Z.leb_gt, Z.leb_gt; lia).
  unfold encode3.
  rewrite !trail_mod, !Z.shiftr_div_pow2 by lia.
  change (2 ^ 6) with 64. change (2 ^ 12) with 4096.
  rewrite (tagged_small 0xE0 4) by (try done; change (2 ^ 4) with 16; unfold r; zlia).
  repeat (apply (f_equal2 String); [f_equal; unfold r; zlia|]); reflexivity.
Qed.

Lemma encode4_bytes b0 b1 b2 b3 :
  0xF0 ≤ b0 ≤ 0xF4 → 0x80 ≤ b1 ≤ 0xBF → 0x80 ≤ b2 ≤ 0xBF → 0x80 ≤ b3 ≤ 0xBF →
  (b0 = 0xF0 → 0x90 ≤ b1) → (b0 = 0xF4 → b1 ≤ 0x8F) →
  EncodeRune ((b0 mod 8) * 262144 + (b1 mod 64) * 4096 + (b2 mod 64) * 64 + b3 mod 64)
  = String (chr b0) (String (chr b1) (String (chr b2) (String (chr b3) EmptyString))).
Proof.
  intros H0 H1 H2 H3 Hlo Hhi.
  set (r := (b0 mod 8) * 262144 + (b1 mod 64) * 4096 + (b2 mod 64) * 64 + b3 mod 64).
  assert (Hr : 0x10000 ≤ r ≤ 0x10FFFF) by (unfold r; zlia).
  unfold EncodeRune, between, MaxRune. ztests. cbn [andb orb].
  rewrite !trail_mod, !Z.shiftr_div_pow2 by lia.
  change (2 ^ 6) with 64. change (2 ^ 12) with 4096. change (2 ^ 18) with 262144.
  rewrite (tagged_small 0xF0 3) by (try done; change (2 ^ 3) with 8; unfold r; zlia).
  repeat (apply (f_equal2 String); [f_equal; unfold r; zlia|]); reflexivity.
Qed.

Lemma DecodeRune_size s r size :
  DecodeRune s = (r, size) → s ≠ EmptyString →
  (1 ≤ size ≤ String.length s)%nat.
Proof.
  destruct s as [|c0 s1]; [done|]. intros Hd _. unfold DecodeRune in Hd.
  destruct (code c0 <? 0x80); [injection Hd as <- <-; cbn; lia|].
  destruct (lead (code c0)) as [[[n lo] hi]|] eqn:Hl;
    [|injection Hd as <- <-; cbn; lia].
  destruct (lead_cases _ _ _ _ Hl) as [(-> & _)|[(-> & _)|(-> & _)]].
  - destruct s1 as [|c1 s2]; [injection Hd as <- <-; cbn; lia|].
    destruct (between lo hi (code c1)); injection Hd as <- <-; cbn; lia.
  - destruct s1 as [|c1 [|c2 s3]]; try (injection Hd as <- <-; cbn; lia).
    destruct (between lo hi (code c1) && cont (code c2));
      injection Hd as <- <-; cbn; lia.
  - destruct s1 as [|c1 [|c2 [|c3 s4]]]; try (injection Hd as <- <-; cbn; lia).
    destruct (between lo hi (code c1) && cont (code c2) && cont (code c3));
      injection Hd as <- <-; cbn; lia.
Qed.

(** A sequence [DecodeRune] accepts is what [EncodeRune] writes for its rune. *)
Lemma EncodeRune_DecodeRune s r size :
  DecodeRune s = (r, size) → s ≠ EmptyString →
  (r =? RuneError) && (size =? 1)%nat = false →
  EncodeRune r = JSON.take size s.
Proof.
  destruct s as [|c0 s1]; [done|]. intros Hd _ Hok.
  unfold DecodeRune in Hd. pose proof (code_range c0) as Hc0.
  destruct (Z.ltb_spec (code c0) 0x80).
  { injection Hd as <- <-. unfold EncodeRune, between. ztests. cbn.
    by rewrite chr_code. }
  assert (Hbad : (r, size) ≠ (RuneError, 1%nat)).
  { intros [= -> ->]. done. }
  destruct (lead (code c0)) as [[[n lo] hi]|] eqn:Hl; [|done].
  destruct (lead_cases _ _ _ _ Hl) as
    [(-> & H0 & -> & ->)|[(-> & H0 & Hlo & Hhi & Hlo' & Hhi')
                         |(-> & H0 & Hlo & Hhi & Hlo' & Hhi')]].
  - destruct s1 as [|c1 s2]; [done|].
    destruct (between 128 191 (code c1)) eqn:H1; [|done].
    apply between_true in H1. injection Hd as <- <-.
    rewrite rune2, encode2 by done. cbn. by rewrite !chr_code.
  - destruct s1 as [|c1 [|c2 s3]]; try done.
    destruct (between lo hi (code c1)) eqn:H1; [|done].
    destruct (cont (code c2)) eqn:H2; [|done].
    apply between_true in H1, H2. injection Hd as <- <-.
    rewrite rune3, encode3_bytes by lia. cbn. by rewrite !chr_code.
  - destruct s1 as [|c1 [|c2 [|c3 s4]]]; try done.
    destruct (between lo hi (code c1)) eqn:H1; [|done].
    destruct (cont (code c2)) eqn:H2; [|done].
    destruct (cont (code c3)) eqn:H3; [|done].
    apply between_true in H1, H2, H3. injection Hd as <- <-.
    rewrite rune4, encode4_bytes by lia. cbn. by rewrite !chr_code.
Qed.

(** ** JSON strings *)


Lemma take_length n s :
  (n ≤ String.length s)%nat → String.length (JSON.take n s) = n.
Proof.
  revert s. induction n as [|n IH]; intros [|c s] Hn; cbn in *; try lia.
  rewrite IH; lia.
Qed.

Lemma take_drop n s : JSON.take n s +:+ drop n s = s.
Proof.
  revert s. induction n as [|n IH]; intros [|c s]; try done.
  cbn [JSON.take drop]. by rewrite sapp_cons, IH.
Qed.

Lemma drop_take_app n s t :
  (n ≤ String.length s)%nat → drop n (JSON.take n s +:+ t) = t.
Proof.
  revert s. induction n as [|n IH]; intros [|c s] Hn; cbn in *; try lia; try done.
  rewrite sapp_cons. cbn [drop]. apply IH. lia.
Qed.

Lemma drop_length n s : String.length (drop n s) = (String.length s - n)%nat.
Proof.
  revert s. induction n as [|n IH]; intros [|c s]; cbn; try lia. apply IH.
Qed.

(** [DecodeRune] looks at no byte beyond the sequence it accepts. *)
Lemma DecodeRune_prefix s r size t :
  DecodeRune s = (r, size) → s ≠ EmptyString →
  (r =? RuneError) && (size =? 1)%nat = false →
  DecodeRune (JSON.take size s +:+ t) = (r, size).
Proof.
  destruct s as [|c0 s1]; [done|]. intros Hd _ Hok.
  unfold DecodeRune in Hd.
  destruct (code c0 <? 0x80) eqn:H0.
  { injection Hd as <- <-. cbn [JSON.take]. rewrite sapp_cons.
    unfold DecodeRune. by rewrite H0. }
  assert (Hbad : (r, size) ≠ (RuneError, 1%nat)).
  { intros [= -> ->]. done. }
  destruct (lead (code c0)) as [[[n lo] hi]|] eqn:Hl; [|done].
  destruct (lead_cases _ _ _ _ Hl) as [(-> & _)|[(-> & _)|(-> & _)]].
  - destruct s1 as [|c1 s2]; [done|].
    destruct (between lo hi (code c1)) eqn:H1; [|done].
    injection Hd as <- <-. cbn [JSON.take]. rewrite !sapp_cons.
    unfold DecodeRune. by rewrite H0, Hl, H1.
  - destruct s1 as [|c1 [|c2 s3]]; try done.
    destruct (between lo hi (code c1) && cont (code c2)) eqn:H1; [|done].
    injection Hd as <- <-. cbn [JSON.take]. rewrite !sapp_cons.
    unfold DecodeRune. by rewrite H0, Hl, H1.
  - destruct s1 as [|c1 [|c2 [|c3 s4]]]; try done.
    destruct (between lo hi (code c1) && cont (code c2) && cont (code c3))
      eqn:H1; [|done].
    injection Hd as <- <-. cbn [JSON.take]. rewrite !sapp_cons.
    unfold DecodeRune. by rewrite H0, Hl, H1.
Qed.

Lemma hex_val_hex_digit n : 0 ≤ n < 16 → hex_val (hex_digit n) = Some n.
Proof.
  intros Hn.
  pose proof (forallb_seqZ
                (λ k, match hex_val (hex_digit k) with
                      | Some m => m =? k
                      | None => false
                      end) 0 16 n) as H.
  cbv beta in H. specialize (H ltac:(vm_compute; reflexivity) ltac:(lia)).
  destruct (hex_val (hex_digit n)); [|done].
  apply Z.eqb_eq in H. by subst.
Qed.

Lemma with_prefix_Some p t rest :
  with_prefix p (Some (t, rest)) = Some (p +:+ t, rest).
Proof. reflexivity. Qed.

(** *** One step of [unquote_go], by the head of the input *)

Lemma unquote_go_end g rest :
  unquote_go (S g) (String dquote rest) = Some (EmptyString, rest).
Proof. reflexivity. Qed.

Lemma unquote_go_plain g c t :
  0x20 ≤ code c < 0x80 → code c ≠ 34 → code c ≠ 92 →
  unquote_go (S g) (String c t) = with_prefix (String c EmptyString) (unquote_go g t).
Proof.
  intros Hc H34 H92. cbn [unquote_go].
  destruct (Z.eqb_spec (code c) 34); [done|].
  destruct (Z.eqb_spec (code c) 92); [done|].
  destruct (Z.ltb_spec (code c) 0x20); [lia|].
  destruct (Z.ltb_spec (code c) 0x80); [done|lia].
Qed.

Lemma unquote_go_rune g c t :
  0x80 ≤ code c →
  unquote_go (S g) (String c t) =
  with_prefix (EncodeRune (DecodeRune (String c t)).1)
    (unquote_go g (drop (DecodeRune (String c t)).2 (String c t))).
Proof.
  intros Hc. cbn [unquote_go].
  destruct (Z.eqb_spec (code c) 34); [lia|].
  destruct (Z.eqb_spec (code c) 92); [lia|].
  destruct (Z.ltb_spec (code c) 0x20); [lia|].
  destruct (Z.ltb_spec (code c) 0x80); [lia|].
  by destruct (DecodeRune (String c t)).
Qed.

Lemma unquote_go_u g h1 h2 h3 h4 a b c d t :
  hex_val h1 = Some a → hex_val h2 = Some b →
  hex_val h3 = Some c → hex_val h4 = Some d →
  between 0xD800 0xDFFF (((a * 16 + b) * 16 + c) * 16 + d) = false →
  unquote_go (S g)
    (String bslash (String "u" (String h1 (String h2 (String h3 (String h4 t))))))
  = with_prefix (EncodeRune (((a * 16 + b) * 16 + c) * 16 + d)) (unquote_go g t).
Proof.
  intros H1 H2 H3 H4 Hs. cbn [unquote_go].
  change (code bslash) with 92. change (code "u") with 117.
  cbn [Z.eqb Pos.eqb orb].
  unfold getu4. change (Ascii.eqb bslash bslash && Ascii.eqb "u" "u") with true.
  cbv iota. rewrite H1, H2, H3, H4. cbn [mbind option_bind]. by rewrite Hs.
Qed.

Lemma quote_go_nil f : quote_go f EmptyString = EmptyString.
Proof. by destruct f. Qed.

Lemma coerce_go_nil f : coerce_go f EmptyString = EmptyString.
Proof. by destruct f. Qed.

Lemma DecodeRune_ascii c s :
  code c < 0x80 → DecodeRune (String c s) = (code c, 1%nat).
Proof.
  intros Hc. unfold DecodeRune. by destruct (Z.ltb_spec (code c) 0x80); [|lia].
Qed.

Lemma coerce_go_ascii f c s :
  code c < 0x80 → coerce_go (S f) (String c s) = String c (coerce_go f s).
Proof.
  intros Hc. cbn [coerce_go]. rewrite DecodeRune_ascii by done.
  unfold RuneError. destruct (Z.eqb_spec (code c) 0xFFFD); [lia|].
  reflexivity.
Qed.

Lemma EncodeRune_ascii c : code c < 0x80 → EncodeRune (code c) = String c EmptyString.
Proof.
  intros Hc. pose proof (code_range c). unfold EncodeRune, between. ztests.
  cbn [andb]. by rewrite chr_code.
Qed.

(** The escape of an ASCII byte reads back as that byte. *)
Lemma unquote_go_escape_ascii g c t :
  code c < 0x80 → html_safe (code c) = false →
  unquote_go (S g) (escape_ascii (code c) +:+ t)
  = with_prefix (String c EmptyString) (unquote_go g t).
Proof.
  intros Hc Hunsafe. pose proof (code_range c) as Hr. unfold escape_ascii.
  assert (Hfix : ∀ n x, code c = n → code x = n → c = x).
  { intros n x H1 H2. apply code_inj. by rewrite H1, H2. }
  destruct (Z.eqb_spec (code c) 92) as [H|_];
    [rewrite (Hfix 92 bslash H eq_refl); reflexivity|].
  destruct (Z.eqb_spec (code c) 34) as [H|_];
    [rewrite (Hfix 34 dquote H eq_refl); reflexivity|].
  cbn [orb].
  destruct (Z.eqb_spec (code c) 8) as [H|_];
    [rewrite (Hfix 8 (chr 8) H eq_refl); reflexivity|].
  destruct (Z.eqb_spec (code c) 12) as [H|_];
    [rewrite (Hfix 12 (chr 12) H eq_refl); reflexivity|].
  destruct (Z.eqb_spec (code c) 10) as [H|_];
    [rewrite (Hfix 10 (chr 10) H eq_refl); reflexivity|].
  destruct (Z.eqb_spec (code c) 13) as [H|_];
    [rewrite (Hfix 13 (chr 13) H eq_refl); reflexivity|].
  destruct (Z.eqb_spec (code c) 9) as [H|_];
    [rewrite (Hfix 9 (chr 9) H eq_refl); reflexivity|].
  rewrite !sapp_cons, sapp_nil_l.
  assert (Hhi : 0 ≤ code c / 16 < 16) by (Z.div_mod_to_equations; lia).
  assert (Hlo : 0 ≤ code c mod 16 < 16) by (apply Z.mod_pos_bound; lia).
  rewrite Z.shiftr_div_pow2 by lia. change 0xF with (Z.ones 4).
  rewrite Z.land_ones by lia. change (2 ^ 4) with 16.
  rewrite (unquote_go_u g "0" "0" _ _ 0 0 (code c / 16) (code c mod 16));
    try done; try (by apply hex_val_hex_digit).
  - replace (((0 * 16 + 0) * 16 + code c / 16) * 16 + code c mod 16)
      with (code c) by (Z.div_mod_to_equations; lia).
    by rewrite EncodeRune_ascii.
  - unfold between.
    replace (0xD800 <=? ((0 * 16 + 0) * 16 + code c / 16) * 16 + code c mod 16)
      with false; [done|].
    symmetry. apply Z.leb_gt. Z.div_mod_to_equations. lia.
Qed.

Lemma unquote_go_replacement g t :
  unquote_go (S g) (String bslash "ufffd" +:+ t)
  = with_prefix (EncodeRune RuneError) (unquote_go g t).
Proof. reflexivity. Qed.

Lemma unquote_go_separator g r t :
  r = 0x2028 ∨ r = 0x2029 →
  unquote_go (S g)
    (String bslash "u202" +:+ String (hex_digit (Z.land r 0xF)) EmptyString +:+ t)
  = with_prefix (EncodeRune r) (unquote_go g t).
Proof. intros [-> | ->]; reflexivity. Qed.

Ltac length_le :=
  repeat rewrite sapp_length in *; cbn [String.length] in *; lia.

(** Reading back a quoted string gives the string, coerced to UTF-8. *)
Lemma unquote_quote_go f s g rest :
  (String.length s ≤ f)%nat →
  (String.length (quote_go f s) ≤ g)%nat →
  unquote_go (S g) (quote_go f s +:+ String dquote rest)
  = Some (coerce_go f s, rest).
Proof.
  revert s g. induction f as [|f IH]; intros [|c s] g Hf Hg;
    try (cbn in Hf; lia);
    try (rewrite quote_go_nil, coerce_go_nil; reflexivity).
  cbn [String.length] in Hf.
  destruct (Z.ltb_spec (code c) 0x80) as [Hc|Hc].
  - (* an ASCII byte *)
    rewrite coerce_go_ascii by done.
    cbn [quote_go] in Hg |- *.
    destruct (Z.ltb_spec (code c) 0x80); [|lia].
    destruct (html_safe (code c)) eqn:Hsafe.
    + rewrite sapp_cons, sapp_nil_l in Hg |- *. rewrite sapp_cons.
      destruct g as [|g]; [cbn in Hg; lia|].
      unfold html_safe in Hsafe.
      apply andb_true_iff in Hsafe as [Hsafe Hnot].
      apply andb_true_iff in Hsafe as [H20%Z.leb_le H80%Z.ltb_lt].
      apply negb_true_iff in Hnot. rewrite !orb_false_iff in Hnot.
      destruct Hnot as ((((H34%Z.eqb_neq & H92%Z.eqb_neq) & _) & _) & _).
      rewrite unquote_go_plain by done.
      rewrite IH by (cbn in Hg; lia). reflexivity.
    + rewrite sapp_assoc.
      assert (1 ≤ String.length (escape_ascii (code c)))%nat.
      { unfold escape_ascii, esc. repeat case_match; cbn; lia. }
      destruct g as [|g]; [length_le|].
      rewrite unquote_go_escape_ascii by done.
      rewrite IH by length_le. reflexivity.
  - (* the head of a multi-byte sequence, or a stray byte *)
    cbn [quote_go coerce_go] in Hg |- *.
    destruct (Z.ltb_spec (code c) 0x80); [lia|].
    destruct (DecodeRune (String c s)) as [r size] eqn:Hd.
    pose proof (DecodeRune_size _ _ _ Hd ltac:(done)) as Hsize.
    cbn [String.length] in Hsize.
    destruct ((r =? RuneError) && (size =? 1)%nat) eqn:Hbad.
    + rewrite sapp_assoc.
      destruct g as [|g]; [length_le|].
      rewrite unquote_go_replacement, IH by length_le. reflexivity.
    + pose proof (EncodeRune_DecodeRune _ _ _ Hd ltac:(done) Hbad) as Henc.
      assert (Hdrop : (String.length (drop size (String c s)) ≤ f)%nat).
      { rewrite drop_length. cbn [String.length]. lia. }
      destruct ((r =? 0x2028) || (r =? 0x2029)) eqn:Hsep.
      * rewrite !sapp_assoc.
        destruct g as [|g]; [length_le|].
        rewrite unquote_go_separator
          by (apply orb_true_iff in Hsep as [?%Z.eqb_eq|?%Z.eqb_eq]; auto).
        rewrite IH by (try done; length_le). by rewrite Henc.
      * rewrite sapp_assoc.
        assert (Hlen : String.length (JSON.take size (String c s)) = size)
          by (apply take_length; cbn; lia).
        destruct g as [|g]; [length_le|].
        assert (Hhead : ∃ t, JSON.take size (String c s) = String c t).
        { destruct size; [lia|]. cbn [JSON.take]. eauto. }
        destruct Hhead as (t & Ht). rewrite Ht, sapp_cons.
        rewrite unquote_go_rune by done. rewrite <- sapp_cons, <- Ht.
        rewrite (DecodeRune_prefix _ _ _ _ Hd) by done. cbn [fst snd].
        rewrite drop_take_app by (cbn; lia).
        rewrite IH by (try done; length_le). by rewrite Henc.
Qed.

Lemma unquote_quote s rest :
  unquote (quote_go (String.length s) s +:+ String dquote rest)
  = Some (coerce s, rest).
Proof.
  unfold unquote, coerce. rewrite sapp_length. cbn [String.length].
  rewrite Nat.add_succ_r. apply unquote_quote_go; lia.
Qed.

(** ** JSON values *)


Lemma quote_app s rest :
  quote s +:+ rest
  = String dquote (quote_go (String.length s) s +:+ String dquote rest).
Proof. unfold quote. by rewrite sapp_cons, sapp_assoc, sapp_cons, sapp_nil_l. Qed.

Lemma parse_value_string f depth s rest :
  parse_value (S f) depth (quote s +:+ rest) = Some (JString (coerce s), rest).
Proof.
  rewrite quote_app. cbn [parse_value].
  change (Ascii.eqb dquote "{") with false.
  change (Ascii.eqb dquote "[") with false.
  change (Ascii.eqb dquote dquote) with true. cbv iota.
  by rewrite unquote_quote.
Qed.

Lemma skip_ws_quote s rest : skip_ws (quote s +:+ rest) = quote s +:+ rest.
Proof. rewrite quote_app. reflexivity. Qed.

Lemma parse_members_entry f depth kv tail :
  parse_members (S (S f)) depth (encode_entry kv +:+ tail)
  = match skip_ws tail with
    | String c4 r4 =>
        if Ascii.eqb c4 ","
        then '(ms, r5) ← parse_members (S f) depth (skip_ws r4);
             Some (member_of kv :: ms, r5)
        else if Ascii.eqb c4 "}" then Some ([member_of kv], r4)
        else None
    | EmptyString => None
    end.
Proof.
  unfold encode_entry. rewrite !sapp_assoc, quote_app.
  cbn [parse_members]. change (Ascii.eqb dquote dquote) with true. cbv iota.
  rewrite unquote_quote. cbn [mbind option_bind].
  rewrite sapp_cons, sapp_nil_l.
  change (skip_ws (String ":" ?t)) with (String ":" t).
  change (Ascii.eqb ":" ":") with true. cbv iota.
  rewrite skip_ws_quote, parse_value_string. reflexivity.
Qed.

Lemma join_cons sep x l :
  l ≠ [] → join sep (x :: l) = x +:+ sep +:+ join sep l.
Proof. by destruct l. Qed.

Lemma encode_entry_head kv :
  ∃ t, encode_entry kv = String dquote t.
Proof. unfold encode_entry. rewrite quote_app. eauto. Qed.

Lemma join_entries_head entries :
  entries ≠ [] → ∃ t, join "," (map encode_entry entries) = String dquote t.
Proof.
  destruct entries as [|kv l]; [done|]. intros _.
  destruct (encode_entry_head kv) as (t & Ht). destruct l as [|kv' l].
  - cbn [map join]. eauto.
  - change (map encode_entry (kv :: kv' :: l))
      with (encode_entry kv :: map encode_entry (kv' :: l)).
    rewrite join_cons by done. rewrite Ht, sapp_cons. eauto.
Qed.

Lemma skip_ws_entries entries tail :
  entries ≠ [] →
  skip_ws (join "," (map encode_entry entries) +:+ tail)
  = join "," (map encode_entry entries) +:+ tail.
Proof.
  intros Hne. destruct (join_entries_head entries Hne) as (t & ->). reflexivity.
Qed.

(** The members of an object, as written by the encoder, read back. *)
Lemma parse_members_entries entries f depth rest :
  entries ≠ [] → (length entries ≤ f)%nat →
  parse_members (S f) depth
    (join "," (map encode_entry entries) +:+ String "}" rest)
  = Some (map member_of entries, rest).
Proof.
  revert f. induction entries as [|kv l IH]; intros f Hne Hf; [done|].
  destruct f as [|f]; [cbn in Hf; lia|].
  destruct l as [|kv' l].
  - cbn [map join]. rewrite parse_members_entry. reflexivity.
  - change (map encode_entry (kv :: kv' :: l))
      with (encode_entry kv :: map encode_entry (kv' :: l)).
    rewrite join_cons, !sapp_assoc by done.
    rewrite parse_members_entry.
    change (skip_ws ("," +:+ ?t)) with (String "," t).
    change (Ascii.eqb "," ",") with true. cbv iota.
    rewrite skip_ws_entries by done.
    rewrite IH by (try done; cbn in *; lia). reflexivity.
Qed.

Lemma parse_value_object entries f depth rest :
  depth < maxNestingDepth → (length entries < f)%nat →
  parse_value (S f) depth (encode_object entries +:+ rest)
  = Some (JObject (map member_of entries), rest).
Proof.
  intros Hd Hf. unfold encode_object. rewrite !sapp_assoc, sapp_cons, sapp_nil_l.
  cbn [parse_value]. change (Ascii.eqb "{" "{") with true. cbv iota.
  destruct (Z.leb_spec maxNestingDepth depth); [lia|].
  destruct entries as [|kv l]; [reflexivity|].
  destruct f as [|f]; [lia|].
  rewrite skip_ws_entries by done.
  destruct (join_entries_head (kv :: l)) as (t & Ht); [done|].
  rewrite Ht, sapp_cons. change (Ascii.eqb dquote "}") with false. cbv iota.
  rewrite <- sapp_cons, <- Ht. rewrite sapp_cons, sapp_nil_l.
  rewrite parse_members_entries by (try done; cbn in *; lia). reflexivity.
Qed.

Lemma join_entries_length entries :
  (length entries ≤ String.length (join "," (map encode_entry entries)))%nat.
Proof.
  induction entries as [|kv l IH]; [done|].
  destruct (encode_entry_head kv) as (t & Ht). destruct l as [|kv' l].
  - cbn [map join]. rewrite Ht. cbn. lia.
  - change (map encode_entry (kv :: kv' :: l))
      with (encode_entry kv :: map encode_entry (kv' :: l)).
    rewrite join_cons, !sapp_length, Ht by done.
    cbn [String.length length] in *. lia.
Qed.

Lemma encode_object_length entries :
  (length entries + 2 ≤ String.length (encode_object entries))%nat.
Proof.
  unfold encode_object. rewrite !sapp_length. cbn [String.length].
  pose proof (join_entries_length entries). lia.
Qed.

Lemma parse_value_map {K} `{Countable K} (key : K → string) m f depth rest :
  depth < maxNestingDepth →
  (String.length (encode_map key m) ≤ f)%nat →
  parse_value (S f) depth (encode_map key m +:+ rest)
  = Some (map_json key m, rest).
Proof.
  intros Hd Hf. destruct m as [m|]; cbn [encode_map map_json] in *.
  - apply parse_value_object; [done|].
    pose proof (encode_object_length
                  (merge_sort key_le (prod_map key id <$> map_to_list m))).
    unfold entries_of. lia.
  - reflexivity.
Qed.

Lemma skip_ws_encode_map {K} `{Countable K} (key : K → string) m rest :
  skip_ws (encode_map key m +:+ rest) = encode_map key m +:+ rest.
Proof. destruct m; reflexivity. Qed.

Lemma parse_members_step f depth k V v tail :
  skip_ws V = V →
  parse_value f depth V = Some (v, tail) →
  parse_members (S f) depth (quote k +:+ ":" +:+ V)
  = match skip_ws tail with
    | String c4 r4 =>
        if Ascii.eqb c4 ","
        then '(ms, r5) ← parse_members f depth (skip_ws r4);
             Some ((coerce k, v) :: ms, r5)
        else if Ascii.eqb c4 "}" then Some ([(coerce k, v)], r4)
        else None
    | EmptyString => None
    end.
Proof.
  intros Hskip Hv. rewrite quote_app.
  cbn [parse_members]. change (Ascii.eqb dquote dquote) with true. cbv iota.
  rewrite unquote_quote. cbn [mbind option_bind].
  rewrite sapp_cons, sapp_nil_l.
  change (skip_ws (String ":" ?t)) with (String ":" t).
  change (Ascii.eqb ":" ":") with true. cbv iota.
  rewrite Hskip, Hv. reflexivity.
Qed.

(** What [Marshal] writes parses back to an object with the two fields. *)
Lemma parse_Marshal c :
  parse (Marshal c)
  = Some (JObject [("Ports", map_json Itoa (Ports c));
                   ("Labels", map_json id (Labels c))]).
Proof.
  unfold parse, Marshal.
  set (PM := encode_map Itoa (Ports c)). set (LM := encode_map id (Labels c)).
  set (data := "{" +:+ quote "Ports" +:+ ":" +:+ PM +:+ ","
               +:+ quote "Labels" +:+ ":" +:+ LM +:+ "}").
  assert (Hlen : ∃ n, String.length data = S (S (S n))
                      ∧ (String.length PM ≤ n)%nat ∧ (String.length LM ≤ n)%nat).
  { exists (17 + String.length PM + String.length LM)%nat. unfold data.
    rewrite !sapp_length.
    change (String.length (quote "Ports")) with 7%nat.
    change (String.length (quote "Labels")) with 8%nat.
    cbn [String.length].
    lia. }
  destruct Hlen as (n & -> & HP & HL).
  change (skip_ws data) with data. unfold data.
  rewrite sapp_cons, sapp_nil_l.
  cbn [parse_value]. change (Ascii.eqb "{" "{") with true. cbv iota.
  change (maxNestingDepth <=? 0) with false. cbv iota.
  rewrite skip_ws_quote. rewrite (quote_app "Ports") at 1.
  change (Ascii.eqb dquote "}") with false. cbv iota.
  rewrite <- quote_app.
  rewrite (parse_members_step (S (S n)) (0 + 1) "Ports"
             (PM +:+ "," +:+ quote "Labels" +:+ ":" +:+ LM +:+ "}")
             (map_json Itoa (Ports c))
             ("," +:+ quote "Labels" +:+ ":" +:+ LM +:+ "}")).
  - change (skip_ws ("," +:+ ?t)) with (String "," t).
    change (Ascii.eqb "," ",") with true. cbv iota.
    rewrite skip_ws_quote.
    rewrite (parse_members_step (S n) (0 + 1) "Labels" (LM +:+ "}")
               (map_json id (Labels c)) "}").
    + reflexivity.
    + apply skip_ws_encode_map.
    + apply parse_value_map; [done|exact HL].
  - apply skip_ws_encode_map.
  - apply parse_value_map; [done|exact (Nat.le_trans _ _ _ HP (Nat.le_succ_diag_r n))].
Qed.

(** ** Reading the registry back *)

Lemma coerce_go_valid f s : valid_go f s = true → coerce_go f s = s.
Proof.
  revert s. induction f as [|f IH]; intros [|c s] Hv; try done.
  cbn [valid_go coerce_go] in *.
  destruct (DecodeRune (String c s)) as [r size].
  destruct ((r =? RuneError) && (size =? 1)%nat); [done|].
  rewrite IH by done. apply take_drop.
Qed.

Lemma coerce_valid s : Valid s = true → coerce s = s.
Proof. apply coerce_go_valid. Qed.

Lemma valid_go_ascii f s :
  (String.length s ≤ f)%nat → ascii_only s = true → valid_go f s = true.
Proof.
  revert s. induction f as [|f IH]; intros [|c s] Hf Ha; try done;
    cbn [String.length] in Hf; [lia|].
  cbn [ascii_only] in Ha. apply andb_true_iff in Ha as [Hc%Z.ltb_lt Ha].
  cbn [valid_go]. rewrite DecodeRune_ascii by done.
  unfold RuneError. destruct (Z.eqb_spec (code c) 0xFFFD); [lia|].
  cbn [andb drop]. apply IH; [lia|done].
Qed.

Lemma ascii_only_digits ds :
  Forall (λ d, 0 ≤ d ≤ 9) ds → ascii_only (of_list (map digit_char ds)) = true.
Proof.
  induction 1 as [|d ds Hd _ IH]; [done|].
  cbn [map of_list ascii_only]. rewrite code_digit_char by done.
  rewrite IH. destruct (Z.ltb_spec (48 + d) 0x80); [done|lia].
Qed.

Lemma ascii_only_Itoa n : ascii_only (Itoa n) = true.
Proof.
  assert (Hu : ∀ k, 0 ≤ k → ascii_only (utoa k) = true).
  { intros k Hk. apply ascii_only_digits, Forall_rev, digits_le_range. done. }
  unfold Itoa. destruct (Z.ltb_spec n 0).
  - cbn [ascii_only]. rewrite Hu by lia. reflexivity.
  - by apply Hu.
Qed.

Lemma coerce_Itoa n : coerce (Itoa n) = Itoa n.
Proof.
  apply coerce_valid, valid_go_ascii; [done|apply ascii_only_Itoa].
Qed.

(** Decoding the members written for the list [l] of a map's entries. *)
Lemma decode_members_entries {K} `{Countable K}
    (key : K → string) (read : string → option K) (l : list (K * string)) m0 :
  (∀ kv, kv ∈ l → read (coerce (key kv.1)) = Some kv.1) →
  decode_members read (map member_of (prod_map key id <$> l)) m0
  = Some (foldl insert_coerced m0 l).
Proof.
  revert m0. induction l as [|[k v] l IH]; intros m0 Hread; [done|].
  cbn [fmap list_fmap map prod_map fst snd member_of decode_members id].
  pose proof (Hread (k, v) ltac:(left)) as Hk. cbn [fst] in Hk.
  rewrite Hk. cbn [mbind option_bind fst].
  rewrite IH; [reflexivity|]. intros kv Hkv. apply Hread. by right.
Qed.

Lemma foldl_insert_coerced_lookup {K} `{Countable K} (l : list (K * string)) m0 :
  NoDup l.*1 →
  ∀ k, foldl insert_coerced m0 l !! k
       = match list_to_map (M := gmap K string) l !! k with
         | Some v => Some (coerce v)
         | None => m0 !! k
         end.
Proof.
  revert m0. induction l as [|[k0 v0] l IH]; intros m0 Hnd k; [done|].
  apply NoDup_cons in Hnd as [Hk0 Hnd].
  cbn [foldl list_to_map foldr]. rewrite IH by done.
  unfold insert_coerced. cbn [fst snd curry].
  destruct (decide (k = k0)) as [->|Hne].
  - rewrite lookup_insert_eq.
    rewrite (not_elem_of_list_to_map_1 l k0) by done.
    by rewrite lookup_insert_eq.
  - rewrite (lookup_insert_ne (list_to_map l)) by done.
    destruct (list_to_map l !! k); [done|]. by rewrite lookup_insert_ne.
Qed.

(** The map read back is the map written, with every value coerced. *)
Lemma decode_members_sorted {K} `{Countable K}
    (key : K → string) (read : string → option K) (m : gmap K string) :
  (∀ k, is_Some (m !! k) → read (coerce (key k)) = Some k) →
  decode_members read (map member_of (entries_of key m)) ∅
  = Some (coerce <$> m).
Proof.
  intros Hread. unfold entries_of.
  destruct (Permutation_map_inv (prod_map key id) (map_to_list m)
              (l1 := merge_sort key_le (prod_map key id <$> map_to_list m)))
    as (l & Hl & Hperm).
  { apply merge_sort_Permutation. }
  rewrite Hl.
  change (map (prod_map key id) l) with (prod_map key id <$> l).
  rewrite decode_members_entries.
  - f_equal. apply map_eq. intros k.
    assert (Hnd : NoDup l.*1).
    { rewrite <- Hperm. apply NoDup_fst_map_to_list. }
    rewrite foldl_insert_coerced_lookup by done.
    rewrite lookup_fmap, lookup_empty.
    assert (Hm : list_to_map (M := gmap K string) l = m).
    { rewrite (list_to_map_proper l (map_to_list m)) by done.
      apply list_to_map_to_list. }
    rewrite Hm. by destruct (m !! k).
  - intros [k v] Hkv. apply Hread. exists v.
    apply elem_of_map_to_list. by rewrite Hperm.
Qed.

Lemma decode_members_strings (l : list (string * string)) m0 :
  ∃ m', decode_members (K := string) Some (map member_of l) m0 = Some m'.
Proof.
  revert m0. induction l as [|[k v] l IH]; intros m0; [by eexists|].
  cbn [map member_of decode_members mbind option_bind fst snd]. apply IH.
Qed.

Lemma decode_fields_registry pj lj :
  decode_fields [("Ports", pj); ("Labels", lj)] zero_Config
  = p ← decode_map ParseInt pj None;
    l ← decode_map Some lj None;
    Some {| Ports := p; Labels := l |}.
Proof.
  cbn [decode_fields].
  change (names_field "Ports" "Ports") with true.
  change (names_field "Labels" "Ports") with false.
  change (names_field "Labels" "Labels") with true. cbv iota.
  cbn [Ports Labels zero_Config].
  destruct (decode_map ParseInt pj None) as [p|]; [|done].
  cbn [mbind option_bind Ports Labels].
  by destruct (decode_map Some lj None).
Qed.

(** Reading back what [Marshal] wrote: the ports are the ports written, with
    every deploy id coerced to UTF-8. *)
Lemma Unmarshal_Marshal c :
  (∀ m k, Ports c = Some m → is_Some (m !! k) → is_int64 k = true) →
  ∃ labels, Unmarshal (Marshal c)
            = inl {| Ports := coerced_ports (Ports c); Labels := labels |}.
Proof.
  intros Hkeys. unfold Unmarshal. rewrite parse_Marshal, decode_fields_registry.
  assert (HP : decode_map ParseInt (map_json Itoa (Ports c)) None
               = Some (coerced_ports (Ports c))).
  { destruct (Ports c) as [m|] eqn:Hm; [|done].
    cbn [map_json decode_map default coerced_ports].
    rewrite decode_members_sorted; [done|].
    intros k Hk. rewrite coerce_Itoa. apply ParseInt_Itoa. by apply (Hkeys m). }
  rewrite HP. cbn [mbind option_bind].
  assert (HL : ∃ l, decode_map Some (map_json id (Labels c)) None = Some l).
  { destruct (Labels c) as [m|]; [|by eexists].
    cbn [map_json decode_map default].
    destruct (decode_members_strings (entries_of id m) ∅) as (m' & ->).
    by eexists. }
  destruct HL as (l & ->). by eexists.
Qed.

(** C7 as stated does not hold for every deploy id: a Go string is any
    sequence of bytes, and [json.Marshal] replaces a byte that is not part of
    well-formed UTF-8 by U+FFFD.  Here the deploy id is the single byte 0xFF;
    the file holds the escape of U+FFFD, and the registry loaded from it has
    the three bytes of U+FFFD for port 8050. *)
Lemma invalid_utf8_id_not_restored :
  ∃ st' ports labels,
    (assign_port 8050 stray_byte ;; writeConfig example_server) healthy_world fresh
    = Done None st'
    ∧ files st' !! config_path example_server
      = Some ("{" +:+ quote "Ports" +:+ ":{" +:+ quote "8050" +:+ ":"
              +:+ String dquote (String bslash ("ufffd" +:+ String dquote "},"))
              +:+ quote "Labels" +:+ ":{}}")
    ∧ readConfig (config_path example_server) healthy_world st'
      = Done (Some {| Ports := Some ports; Labels := Some labels |}, None) st'
    ∧ ports !! 8050 = Some replacement_character
    ∧ ports !! 8050 ≠ Some stray_byte.
Proof.
  eexists. exists (<[8050 := replacement_character]> ∅), ∅.
  split; [vm_compute; reflexivity|]. split; [vm_compute; reflexivity|].
  split; [vm_compute; reflexivity|]. split; [reflexivity|].
  vm_compute. discriminate.
Qed.

(** C7, amended. For every port (a Go int) and every deploy id, assigning
    the port, writing the registry and reading it back from the same path,
    with the write and the read both succeeding, gives a registry whose
    ports map has, for that port, the deploy id coerced to UTF-8: the deploy
    id itself whenever it is well-formed UTF-8 (as "d1" for port 8050). *)
Theorem registry_round_trip s w st m port deployId :
  Ports (config st) = Some m →
  (∀ k, is_Some (m !! k) → is_int64 k = true) →
  is_int64 port = true →
  write_fault w (config_path s) = None →
  read_fault w (config_path s) = None →
  ∃ st' ports labels,
    (assign_port port deployId ;; writeConfig s) w st = Done None st'
    ∧ config st' = {| Ports := Some (<[port := deployId]> m);
                      Labels := Labels (config st) |}
    ∧ readConfig (config_path s) w st'
      = Done (Some {| Ports := Some ports; Labels := Some labels |}, None) st'
    ∧ ports !! port = Some (coerce deployId)
    ∧ (Valid deployId = true → ports !! port = Some deployId).
Proof.
  intros Hm Hkeys Hport Hw Hr.
  set (registry := {| Ports := Some (<[port := deployId]> m);
                      Labels := Labels (config st) |}).
  destruct (Unmarshal_Marshal registry) as (labels & Hu).
  { intros m' k [= <-] Hk. destruct (decide (k = port)) as [->|Hne]; [done|].
    apply Hkeys. by rewrite lookup_insert_ne in Hk. }
  exists (recorded (EvWriteFile (config_path s) (Marshal registry) true)
            (with_file (config_path s) (Marshal registry)
               (with_ports (<[port := deployId]> m) st))).
  exists (coerce <$> <[port := deployId]> m), (default ∅ labels).
  assert (Hlookup : (coerce <$> <[port := deployId]> m) !! port
                    = Some (coerce deployId)).
  { by rewrite lookup_fmap, lookup_insert_eq. }
  split; [|split; [|split; [|split]]].
  - unfold bind, assign_port, writeConfig, bind, get_state. rewrite Hm.
    rewrite ioutil_WriteFile_outcome. unfold write_outcome.
    cbn [config]. fold (config_path s). rewrite Hw. reflexivity.
  - reflexivity.
  - unfold readConfig, bind, ioutil_ReadFile. rewrite Hr.
    cbn [files recorded with_file].
    rewrite lookup_insert_eq. fold registry. rewrite Hu. unfold ret.
    cbn [Ports Labels coerced_ports registry empty_if_nil].
    by destruct labels.
  - exact Hlookup.
  - intros Hv. by rewrite Hlookup, coerce_valid.
Qed.

Lemma registry_round_trip_witness :
  Ports (config fresh) = Some ∅
  ∧ is_int64 8050 = true
  ∧ write_fault healthy_world (config_path example_server) = None
  ∧ read_fault healthy_world (config_path example_server) = None
  ∧ ∃ st' ports labels,
      (assign_port 8050 "d1" ;; writeConfig example_server) healthy_world fresh
      = Done None st'
      ∧ readConfig (config_path example_server) healthy_world st'
        = Done (Some {| Ports := Some ports; Labels := Some labels |}, None) st'
      ∧ ports !! 8050 = Some "d1".
Proof.
  split; [reflexivity|]. split; [reflexivity|]. split; [reflexivity|].
  split; [reflexivity|].
  destruct (registry_round_trip example_server healthy_world fresh ∅ 8050 "d1")
    as (st' & ports & labels & Hrun & _ & Hread & _ & Hvalid);
    [reflexivity
    |intros k [x Hx]; rewrite lookup_empty in Hx; discriminate
    |reflexivity|reflexivity|reflexivity|].
  exists st', ports, labels. split; [exact Hrun|]. split; [exact Hread|].
  apply Hvalid. reflexivity.
Defined.


(** ** The scenarios of the specification *)

(** Ports 8001 to 8049 are taken: [Run] allocates 8050, records and writes
    the assignment, starts the command for that port, polls every 100 ms, is
    answered 200 on the fourth poll, and returns no error. *)
Example run_end_to_end :
  ∃ st',
    Run example_server "dX" busy_world fresh = Done None st'
    ∧ config st' = {| Ports := Some {[8050 := "dX"]}; Labels := Some ∅ |}
    ∧ files st' !! "/srv/camus/config.json"
      = Some ("{" +:+ quote "Ports" +:+ ":{" +:+ quote "8050" +:+ ":"
              +:+ quote "dX" +:+ "}," +:+ quote "Labels" +:+ ":{}}")
    ∧ procs st' = [{| Args := ["sh"; "-c"; "myapp --port=8050"];
                      Dir := "/srv/camus/deploys/dX"; Setpgid := true |}]
    ∧ gets st' = 4%nat
    ∧ now st' = 304 * millisecond.
Proof.
  eexists. split; [vm_compute; reflexivity|].
  split; [reflexivity|]. split; [vm_compute; reflexivity|]. done.
Qed.

(** The same, but the application never answers: [Run] returns the timeout
    error, the process has been started, and the assignment is still in the
    registry and in the file. *)
Example run_times_out :
  ∃ st',
    Run example_server "dX" silent_world fresh = Done (Some timeout_error) st'
    ∧ config st' = {| Ports := Some {[8001 := "dX"]}; Labels := Some ∅ |}
    ∧ files st' !! "/srv/camus/config.json"
      = Some (Marshal {| Ports := Some {[8001 := "dX"]}; Labels := Some ∅ |})
    ∧ length (procs st') = 1%nat.
Proof.
  eexists. split; [vm_compute; reflexivity|].
  split; [reflexivity|]. split; [vm_compute; reflexivity|]. done.
Qed.

Example Itoa_examples :
  Itoa 8050 = "8050" ∧ Itoa 0 = "0" ∧ Itoa (-17) = "-17" ∧ fmt_02d 7 = "07"
  ∧ ParseInt "8050" = Some 8050 ∧ ParseInt "-17" = Some (-17)
  ∧ ParseInt "80a0" = None ∧ ParseInt "9223372036854775808" = None.
Proof. vm_compute. done. Qed.

Example Join_examples :
  Path.Join ["/srv/camus"; "deploys"; "2020-01-02-03-04-05"]
  = "/srv/camus/deploys/2020-01-02-03-04-05"
  ∧ Path.Join ["/srv/camus"; "deploys"; "../../x"] = "/srv/x"
  ∧ Path.Join ["/"; "config.json"] = "/config.json"
  ∧ Path.Clean "a//b/./c/.." = "a/b".
Proof. vm_compute. done. Qed.

(** Keys are written in the order of their texts, not of their values. *)
Example Marshal_key_order :
  Marshal {| Ports := Some (<[9 := "a"]> {[8050 := "b"]}); Labels := None |}
  = "{" +:+ quote "Ports" +:+ ":{" +:+ quote "8050" +:+ ":" +:+ quote "b" +:+ ","
    +:+ quote "9" +:+ ":" +:+ quote "a" +:+ "}," +:+ quote "Labels" +:+ ":null}".
Proof. vm_compute. reflexivity. Qed.

Example Unmarshal_type_error :
  Unmarshal ("{" +:+ quote "Ports" +:+ ":5}") = inr UnmarshalTypeError
  ∧ Unmarshal ("{" +:+ quote "ports" +:+ ":{" +:+ quote "x" +:+ ":"
               +:+ quote "d" +:+ "}}") = inr UnmarshalTypeError
  ∧ Unmarshal "null" = inl zero_Config
  ∧ Unmarshal "{} x" = inr SyntaxError.
Proof. vm_compute. done. Qed.

(** * Further properties *)

(** ** More on the health check *)

(** How many requests the loop makes, from the deadline it is given: every
    retry is one poll interval further on. *)
Lemma poll_bounds f url e w st r st' :
  poll f url e w st = Done r st' →
  (gets st < gets st')%nat
  ∧ (Z.of_nat (gets st' - gets st) - 2) * STARTUP_HEALTH_CHECK_INTERVAL
    ≤ Z.max (e - now st) (- STARTUP_HEALTH_CHECK_INTERVAL).
Proof.
  revert st. induction f as [|f IH]; intros st Hrun; [done|].
  rewrite poll_S in Hrun. cbv zeta in Hrun.
  pose proof (took_nonneg (attempt w url st)) as Hlo.
  assert (HI : STARTUP_HEALTH_CHECK_INTERVAL = 100000000) by reflexivity.
  assert (Hend : ∀ x, Done x (polled w url st) = Done r st' ∨
                      (∃ l, Done x (logged l (polled w url st)) = Done r st') →
            (gets st < gets st')%nat
            ∧ (Z.of_nat (gets st' - gets st) - 2) * STARTUP_HEALTH_CHECK_INTERVAL
              ≤ Z.max (e - now st) (- STARTUP_HEALTH_CHECK_INTERVAL)).
  { intros x [H|(l & H)]; injection H as _ <-; cbn [polled logged gets now];
      replace (S (gets st) - gets st)%nat with 1%nat by lia; lia. }
  assert (Hstep : (e <? now (polled w url st)) = false →
            poll f url e w (slept (polled w url st)) = Done r st' →
            (gets st < gets st')%nat
            ∧ (Z.of_nat (gets st' - gets st) - 2) * STARTUP_HEALTH_CHECK_INTERVAL
              ≤ Z.max (e - now st) (- STARTUP_HEALTH_CHECK_INTERVAL)).
  { intros Hle%Z.ltb_ge H. apply IH in H as (Hg & Hn).
    cbn [slept polled gets now] in *.
    replace (gets st' - gets st)%nat with (S (gets st' - S (gets st)))%nat by lia.
    rewrite Nat2Z.inj_succ. lia. }
  destruct (get_result url (attempt w url st)) as [[status|] [err|]].
  - destruct (e <? now (polled w url st)) eqn:Hlt; [apply (Hend (Some timeout_error)); eauto|by apply Hstep].
  - destruct (status =? 200); [apply (Hend None)|apply (Hend (Some (bad_status_error status)))]; eauto.
  - destruct (e <? now (polled w url st)) eqn:Hlt; [apply (Hend (Some timeout_error)); eauto|by apply Hstep].
  - done.
Qed.

(** X1. [waitForAppToStart] always returns, and it makes at least one and at
    most twelve requests: a retry comes a poll interval or more after the
    request before it, and the deadline is ten intervals away. *)
Theorem waitForAppToStart_bounded port app w st :
  ∃ r st',
    waitForAppToStart port app w st = Done r st'
    ∧ (gets st < gets st' ≤ gets st + 12)%nat.
Proof.
  destruct (waitForAppToStart_returns port app w st) as (r & st' & Hrun).
  exists r, st'. split; [done|].
  rewrite waitForAppToStart_poll in Hrun.
  apply poll_bounds in Hrun as (Hg & Hn).
  unfold MAX_STARTUP_TIME, STARTUP_HEALTH_CHECK_INTERVAL, second, millisecond in *.
  lia.
Qed.

Lemma poll_verdict f url e w st r st' :
  poll f url e w st = Done r st' →
  match r with
  | None =>
      in_time (last_attempt w url st') = true
      ∧ exchange (last_attempt w url st') = Response 200
  | Some err =>
      (err = timeout_error ∧ failed (last_attempt w url st') = true ∧ e < now st')
      ∨ ∃ status, err = bad_status_error status ∧ status ≠ 200
                  ∧ in_time (last_attempt w url st') = true
                  ∧ exchange (last_attempt w url st') = Response status
  end.
Proof.
  revert st. induction f as [|f IH]; intros st Hrun; [done|].
  rewrite poll_S in Hrun. cbv zeta in Hrun.
  assert (Hlast : ∀ l, last_attempt w url (polled w url st) = attempt w url st
                       ∧ last_attempt w url (logged l (polled w url st))
                         = attempt w url st).
  { intros l. unfold last_attempt, attempt. cbn [polled logged gets].
    replace (S (gets st) - 1)%nat with (gets st) by lia. done. }
  unfold get_result, failed in *.
  destruct (in_time (attempt w url st)) eqn:Ht; cbn [negb orb] in *.
  - rewrite deliver_health_client in Hrun.
    destruct (exchange (attempt w url st)) as [|status|status loc next] eqn:Hx.
    + destruct (Z.ltb_spec e (now (polled w url st))); [|by eapply IH].
      injection Hrun as <- <-. left. destruct (Hlast EmptyString) as [-> _].
      unfold failed. rewrite Ht, Hx. done.
    + destruct (Hlast "ok") as [_ Hl1].
      destruct (Hlast ("bad: " +:+ Itoa status)) as [_ Hl2].
      destruct (Z.eqb_spec status 200) as [Heq|Hne]; injection Hrun as <- <-.
      * rewrite Hl1, <- Heq. done.
      * right. exists status. rewrite Hl2. done.
    + destruct (Z.ltb_spec e (now (polled w url st))); [|by eapply IH].
      injection Hrun as <- <-. left. destruct (Hlast EmptyString) as [-> _].
      unfold failed. rewrite Ht, Hx. done.
  - destruct (Z.ltb_spec e (now (polled w url st))); [|by eapply IH].
    injection Hrun as <- <-. left. destruct (Hlast EmptyString) as [-> _].
    unfold failed. rewrite Ht. done.
Qed.

(** X2. The verdict of [waitForAppToStart] is that of its last request: no
    error only if that request was answered 200 in time; a bad-status error
    only if it was answered in time with that status, which is not 200; the
    timeout error only if it failed and the deadline was behind when it
    ended. *)
Theorem waitForAppToStart_verdict port app w st r st' :
  waitForAppToStart port app w st = Done r st' →
  let last := last_attempt w (health_url port app) st' in
  match r with
  | None => in_time last = true ∧ exchange last = Response 200
  | Some err =>
      (err = timeout_error ∧ failed last = true
       ∧ now st + MAX_STARTUP_TIME < now st')
      ∨ ∃ status, err = bad_status_error status ∧ status ≠ 200
                  ∧ in_time last = true ∧ exchange last = Response status
  end.
Proof.
  rewrite waitForAppToStart_poll. intros Hrun. by apply poll_verdict in Hrun.
Qed.

Lemma waitForAppToStart_verdict_witness :
  ∃ st', waitForAppToStart 8050 example_app busy_world fresh = Done None st'
         ∧ gets st' = 4%nat
         ∧ exchange (last_attempt busy_world (health_url 8050 example_app) st')
           = Response 200.
Proof.
  destruct (waitForAppToStart_returns 8050 example_app busy_world fresh)
    as (r & st' & Hrun).
  assert (Hr : r = None ∧ gets st' = 4%nat).
  { vm_compute in Hrun. injection Hrun as <- <-. done. }
  destruct Hr as [-> Hg]. exists st'. split; [exact Hrun|]. split; [exact Hg|].
  exact (proj2 (waitForAppToStart_verdict 8050 example_app busy_world fresh
                  None st' Hrun)).
Defined.

(** X3. A request that runs into the client's time limit ends the check, at
    any iteration and also when the answer would have been 200: the limit
    (two seconds) is longer than the whole startup time (one second), so the
    deadline is behind when the request gives up. *)
Theorem request_time_limit_ends_check port app w st :
  let url := health_url port app in
  in_time (attempt w url st) = false →
  (∀ f e, e ≤ now st + MAX_STARTUP_TIME →
          poll (S f) url e w st = Done (Some timeout_error) (polled w url st))
  ∧ waitForAppToStart port app w st = Done (Some timeout_error) (polled w url st)
  ∧ now (polled w url st) = now st + MAX_HEALTH_CHECK_TIME.
Proof.
  intros url Ht.
  assert (Hnow : now (polled w url st) = now st + MAX_HEALTH_CHECK_TIME).
  { cbn [polled now]. unfold took. by rewrite Ht. }
  assert (Hstep : ∀ f e, e ≤ now st + MAX_STARTUP_TIME →
            poll (S f) url e w st = Done (Some timeout_error) (polled w url st)).
  { intros f e He. rewrite poll_failed by (unfold failed; by rewrite Ht).
    rewrite Hnow.
    destruct (Z.ltb_spec e (now st + MAX_HEALTH_CHECK_TIME)); [done|].
    unfold MAX_STARTUP_TIME, MAX_HEALTH_CHECK_TIME, second in *. lia. }
  split; [exact Hstep|]. split; [|exact Hnow].
  rewrite waitForAppToStart_poll. apply Hstep. lia.
Qed.

Lemma request_time_limit_ends_check_witness :
  let url := health_url 8050 example_app in
  in_time (attempt slow_world url fresh) = false
  ∧ exchange (attempt slow_world url fresh) = Response 200
  ∧ waitForAppToStart 8050 example_app slow_world fresh
    = Done (Some timeout_error) (polled slow_world url fresh).
Proof.
  split; [reflexivity|]. split; [reflexivity|].
  destruct (request_time_limit_ends_check 8050 example_app slow_world fresh)
    as (_ & Hrun & _); [reflexivity|exact Hrun].
Defined.

Lemma poll_trace f url e w st r st' :
  poll f url e w st = Done r st' →
  ∃ tail, trace st' = trace st ++ tail ∧ Forall (health_event url) tail.
Proof.
  revert st. induction f as [|f IH]; intros st Hrun; [done|].
  rewrite poll_S in Hrun. cbv zeta in Hrun.
  assert (Hstep : poll f url e w (slept (polled w url st)) = Done r st' →
            ∃ tail, trace st' = trace st ++ tail ∧ Forall (health_event url) tail).
  { intros H. apply IH in H as (tail & -> & Htail). cbn [slept polled trace].
    exists ([EvLog "."; EvGet url; EvSleep STARTUP_HEALTH_CHECK_INTERVAL] ++ tail).
    split; [by rewrite <- !app_assoc|].
    apply Forall_app. split; [|done]. repeat constructor. }
  assert (Hend : ∀ l, ∃ tail,
            trace (logged l (polled w url st)) = trace st ++ tail
            ∧ Forall (health_event url) tail).
  { intros l. exists [EvLog "."; EvGet url; EvLog l]. cbn [logged polled trace].
    split; [by rewrite <- !app_assoc|]. repeat constructor. }
  assert (Hend' : ∃ tail, trace (polled w url st) = trace st ++ tail
                          ∧ Forall (health_event url) tail).
  { exists [EvLog "."; EvGet url]. cbn [polled trace].
    split; [by rewrite <- !app_assoc|]. repeat constructor. }
  destruct (get_result url (attempt w url st)) as [[status|] [err|]]; try done.
  - destruct (e <? now (polled w url st)); [|by apply Hstep].
    by injection Hrun as _ <-.
  - destruct (status =? 200); injection Hrun as _ <-; apply Hend.
  - destruct (e <? now (polled w url st)); [|by apply Hstep].
    by injection Hrun as _ <-.
Qed.

(** X4. [waitForAppToStart] only watches: it leaves the registry, the files
    and the processes as they are (it stops nothing it has seen fail), and
    all it does is log, get the one health url and sleep the poll
    interval. *)
Theorem waitForAppToStart_only_watches port app w st r st' :
  waitForAppToStart port app w st = Done r st' →
  config st' = config st ∧ files st' = files st ∧ procs st' = procs st
  ∧ ∃ tail, trace st' = trace st ++ tail
            ∧ Forall (health_event (health_url port app)) tail.
Proof.
  rewrite waitForAppToStart_poll. intros Hrun.
  destruct (poll_frame _ _ _ _ _ _ _ Hrun) as (Hc & Hf & Hp & _).
  split; [done|]. split; [done|]. split; [done|]. by eapply poll_trace.
Qed.

Lemma waitForAppToStart_only_watches_witness :
  ∃ st', waitForAppToStart 8050 example_app silent_world fresh
         = Done (Some timeout_error) st'
         ∧ procs st' = procs fresh ∧ files st' = files fresh.
Proof.
  destruct (waitForAppToStart_returns 8050 example_app silent_world fresh)
    as (r & st' & Hrun).
  assert (Hr : r = Some timeout_error).
  { vm_compute in Hrun. by injection Hrun as <- _. }
  subst r. exists st'. split; [exact Hrun|].
  destruct (waitForAppToStart_only_watches 8050 example_app silent_world fresh
              _ st' Hrun) as (_ & Hf & Hp & _).
  split; [exact Hp|exact Hf].
Defined.

(** ** More on [Run] *)

(** The states before and after [Run], when [Run] returns: what every
    outcome has in common. *)
Lemma Run_done s deployId w st r st' :
  Run s deployId w st = Done r st' →
  (∃ st1, findUnusedPort s w st = Done (-1, Some (errorString "Could not find free port")) st1
          ∧ r = Some (errorString "Could not find free port")
          ∧ config st' = config st ∧ files st' = files st ∧ procs st' = procs st)
  ∨ ∃ port st1,
      findUnusedPort s w st = Done (port, None) st1
      ∧ ((∃ e, manifest w (manifest_path s deployId) = inr e ∧ r = Some e
               ∧ config st' = config st ∧ files st' = files st
               ∧ procs st' = procs st)
         ∨ ∃ app m,
             manifest w (manifest_path s deployId) = inl app
             ∧ Ports (config st) = Some m
             ∧ config st' = {| Ports := Some (<[port := deployId]> m);
                               Labels := Labels (config st) |}
             ∧ (∀ path, path ≠ config_path s →
                        files st' !! path = files st !! path)
             ∧ ((∃ e, start_fault w (run_cmd s deployId app port) = Some e
                      ∧ r = Some e ∧ procs st' = procs st)
                ∨ (start_fault w (run_cmd s deployId app port) = None
                   ∧ procs st' = procs st ++ [run_cmd s deployId app port]
                   ∧ ∃ st0, waitForAppToStart port app w st0 = Done r st'
                            ∧ now st0 = now st ∧ gets st0 = gets st))).
Proof.
  rewrite Run_unfold.
  destruct (findUnusedPort_cases s w st) as
    [(p & st1 & Hscan & Hp & Hfree & _ & _ & Hc & Hf & Hpr & Hn & Hg)
    |(_ & st1 & Hscan & _ & Hc & Hf & Hpr & _)]; rewrite Hscan.
  2:{ intros [= <- <-]. left. exists st1. done. }
  cbv zeta. intros Hrun. right. exists p, st1. split; [done|].
  destruct (manifest w (manifest_path s deployId)) as [app|e].
  2:{ injection Hrun as <- <-. left. exists e. done. }
  right. cbn [logged config] in Hrun. rewrite Hc in Hrun.
  destruct (Ports (config st)) as [m|] eqn:Hm; [|done].
  exists app, m. split; [done|]. split; [done|].
  set (st3 := with_ports (<[p:=deployId]> m) (logged (found_line p) st1)) in *.
  set (st4 := announced s deployId app p w st3) in *.
  assert (H4 : config st4 = {| Ports := Some (<[p := deployId]> m);
                               Labels := Labels (config st) |}
               ∧ (∀ path, path ≠ config_path s →
                          files st4 !! path = files st !! path)
               ∧ procs st4 = procs st ∧ now st4 = now st ∧ gets st4 = gets st).
  { unfold st4, announced, write_outcome.
    destruct (write_fault w (config_path s)) as [[e|n e]|];
      cbn [snd recorded with_file config files procs now gets st3 with_ports logged];
      rewrite ?Hc, ?Hf, ?Hpr, ?Hn, ?Hg; (split; [done|]); (split; [|done]);
      intros path Hpath; rewrite ?lookup_insert_ne by done; done. }
  destruct H4 as (Hc4 & Hf4 & Hp4 & Hn4 & Hg4).
  destruct (start_fault w (run_cmd s deployId app p)) as [e|].
  - injection Hrun as <- <-. cbn [recorded config files procs].
    split; [done|]. split; [done|]. left. exists e. done.
  - pose proof Hrun as Hwait. rewrite waitForAppToStart_poll in Hrun.
    apply poll_frame in Hrun as (Hc' & Hf' & Hp' & _).
    rewrite Hc', Hf', Hp'. cbn [launched config files procs].
    split; [done|]. split; [done|]. right. split; [done|].
    split; [by rewrite Hp4|]. eexists. split; [exact Hwait|].
    cbn [launched now gets]. done.
Qed.

(** X5. [Run] writes one file at most, the config file: every other path
    holds after [Run] what it held before. *)
Theorem Run_writes_only_config s deployId w st r st' :
  Run s deployId w st = Done r st' →
  ∀ path, path ≠ config_path s → files st' !! path = files st !! path.
Proof.
  intros Hrun path Hpath.
  destruct (Run_done _ _ _ _ _ _ Hrun) as
    [(_ & _ & _ & _ & -> & _)
    |(p & st1 & _ & [(e & _ & _ & _ & -> & _)|(app & m & _ & _ & _ & Hf & _)])];
    auto.
Qed.

(** X6. [Run] changes the registry in one place at most.  Either the
    registry is what it was, and [Run] returned an error; or it is the
    registry of before with one entry of the ports map set: the first
    candidate port whose connection attempt failed now maps to the deploy
    id, whether or not that port had an entry.  Every other entry of the
    ports map is as before, none is removed, and the labels are untouched,
    whatever [Run] returns. *)
Theorem Run_registry_change s deployId w st r st' :
  Run s deployId w st = Done r st' →
  (config st' = config st ∧ ∃ e, r = Some e)
  ∨ ∃ p m,
      8001 ≤ p < 8100
      ∧ dial w (candidate_address p) = false
      ∧ (∀ q, 8001 ≤ q < p → dial w (candidate_address q) = true)
      ∧ Ports (config st) = Some m
      ∧ config st' = {| Ports := Some (<[p := deployId]> m);
                        Labels := Labels (config st) |}.
Proof.
  intros Hrun.
  destruct (Run_done _ _ _ _ _ _ Hrun) as
    [(_ & _ & -> & -> & _)
    |(p & st1 & Hscan & [(e & _ & -> & -> & _)|(app & m & _ & Hm & -> & _)])];
    try (left; split; [done|]; eauto).
  right. exists p, m.
  destruct (findUnusedPort_cases s w st) as
    [(p' & st2 & Hscan' & Hp & Hfree & Hbelow & _)|(_ & st2 & Hscan' & _)];
    rewrite Hscan' in Hscan; [|done].
  injection Hscan as -> ->. unfold connects in *. split; [done|].
  rewrite <- port_addr_candidate by done. split; [done|]. split; [|done].
  intros q Hq. rewrite <- port_addr_candidate by lia. by apply Hbelow.
Qed.

Lemma Run_writes_only_config_witness :
  let st := with_file "/srv/camus/deploys/dX/deploy.json" "{}" fresh in
  ∃ st', Run example_server "dX" healthy_world st = Done None st'
         ∧ "/srv/camus/deploys/dX/deploy.json" ≠ config_path example_server
         ∧ files st' !! "/srv/camus/deploys/dX/deploy.json" = Some "{}".
Proof.
  intros st.
  assert (Hrun : ∃ st', Run example_server "dX" healthy_world st = Done None st').
  { eexists. vm_compute. reflexivity. }
  destruct Hrun as (st' & Hrun). exists st'. split; [exact Hrun|].
  assert (Hne : "/srv/camus/deploys/dX/deploy.json" ≠ config_path example_server).
  { vm_compute. discriminate. }
  split; [exact Hne|].
  rewrite (Run_writes_only_config _ _ _ _ _ _ Hrun _ Hne). reflexivity.
Defined.

Lemma Run_registry_change_witness :
  ∃ st', Run example_server "dX" healthy_world stale = Done None st'
         ∧ assigned (config stale) 8001 = Some "old"
         ∧ config st'
           = {| Ports := Some (<[8001 := "dX"]> (<[8001 := "old"]> {[9000 := "other"]}));
                Labels := Some ∅ |}.
Proof.
  assert (Hrun : ∃ st', Run example_server "dX" healthy_world stale = Done None st').
  { eexists. vm_compute. reflexivity. }
  destruct Hrun as (st' & Hrun). exists st'. split; [exact Hrun|].
  split; [reflexivity|].
  destruct (Run_registry_change _ _ _ _ _ _ Hrun)
    as [(_ & e & He)|(p & m & Hp & _ & Hbelow & Hm & Hc)]; [discriminate He|].
  assert (p = 8001) as ->.
  { destruct (Z.eq_dec p 8001) as [Heq|Hne]; [exact Heq|].
    assert (Hq : 8001 ≤ 8001 < p) by lia.
    discriminate (Hbelow 8001 Hq). }
  injection Hm as <-. exact Hc.
Defined.

(** X7. On a registry whose ports map is nil, [Run] panics at the assignment
    once a port is found and the manifest resolves: before anything is
    written or started.  (When no port is free or the manifest does not
    resolve, it returns the error as with any registry.) *)
Theorem Run_nil_map_panics s deployId w st port st1 app :
  Ports (config st) = None →
  findUnusedPort s w st = Done (port, None) st1 →
  manifest w (manifest_path s deployId) = inl app →
  ∃ st', Run s deployId w st = Panic "assignment to entry in nil map" st'
         ∧ config st' = config st ∧ files st' = files st
         ∧ procs st' = procs st ∧ starts (trace st') = starts (trace st).
Proof.
  intros Hnil Hscan Happ. rewrite Run_unfold, Hscan. cbv zeta.
  rewrite Happ. cbn [logged config].
  destruct (findUnusedPort_cases s w st) as
    [(p & st2 & Hscan' & _ & _ & _ & Htr & Hc & Hf & Hp & _)|(_ & st2 & Hscan' & _)];
    rewrite Hscan' in Hscan; [|done].
  injection Hscan as <- <-. rewrite Hc, Hnil. eexists. split; [reflexivity|].
  cbn [logged config files procs trace].
  rewrite starts_app, Htr, starts_app.
  assert (Hd : ∀ i n, starts (dials w i n) = []).
  { intros i n. unfold dials. induction (seqZ i (Z.of_nat n)); done. }
  rewrite Hd, !app_nil_r. done.
Qed.

Lemma Run_nil_map_panics_witness :
  let st := {| config := zero_Config; files := ∅; procs := []; now := 0;
               gets := 0; trace := [] |} in
  Ports (config st) = None
  ∧ manifest healthy_world (manifest_path example_server "dX") = inl example_app
  ∧ ∃ st1 st',
      findUnusedPort example_server healthy_world st = Done (8001, None) st1
      ∧ Run example_server "dX" healthy_world st
        = Panic "assignment to entry in nil map" st'
      ∧ procs st' = [].
Proof.
  intros st. split; [reflexivity|]. split; [reflexivity|].
  eexists.
  edestruct (Run_nil_map_panics example_server "dX" healthy_world st 8001)
    as (st' & Hrun & _ & _ & Hp & _);
    [reflexivity|vm_compute; reflexivity|reflexivity|].
  exists st'. split; [reflexivity|]. split; [exact Hrun|exact Hp].
Defined.

(** X8. Once [Run] has started the command, the process stays: whatever the
    health check says, [Run] returns with the process in place, started by
    [sh -c] in the deploy's directory and in a process group of its own, and
    every request of the health check went to the port that was allocated.
    When the start fails, [Run] returns that error and no process is
    added. *)
Theorem Run_started_process_stays s deployId w st m port st1 app :
  Ports (config st) = Some m →
  findUnusedPort s w st = Done (port, None) st1 →
  manifest w (manifest_path s deployId) = inl app →
  let cmd := {| Args := ["sh"; "-c"; RunCmd app port];
                Dir := Path.Join [root s; deployPath; deployId];
                Setpgid := true |} in
  ∃ r st',
    Run s deployId w st = Done r st'
    ∧ match start_fault w cmd with
      | Some e => r = Some e ∧ procs st' = procs st
      | None =>
          procs st' = procs st ++ [cmd]
          ∧ (r = None ∨ r = Some timeout_error
             ∨ ∃ status, r = Some (bad_status_error status))
          ∧ ∃ before tail,
              trace st' = before ++ [EvStart cmd true] ++ tail
              ∧ Forall (health_event (health_url port app)) tail
      end.
Proof.
  intros Hm Hscan Happ cmd.
  destruct (findUnusedPort_found _ _ _ _ _ Hscan) as (_ & _ & Hc & Hf & Hp & _).
  rewrite Run_unfold, Hscan. cbv zeta. rewrite Happ. cbn [logged config].
  rewrite Hc, Hm. change (run_cmd s deployId app port) with cmd.
  set (st4 := announced s deployId app port w _).
  assert (Hp4 : procs st4 = procs st).
  { unfold st4, announced, write_outcome.
    destruct (write_fault w (config_path s)) as [[e|n e]|]; cbn; done. }
  destruct (start_fault w cmd) as [e|].
  - eexists _, _. split; [reflexivity|]. cbn [recorded procs]. done.
  - destruct (waitForAppToStart_returns port app w (launched cmd st4))
      as (r & st' & Hrun).
    exists r, st'. split; [done|].
    pose proof Hrun as Hrun'. rewrite waitForAppToStart_poll in Hrun'.
    destruct (poll_frame _ _ _ _ _ _ _ Hrun') as (_ & _ & Hp' & _).
    destruct (poll_trace _ _ _ _ _ _ _ Hrun') as (tail & Htr & Htail).
    split; [by rewrite Hp'; cbn [launched procs]; rewrite Hp4|]. split.
    + destruct r as [err|]; [|by left]. right.
      destruct (poll_errors _ _ _ _ _ _ _ Hrun') as [->|(c & ->)]; eauto.
    + exists (trace st4), tail. rewrite Htr. cbn [launched trace].
      by rewrite <- app_assoc.
Qed.

Lemma Run_started_process_stays_witness :
  Ports (config fresh) = Some ∅
  ∧ manifest silent_world (manifest_path example_server "dX") = inl example_app
  ∧ start_fault silent_world (run_cmd example_server "dX" example_app 8001) = None
  ∧ ∃ st1 st',
      findUnusedPort example_server silent_world fresh = Done (8001, None) st1
      ∧ Run example_server "dX" silent_world fresh = Done (Some timeout_error) st'
      ∧ procs st' = [run_cmd example_server "dX" example_app 8001].
Proof.
  split; [reflexivity|]. split; [reflexivity|]. split; [reflexivity|].
  eexists.
  edestruct (Run_started_process_stays example_server "dX" silent_world fresh ∅ 8001)
    as (r & st' & Hrun & Hcase);
    [reflexivity|vm_compute; reflexivity|reflexivity|].
  exists st'. split; [reflexivity|].
  change (start_fault silent_world _) with (@None error) in Hcase.
  destruct Hcase as (Hp & _ & _).
  assert (Hr : r = Some timeout_error).
  { vm_compute in Hrun. by injection Hrun as <- _. }
  subst r. split; [exact Hrun|exact Hp].
Defined.

(** With its ports map allocated, [Run] returns: it neither panics nor
    polls for ever, and it leaves the map allocated. *)
Lemma Run_returns s deployId w st m :
  Ports (config st) = Some m →
  ∃ r st' m', Run s deployId w st = Done r st' ∧ Ports (config st') = Some m'.
Proof.
  intros Hm. rewrite Run_unfold.
  destruct (findUnusedPort_cases s w st) as
    [(p & st1 & Hscan & _ & _ & _ & _ & Hc & _)|(_ & st1 & Hscan & _ & Hc & _)];
    rewrite Hscan.
  2:{ eexists _, _, m. split; [reflexivity|]. by rewrite Hc. }
  cbv zeta. destruct (manifest w (manifest_path s deployId)) as [app|e].
  2:{ eexists _, _, m. split; [reflexivity|]. cbn [logged config]. by rewrite Hc. }
  cbn [logged config]. rewrite Hc, Hm.
  set (st4 := announced s deployId app p w _).
  assert (H4 : Ports (config st4) = Some (<[p := deployId]> m)).
  { unfold st4, announced, write_outcome.
    destruct (write_fault w (config_path s)) as [[e|n e]|]; cbn; done. }
  destruct (start_fault w (run_cmd s deployId app p)) as [e|].
  - eexists _, _, _. split; [reflexivity|]. exact H4.
  - destruct (waitForAppToStart_returns p app w
                (launched (run_cmd s deployId app p) st4)) as (r & st' & Hrun).
    exists r, st'. eexists. split; [done|].
    rewrite waitForAppToStart_poll in Hrun.
    apply poll_frame in Hrun as (-> & _). exact H4.
Qed.

(** ** More on the registry store *)

Lemma fmap_coerce_valid {K} `{Countable K} (m : gmap K string) :
  (∀ k v, m !! k = Some v → Valid v = true) → coerce <$> m = m.
Proof.
  intros Hv. apply map_eq. intros k. rewrite lookup_fmap.
  destruct (m !! k) as [v|] eqn:Hk; [|done]. cbn.
  by rewrite (coerce_valid v (Hv k v Hk)).
Qed.

(** [Unmarshal] gives back the registry [Marshal] wrote, when its strings
    are well-formed UTF-8. *)
Lemma Unmarshal_Marshal_utf8 c :
  utf8_registry c → Unmarshal (Marshal c) = inl c.
Proof.
  intros [HP HL]. unfold Unmarshal.
  rewrite parse_Marshal, decode_fields_registry.
  assert (Hp : decode_map ParseInt (map_json Itoa (Ports c)) None = Some (Ports c)).
  { destruct (Ports c) as [m|] eqn:Hm; [|done].
    destruct (HP m eq_refl) as [Hint Hval].
    cbn [map_json decode_map default].
    rewrite decode_members_sorted.
    - by rewrite fmap_coerce_valid.
    - intros k Hk. rewrite coerce_Itoa. apply ParseInt_Itoa. by apply Hint. }
  assert (Hl : decode_map Some (map_json id (Labels c)) None = Some (Labels c)).
  { destruct (Labels c) as [m|] eqn:Hm; [|done].
    cbn [map_json decode_map default].
    rewrite decode_members_sorted.
    - rewrite fmap_coerce_valid; [done|]. intros k v Hk.
      by destruct (HL m eq_refl k v Hk).
    - intros k [v Hk]. unfold id. f_equal. apply coerce_valid.
      by destruct (HL m eq_refl k v Hk). }
  rewrite Hp, Hl. cbn. by destruct c.
Qed.

Lemma writeConfig_ok s w st :
  write_fault w (config_path s) = None →
  writeConfig s w st
  = Done None (recorded (EvWriteFile (config_path s) (Marshal (config st)) true)
                 (with_file (config_path s) (Marshal (config st)) st)).
Proof.
  intros Hw. unfold writeConfig, bind, get_state.
  rewrite ioutil_WriteFile_outcome. unfold write_outcome.
  fold (config_path s). by rewrite Hw.
Qed.

Lemma readConfig_file path data w st :
  read_fault w path = None → files st !! path = Some data →
  readConfig path w st
  = match Unmarshal data with
    | inl c => Done (Some (allocated c), None) st
    | inr e => Done (None, Some (JSONError e)) st
    end.
Proof.
  intros Hr Hf. unfold readConfig, bind, ioutil_ReadFile. rewrite Hr, Hf.
  by destruct (Unmarshal data).
Qed.

(** X9. Round trip of the whole registry: when all its strings are
    well-formed UTF-8, what [readConfig] reads from the file [writeConfig]
    wrote is the registry in memory, ports and labels, entry for entry (a
    nil map comes back empty). *)
Theorem registry_restored s w st :
  utf8_registry (config st) →
  write_fault w (config_path s) = None →
  read_fault w (config_path s) = None →
  ∃ st', writeConfig s w st = Done None st'
         ∧ config st' = config st
         ∧ readConfig (config_path s) w st'
           = Done (Some (allocated (config st)), None) st'.
Proof.
  intros Hu Hw Hr. eexists. split; [by apply writeConfig_ok|].
  split; [reflexivity|].
  rewrite (readConfig_file _ (Marshal (config st)))
    by (try done; cbn; apply lookup_insert_eq).
  by rewrite Unmarshal_Marshal_utf8.
Qed.

(** X10. What [writeConfig] writes, [readConfig] accepts: whatever bytes the
    deploy ids and labels are made of, reading the file back gives no
    error, and a ports map with the same ports, whose deploy ids are those
    written, coerced to UTF-8. *)
Theorem written_registry_is_readable s w st m :
  Ports (config st) = Some m → go_ints m →
  write_fault w (config_path s) = None →
  read_fault w (config_path s) = None →
  ∃ st' labels,
    writeConfig s w st = Done None st'
    ∧ readConfig (config_path s) w st'
      = Done (Some {| Ports := Some (coerce <$> m); Labels := Some labels |},
              None) st'
    ∧ dom (coerce <$> m) = dom m.
Proof.
  intros Hm Hint Hw Hr.
  destruct (Unmarshal_Marshal (config st)) as (labels & Hu).
  { intros m' k Hm' Hk. rewrite Hm in Hm'. injection Hm' as <-. by apply Hint. }
  eexists. exists (default ∅ labels). split; [by apply writeConfig_ok|].
  split; [|apply dom_fmap_L].
  rewrite (readConfig_file _ (Marshal (config st)))
    by (try done; cbn; apply lookup_insert_eq).
  rewrite Hu, Hm. unfold allocated. cbn. by destruct labels.
Qed.

(** X11. A config file that is there but blank (empty, or white space only)
    is refused with a syntax error, where a missing file gives an empty
    registry.  So does the file a write leaves that was cut short before
    its first byte. *)
Theorem blank_config_is_refused s w st :
  read_fault w (config_path s) = None →
  (∀ data, files st !! config_path s = Some data → skip_ws data = EmptyString →
           readConfig (config_path s) w st
           = Done (None, Some (JSONError SyntaxError)) st)
  ∧ (∀ e, write_fault w (config_path s) = Some (WriteFails 0 e) →
          ∃ st', writeConfig s w st
                 = Done (Some (PathError "write" (config_path s) e)) st'
                 ∧ files st' !! config_path s = Some EmptyString
                 ∧ readConfig (config_path s) w st'
                   = Done (None, Some (JSONError SyntaxError)) st').
Proof.
  intros Hr.
  assert (Hblank : ∀ st0 data,
            files st0 !! config_path s = Some data → skip_ws data = EmptyString →
            readConfig (config_path s) w st0
            = Done (None, Some (JSONError SyntaxError)) st0).
  { intros st0 data Hf Hws. rewrite (readConfig_file _ data) by done.
    unfold Unmarshal, parse. rewrite Hws. reflexivity. }
  split; [apply Hblank|].
  intros e Hw. eexists. split.
  { unfold writeConfig, bind, get_state. rewrite ioutil_WriteFile_outcome.
    unfold write_outcome. fold (config_path s). rewrite Hw. reflexivity. }
  assert (Hfile : ∀ data, JSON.take 0 data = EmptyString) by (by intros []).
  split.
  - cbn. rewrite ?Hfile. apply lookup_insert_eq.
  - apply (Hblank _ EmptyString); [|done]. cbn. rewrite ?Hfile.
    apply lookup_insert_eq.
Qed.

Lemma singleton_utf8_registry k v :
  is_int64 k = true → Valid v = true →
  utf8_registry (config (with_ports {[k := v]} fresh)).
Proof.
  intros Hk Hv. split; cbn.
  - intros m [= <-]. split.
    + intros k' [v' H']. by apply lookup_singleton_Some in H' as [<- _].
    + intros k' v' H'. by apply lookup_singleton_Some in H' as [_ <-].
  - intros m [= <-] k' v' H'. by rewrite lookup_empty in H'.
Qed.

Lemma registry_restored_witness :
  let st := with_ports {[8001 := "2015-03-01-12-00-00"]} fresh in
  ∃ st', writeConfig example_server healthy_world st = Done None st'
         ∧ readConfig (config_path example_server) healthy_world st'
           = Done (Some (config st), None) st'.
Proof.
  intros st.
  destruct (registry_restored example_server healthy_world st)
    as (st' & Hw & _ & Hr);
    [by apply singleton_utf8_registry|reflexivity|reflexivity|].
  exists st'. split; [exact Hw|exact Hr].
Defined.

Lemma written_registry_is_readable_witness :
  let st := with_ports {[8001 := stray_byte]} fresh in
  ∃ st' labels,
    writeConfig example_server healthy_world st = Done None st'
    ∧ readConfig (config_path example_server) healthy_world st'
      = Done (Some {| Ports := Some {[8001 := replacement_character]};
                      Labels := Some labels |}, None) st'.
Proof.
  intros st.
  destruct (written_registry_is_readable example_server healthy_world st
              {[8001 := stray_byte]})
    as (st' & labels & Hw & Hr & _);
    [reflexivity| |reflexivity|reflexivity|].
  { intros k [v Hk]. by apply lookup_singleton_Some in Hk as [<- _]. }
  exists st', labels. split; [exact Hw|].
  rewrite Hr, map_fmap_singleton. reflexivity.
Defined.

Lemma blank_config_is_refused_witness :
  let w := with_write_fault (λ _, Some (WriteFails 0 ENOSPC)) healthy_world in
  ∃ st', writeConfig example_server w fresh
         = Done (Some (PathError "write" (config_path example_server) ENOSPC)) st'
         ∧ files st' !! config_path example_server = Some EmptyString
         ∧ readConfig (config_path example_server) w st'
           = Done (None, Some (JSONError SyntaxError)) st'.
Proof.
  intros w.
  destruct (blank_config_is_refused example_server w fresh) as [_ H];
    [reflexivity|].
  exact (H ENOSPC eq_refl).
Defined.

(** Keys select the fields up to case, the long s (U+017F) counting as an
    s: a key that a fold makes [Ports] is decoded as the ports map. *)
Lemma names_field_examples :
  names_field "ports" "Ports" = true
  ∧ names_field "LABELS" "Labels" = true
  ∧ names_field ("Port" +:+ EncodeRune 0x17F) "Ports" = true
  ∧ names_field "Port" "Ports" = false
  ∧ names_field "Labels" "Ports" = false
  ∧ Unmarshal ("{" +:+ quote ("Port" +:+ EncodeRune 0x17F) +:+ ":5}")
    = inr UnmarshalTypeError
  ∧ Unmarshal ("{" +:+ quote "Port" +:+ ":5}") = inl zero_Config.
Proof. vm_compute. done. Qed.

(** ** Paths *)

Import Path.

Lemma split_go_app a b cur :
  split_go (a +:+ String slash b) cur = split_go a cur ++ split b.
Proof.
  revert cur. induction a as [|c a IH]; intros cur.
  - rewrite sapp_nil_l. cbn. reflexivity.
  - rewrite sapp_cons. cbn [split_go]. destruct (Ascii.eqb c slash).
    + by rewrite IH.
    + apply IH.
Qed.

Lemma split_go_noslash e cur :
  forallb (λ c, negb (Ascii.eqb c slash)) (to_list e) = true →
  split_go e cur = [of_list (rev cur) +:+ e].
Proof.
  revert cur. induction e as [|c e IH]; intros cur He.
  - cbn. by rewrite sapp_nil_r.
  - cbn [to_list forallb] in He. apply andb_true_iff in He as [Hc He].
    cbn [split_go]. destruct (Ascii.eqb c slash); [done|].
    rewrite IH by done. cbn [rev]. rewrite of_list_app. cbn [of_list].
    by rewrite sapp_assoc.
Qed.

Lemma split_plain e : plain e = true → split e = [e].
Proof.
  intros He. unfold plain in He. apply andb_true_iff in He as [_ He].
  unfold split. by rewrite split_go_noslash.
Qed.

Lemma join_slash_cons x y l : join "/" (x :: y :: l) = x +:+ String slash (join "/" (y :: l)).
Proof. reflexivity. Qed.

Lemma split_join l : l ≠ [] → split (join "/" l) = flat_map split l.
Proof.
  induction l as [|x [|y l] IH]; intros Hl; [done| |].
  - cbn. by rewrite app_nil_r.
  - rewrite join_slash_cons. unfold split at 1. rewrite split_go_app.
    rewrite IH by done. reflexivity.
Qed.

Lemma clean_step_plain r kept e : plain e = true → clean_step r kept e = e :: kept.
Proof.
  unfold plain, clean_step. intros He.
  repeat (apply andb_true_iff in He as [He ?]).
  by repeat match goal with H : negb ?b = true |- _ =>
              apply negb_true_iff in H; rewrite H end.
Qed.

Lemma fold_clean_plain r l kept :
  Forall (λ e, plain e = true) l →
  fold_left (clean_step r) l kept = rev l ++ kept.
Proof.
  intros Hl. revert kept. induction Hl as [|e l He Hl IH]; intros kept; [done|].
  cbn [fold_left rev]. rewrite clean_step_plain by done. rewrite IH.
  by rewrite <- app_assoc.
Qed.

(** Empty elements do not count. *)
Lemma fold_clean_split_join r l kept :
  fold_left (clean_step r) (split (join "/" l)) kept
  = fold_left (clean_step r) (flat_map split l) kept.
Proof.
  destruct l as [|x l]; [done|]. by rewrite split_join.
Qed.

Lemma Clean_abs strs :
  Clean (String slash strs)
  = abs_path (rev (fold_left (clean_step true) (split strs) [])).
Proof.
  unfold Clean. cbn [is_rooted]. change (Ascii.eqb slash slash) with true.
  cbv zeta. unfold split at 1. cbn [split_go].
  change (Ascii.eqb slash slash) with true. cbn [rev of_list fold_left].
  reflexivity.
Qed.

Lemma flat_map_split_plain l :
  Forall (λ e, plain e = true) l → flat_map split l = l.
Proof.
  induction 1 as [|e l He Hl IH]; [done|].
  cbn [flat_map]. by rewrite split_plain, IH.
Qed.

(** [Join] on an absolute path in normal form: the elements that follow
    are cleaned against it. *)
Lemma Join_abs elems strs :
  Forall (λ e, plain e = true) elems →
  Join (abs_path elems :: strs)
  = abs_path (rev (fold_left (clean_step true) (flat_map split strs) (rev elems))).
Proof.
  intros He. unfold Join. cbn [drop_empty String.eqb].
  change (String.eqb (abs_path elems) EmptyString) with false. cbv iota.
  assert (Hj : join "/" (abs_path elems :: strs)
               = String slash (join "/" (elems ++ strs)) ∨ elems = [] ∧ strs ≠ []
                 ∧ join "/" (abs_path elems :: strs)
                   = String slash (String slash (join "/" strs))).
  { destruct strs as [|y strs].
    - left. by rewrite app_nil_r.
    - rewrite join_slash_cons. unfold abs_path. rewrite sapp_cons.
      destruct elems as [|x elems];
        [right; split; [done|split; [done|reflexivity]]|]. left. f_equal.
      clear He. revert x. induction elems as [|x' elems IH]; intros x; [done|].
      change ((x :: x' :: elems) ++ y :: strs) with (x :: (x' :: elems) ++ y :: strs).
      cbn [app]. rewrite !join_slash_cons, sapp_assoc, sapp_cons. f_equal. f_equal.
      apply IH. }
  destruct Hj as [->|(-> & Hs & ->)].
  - rewrite Clean_abs, fold_clean_split_join, flat_map_app, fold_left_app.
    rewrite (flat_map_split_plain elems), (fold_clean_plain _ elems) by done.
    by rewrite app_nil_r.
  - rewrite Clean_abs. unfold split at 1. cbn [split_go].
    change (Ascii.eqb slash slash) with true. cbn [rev of_list fold_left].
    change (clean_step true [] EmptyString) with (@nil string).
    fold (split (join "/" strs)). by rewrite split_join.
Qed.

Lemma plain_not_nil e : plain e = true → e ≠ EmptyString.
Proof. by intros He ->. Qed.

(** Below a root in normal form, plain names give the path one expects. *)
Lemma Join_plain elems names :
  Forall (λ e, plain e = true) elems → Forall (λ e, plain e = true) names →
  Join (abs_path elems :: names) = abs_path (elems ++ names).
Proof.
  intros He Hn. rewrite Join_abs by done.
  rewrite flat_map_split_plain, fold_clean_plain by done.
  by rewrite rev_app_distr, !rev_involutive.
Qed.

Lemma abs_path_app elems names :
  elems ≠ [] → names ≠ [] →
  abs_path (elems ++ names) = abs_path elems +:+ String slash (join "/" names).
Proof.
  intros He Hn. unfold abs_path. rewrite sapp_cons. f_equal.
  destruct names as [|y names]; [done|]. clear Hn.
  induction elems as [|x [|x' elems] IH]; [done|done|].
  change ((x :: x' :: elems) ++ y :: names)
    with (x :: x' :: (elems ++ y :: names)).
  rewrite !join_slash_cons, sapp_assoc, sapp_cons. f_equal. f_equal.
  by apply IH.
Qed.

(** The elements of a path hold no slash. *)
Lemma split_go_noslash_all s cur :
  forallb (λ c, negb (Ascii.eqb c slash)) cur = true →
  Forall (λ e, forallb (λ c, negb (Ascii.eqb c slash)) (to_list e) = true)
    (split_go s cur).
Proof.
  assert (Hcur : ∀ cur, forallb (λ c, negb (Ascii.eqb c slash)) cur = true →
            forallb (λ c, negb (Ascii.eqb c slash)) (to_list (of_list (rev cur))) = true).
  { intros l Hl. rewrite forallb_forall in *. intros c Hc. apply Hl.
    apply in_rev. clear Hl. induction (rev l) as [|c' l' IH]; [done|].
    destruct Hc as [->|Hc]; [by left|right; by apply IH]. }
  revert cur. induction s as [|c s IH]; intros cur Hc; cbn [split_go].
  - constructor; [by apply Hcur|constructor].
  - destruct (Ascii.eqb c slash) eqn:Hs.
    + constructor; [by apply Hcur|]. by apply IH.
    + apply IH. cbn [forallb]. by rewrite Hs.
Qed.

Lemma clean_step_rooted kept e :
  forallb (λ c, negb (Ascii.eqb c slash)) (to_list e) = true →
  Forall (λ e, plain e = true) kept →
  Forall (λ e, plain e = true) (clean_step true kept e).
Proof.
  intros He Hk. unfold clean_step.
  destruct (String.eqb e EmptyString) eqn:H1; [done|].
  destruct (String.eqb e ".") eqn:H2; [done|].
  destruct (String.eqb e "..") eqn:H3.
  - destruct Hk as [|top below Ht Hb]; [done|].
    destruct (String.eqb top "..") eqn:H4; [|done].
    apply String.eqb_eq in H4 as ->. done.
  - constructor; [|done]. unfold plain. by rewrite H1, H2, H3, He.
Qed.

(** [Clean] of a rooted path is an absolute path in normal form. *)
Lemma Clean_rooted p :
  is_rooted p = true →
  ∃ elems, Forall (λ e, plain e = true) elems ∧ Clean p = abs_path elems.
Proof.
  destruct p as [|c p]; [done|]. cbn [is_rooted]. intros ->%Ascii.eqb_eq.
  rewrite Clean_abs. eexists. split; [|reflexivity].
  apply Forall_rev.
  assert (H : ∀ l kept,
            Forall (λ e, forallb (λ c, negb (Ascii.eqb c slash)) (to_list e) = true) l →
            Forall (λ e, plain e = true) kept →
            Forall (λ e, plain e = true) (fold_left (clean_step true) l kept)).
  { induction l as [|e l IH]; intros kept Hl Hk; [done|].
    inversion Hl; subst. cbn [fold_left]. apply IH; [done|].
    by apply clean_step_rooted. }
  apply H; [|done]. by apply split_go_noslash_all.
Qed.

(** ** Deploy ids and time *)

Lemma digits_number_linear s acc :
  digits_number s acc = acc * 10 ^ Z.of_nat (digit_count s) + digits_number s 0
  ∧ 0 ≤ digits_number s 0 < 10 ^ Z.of_nat (digit_count s).
Proof.
  revert acc. induction s as [|c s IH]; intros acc.
  - cbn. lia.
  - cbn [digits_number digit_count].
    destruct (is_digit c) eqn:Hc.
    + destruct (IH (acc * 10 + (code c - 48))) as [-> Hr].
      destruct (IH (0 * 10 + (code c - 48))) as [-> _].
      unfold is_digit in Hc. apply andb_true_iff in Hc as [H1%Z.leb_le H2%Z.leb_le].
      replace (Z.of_nat (1 + digit_count s)) with (Z.succ (Z.of_nat (digit_count s))) by lia.
      rewrite Z.pow_succ_r by lia. split; [lia|]. nia.
    + replace (Z.of_nat (0 + digit_count s)) with (Z.of_nat (digit_count s)) by lia.
      apply IH.
Qed.

Lemma digits_number_app a b acc :
  digits_number (a +:+ b) acc = digits_number b (digits_number a acc).
Proof.
  revert acc. induction a as [|c a IH]; intros acc; [done|].
  rewrite sapp_cons. cbn [digits_number]. apply IH.
Qed.

Lemma matches_pattern_digit_count p s s' :
  matches_pattern p s = true → matches_pattern p s' = true →
  digit_count s = digit_count s'.
Proof.
  revert s s'. induction p as [|x p IH]; intros [|c s] [|c' s'] H H'; try done.
  cbn [matches_pattern] in H, H'.
  apply andb_true_iff in H as [Hc H]. apply andb_true_iff in H' as [Hc' H'].
  cbn [digit_count]. rewrite (IH s s') by done.
  destruct (Ascii.eqb x "d").
  - by rewrite Hc, Hc'.
  - apply Ascii.eqb_eq in Hc, Hc'. by subst.
Qed.

Lemma ascii_compare_code c c' : Ascii.compare c c' = (code c ?= code c').
Proof. unfold Ascii.compare, code. by rewrite N2Z.inj_compare. Qed.

(** Two strings of the same shape compare as the numbers their digits
    spell. *)
Lemma compare_same_shape p s s' acc :
  matches_pattern p s = true → matches_pattern p s' = true →
  (s ?= s')%string = (digits_number s acc ?= digits_number s' acc).
Proof.
  revert s s' acc. induction p as [|x p IH]; intros [|c s] [|c' s'] acc H H';
    try done.
  { cbn. by rewrite Z.compare_refl. }
  pose proof (matches_pattern_digit_count _ _ _ H H') as Hn.
  cbn [matches_pattern] in H, H'.
  apply andb_true_iff in H as [Hc H]. apply andb_true_iff in H' as [Hc' H'].
  cbn [String.compare digits_number digit_count] in *.
  rewrite ascii_compare_code.
  destruct (Ascii.eqb x "d").
  - rewrite Hc, Hc' in *.
    destruct (Z.compare_spec (code c) (code c')) as [Heq|Hlt|Hgt].
    + rewrite Heq. by apply IH.
    + destruct (digits_number_linear s (acc * 10 + (code c - 48))) as [-> Hr].
      destruct (digits_number_linear s' (acc * 10 + (code c' - 48))) as [-> Hr'].
      assert (Hk : digit_count s' = digit_count s) by lia. rewrite Hk in *.
      symmetry. apply Z.compare_lt_iff.
      assert (1 * 10 ^ Z.of_nat (digit_count s)
              ≤ (code c' - code c) * 10 ^ Z.of_nat (digit_count s))
        by (apply Z.mul_le_mono_nonneg_r; lia).
      lia.
    + destruct (digits_number_linear s (acc * 10 + (code c - 48))) as [-> Hr].
      destruct (digits_number_linear s' (acc * 10 + (code c' - 48))) as [-> Hr'].
      assert (Hk : digit_count s' = digit_count s) by lia. rewrite Hk in *.
      symmetry. apply Z.compare_gt_iff.
      assert (1 * 10 ^ Z.of_nat (digit_count s)
              ≤ (code c - code c') * 10 ^ Z.of_nat (digit_count s))
        by (apply Z.mul_le_mono_nonneg_r; lia).
      lia.
  - apply Ascii.eqb_eq in Hc, Hc'. subst c c'. rewrite Z.compare_refl.
    by apply IH.
Qed.

Lemma year_number y :
  1000 ≤ y ≤ 9999 → digits_number (Itoa y) 0 = y ∧ digit_count (Itoa y) = 4%nat.
Proof.
  intros Hy.
  pose proof (forallb_seqZ
    (λ y, (digits_number (Itoa y) 0 =? y) && Nat.eqb (digit_count (Itoa y)) 4)
    1000 9000 y) as H.
  apply andb_true_iff in H as [H1%Z.eqb_eq H2%Nat.eqb_eq];
    [done|vm_compute; reflexivity|lia].
Qed.

Lemma field_number z :
  0 ≤ z ≤ 59 →
  digits_number (fmt_02d z) 0 = z ∧ digit_count (fmt_02d z) = 2%nat.
Proof.
  intros Hz.
  pose proof (forallb_seqZ
    (λ z, (digits_number (fmt_02d z) 0 =? z)
          && Nat.eqb (digit_count (fmt_02d z)) 2)
    0 60 z) as H.
  apply andb_true_iff in H as [H1%Z.eqb_eq H2%Nat.eqb_eq];
    [done|vm_compute; reflexivity|lia].
Qed.

Lemma timestamp_number t :
  clock_reading t → digits_number (timestamp t) 0 = chrono t.
Proof.
  intros (Hy & Hm & Hd & Hh & Hmi & Hs).
  change (timestamp t)
    with (Itoa (Year t) +:+ (("-" +:+ fmt_02d (Month t))
          +:+ (("-" +:+ fmt_02d (Day t))
          +:+ (("-" +:+ fmt_02d (Hour t))
          +:+ (("-" +:+ fmt_02d (Minute t))
          +:+ ("-" +:+ fmt_02d (Second t))))))).
  rewrite !digits_number_app.
  destruct (year_number (Year t) Hy) as [-> _].
  assert (Hf : ∀ z acc, 0 ≤ z ≤ 59 →
            digits_number (fmt_02d z) (digits_number "-" acc) = acc * 100 + z).
  { intros z acc Hz. change (digits_number "-" acc) with acc.
    destruct (digits_number_linear (fmt_02d z) acc) as [-> _].
    destruct (field_number z Hz) as [-> ->]. reflexivity. }
  rewrite !Hf by lia. reflexivity.
Qed.

Lemma chrono_same_second t t' :
  clock_reading t → clock_reading t' → chrono t = chrono t' → same_second t t'.
Proof.
  unfold clock_reading, chrono, same_second. lia.
Qed.

(** ** [ListDeploys] *)

Lemma fold_append {A B} (f : A → B) (l : list A) (acc : option (list B)) :
  fold_left (λ result x, append result (f x)) l acc
  = match l with
    | [] => acc
    | _ => Some (default [] acc ++ (f <$> l))
    end.
Proof.
  revert acc. induction l as [|x l IH]; intros acc; [done|].
  cbn [fold_left]. rewrite IH. destruct l as [|y l]; [done|].
  unfold append at 1. change (default [] (Some ?l)) with l. by rewrite <- app_assoc.
Qed.

Lemma ListDeploys_unfold h s w st :
  ListDeploys h s w st
  = Done match readdir h (Path.Join [root s; deployPath]) with
         | inr e => (None, Some e)
         | inl infos =>
             (match infos with
              | [] => None
              | _ => Some ((λ i, {| Id := Name i; Note := EmptyString; Port := -1 |})
                           <$> merge_sort by_name infos)
              end, None)
         end st.
Proof.
  unfold ListDeploys, bind, ioutil_ReadDir, ret.
  destruct (readdir h _) as [infos|e]; [|done].
  rewrite fold_append. f_equal. f_equal.
  pose proof (merge_sort_Permutation by_name infos) as Hp.
  destruct (merge_sort by_name infos) as [|x l] eqn:Hs.
  - apply Permutation_nil in Hp. by subst.
  - destruct infos as [|y infos]; [|done].
    symmetry in Hp. by apply Permutation_nil_cons in Hp.
Qed.

Lemma by_name_total : Total by_name.
Proof. intros x y. apply (total String.le). Qed.

(** X12. [ListDeploys] lists every entry of the deploys directory, files
    and directories alike, once each and in the order of their names; each
    comes with port -1 and an empty note, whatever the registry holds.  It
    fails exactly when the directory cannot be read; the slice is nil then,
    as it is for an empty directory.  Nothing is changed. *)
Theorem ListDeploys_lists h s w st :
  ∃ r, ListDeploys h s w st = Done r st
       ∧ match readdir h (Path.Join [root s; deployPath]) with
         | inr e => r = (None, Some e)
         | inl infos =>
             ∃ ds, r = (ds, None)
                   ∧ (ds = None ↔ infos = [])
                   ∧ Id <$> default [] ds ≡ₚ Name <$> infos
                   ∧ Sorted String.le (Id <$> default [] ds)
                   ∧ Forall (λ d, Port d = -1 ∧ Note d = EmptyString)
                       (default [] ds)
         end.
Proof.
  rewrite ListDeploys_unfold. eexists. split; [reflexivity|].
  destruct (readdir h _) as [infos|e]; [|done].
  eexists. split; [reflexivity|].
  destruct infos as [|i infos].
  { cbn. repeat split; try done; constructor. }
  split; [done|]. change (default [] (Some ?x)) with x.
  rewrite <- list_fmap_compose. split; [|split].
  - change (Id ∘ _) with Name. by rewrite merge_sort_Permutation.
  - change (Id ∘ _) with Name.
    apply (Sorted_fmap _ by_name); [done|].
    apply (@Sorted_merge_sort _ by_name _ by_name_total).
  - apply Forall_fmap, Forall_true. done.
Qed.

(** X13. The port in the list is not the port in the registry: after a
    [Run] that succeeded, the registry maps a port to the deploy, its
    process is there, and [ListDeploys] still lists the deploy with
    port -1. *)
Theorem running_deploy_listed_as_stopped h s deployId w st st' infos :
  Run s deployId w st = Done None st' →
  readdir h (Path.Join [root s; deployPath]) = inl infos →
  deployId ∈ Name <$> infos →
  (∃ port, 8001 ≤ port < 8100 ∧ assigned (config st') port = Some deployId
           ∧ ∃ cmd, procs st' = procs st ++ [cmd]
                    ∧ Dir cmd = Path.Join [root s; deployPath; deployId])
  ∧ ∃ ds, ListDeploys h s w st' = Done (Some ds, None) st'
          ∧ (∀ d, d ∈ ds → Port d = -1)
          ∧ ∃ d, d ∈ ds ∧ Id d = deployId.
Proof.
  intros Hrun Hdir Hin. split.
  - destruct (Run_done _ _ _ _ _ _ Hrun) as
      [(_ & _ & [=] & _)
      |(p & st1 & Hscan & [(e & _ & [=] & _)
                          |(app & m & _ & Hm & Hc & _ & [(e & _ & [=] & _)
                                                       |(_ & Hp & _)])])].
    exists p. destruct (findUnusedPort_found _ _ _ _ _ Hscan) as (Hr & _).
    split; [done|]. split.
    + unfold assigned. rewrite Hc. cbn. apply lookup_insert_eq.
    + eexists. split; [exact Hp|reflexivity].
  - rewrite ListDeploys_unfold, Hdir.
    destruct infos as [|i infos]; [by apply elem_of_nil in Hin|].
    eexists. split; [reflexivity|]. split.
    { intros d Hd. by apply list_elem_of_fmap in Hd as (i' & -> & _). }
    apply list_elem_of_fmap in Hin as (j & -> & Hj).
    exists {| Id := Name j; Note := EmptyString; Port := -1 |}.
    split; [|done]. apply list_elem_of_fmap. exists j. split; [done|].
    by rewrite merge_sort_Permutation.
Qed.

Lemma running_deploy_listed_as_stopped_witness :
  let h := host_listing [{| Name := "dX"; IsDir := true |};
                         {| Name := "README"; IsDir := false |}] in
  ∃ st', Run example_server "dX" healthy_world fresh = Done None st'
         ∧ assigned (config st') 8001 = Some "dX"
         ∧ ListDeploys h example_server healthy_world st'
           = Done (Some [{| Id := "README"; Note := EmptyString; Port := -1 |};
                         {| Id := "dX"; Note := EmptyString; Port := -1 |}],
                   None) st'.
Proof.
  intros h.
  assert (Hrun : ∃ st', Run example_server "dX" healthy_world fresh = Done None st').
  { eexists. vm_compute. reflexivity. }
  destruct Hrun as (st' & Hrun). exists st'. split; [exact Hrun|].
  destruct (running_deploy_listed_as_stopped h example_server "dX" healthy_world
              fresh st' _ Hrun eq_refl) as (_ & ds & Hlist & _).
  { apply list_elem_of_fmap. eexists. split; [|left]. reflexivity. }
  split.
  - vm_compute in Hrun. injection Hrun as <-. reflexivity.
  - rewrite Hlist. rewrite ListDeploys_unfold in Hlist.
    injection Hlist as <-. reflexivity.
Defined.

(** The order of the ids is the order of the readings. *)
Lemma timestamp_compare t t' :
  clock_reading t → clock_reading t' →
  (timestamp t ?= timestamp t')%string = (chrono t ?= chrono t').
Proof.
  intros Ht Ht'.
  rewrite (compare_same_shape id_pattern _ _ 0) by by apply timestamp_matches.
  by rewrite !timestamp_number.
Qed.


(** X14. Deploy ids order as time does: the ids [NewDeployDir] gives at two
    clock readings compare, as strings, the way the readings compare as
    moments, and two ids are the same only within the same second. *)
Theorem NewDeployDir_ids_in_time_order s w st s' w' st' :
  clock_reading (calendar w (now st)) →
  clock_reading (calendar w' (now st')) →
  ∃ r r', NewDeployDir s w st = Done r st
          ∧ NewDeployDir s' w' st' = Done r' st'
          ∧ (DeployId r ?= DeployId r')%string
            = (chrono (calendar w (now st)) ?= chrono (calendar w' (now st')))
          ∧ (DeployId r = DeployId r' →
             same_second (calendar w (now st)) (calendar w' (now st'))).
Proof.
  intros Ht Ht'. eexists _, _. split; [reflexivity|]. split; [reflexivity|].
  cbn [DeployId]. split; [by apply timestamp_compare|].
  intros Heq. apply chrono_same_second; [done..|].
  by rewrite <- (timestamp_number _ Ht), <- (timestamp_number _ Ht'), Heq.
Qed.


Lemma example_time_reading : clock_reading example_time.
Proof. unfold clock_reading. cbn. lia. Qed.

Lemma year_end_reading : clock_reading year_end.
Proof. unfold clock_reading. cbn. lia. Qed.

Lemma NewDeployDir_ids_in_time_order_witness :
  let w' := with_calendar (λ _, year_end) healthy_world in
  ∃ r r', NewDeployDir example_server healthy_world fresh = Done r fresh
          ∧ NewDeployDir example_server w' fresh = Done r' fresh
          ∧ (DeployId r ?= DeployId r')%string = Gt.
Proof.
  intros w'.
  destruct (NewDeployDir_ids_in_time_order example_server healthy_world fresh
              example_server w' fresh)
    as (r & r' & H1 & H2 & Hcmp & _);
    [exact example_time_reading|exact year_end_reading|].
  exists r, r'. split; [exact H1|]. split; [exact H2|].
  rewrite Hcmp. reflexivity.
Defined.


(** ** [NewServerImpl] *)

Lemma readConfig_returns path w st :
  ∃ r, readConfig path w st = Done r st
       ∧ ((∃ data je, ioutil_ReadFile path w st = Done (inl data) st
                      ∧ Unmarshal data = inr je ∧ r = (None, Some (JSONError je)))
          ∨ ∃ ports labels,
              r = (Some {| Ports := Some ports; Labels := Some labels |}, None)).
Proof.
  unfold readConfig, bind, ioutil_ReadFile.
  assert (Ha : ∀ c : Config, ∃ ports labels,
            {| Ports := empty_if_nil (Ports c); Labels := empty_if_nil (Labels c) |}
            = {| Ports := Some ports; Labels := Some labels |}).
  { intros [[p|] [l|]]; cbn; eauto. }
  assert (Hok : ∀ c : Config, ∃ r,
            Done (A := option Config * option error)
              (Some {| Ports := empty_if_nil (Ports c);
                       Labels := empty_if_nil (Labels c) |}, None) st = Done r st
            ∧ ∃ ports labels,
                r = (Some {| Ports := Some ports; Labels := Some labels |}, None)).
  { intros c. destruct (Ha c) as (p & l & ->). eauto. }
  destruct (read_fault w path) as [e|].
  { destruct (Hok zero_Config) as (r & Hr & H). exists r. split; [exact Hr|by right]. }
  destruct (files st !! path) as [data|].
  2:{ destruct (Hok zero_Config) as (r & Hr & H). exists r. split; [exact Hr|by right]. }
  destruct (Unmarshal data) as [c|je] eqn:Hu.
  - destruct (Hok c) as (r & Hr & H). exists r. split; [exact Hr|by right].
  - eexists. split; [reflexivity|]. left. eauto.
Qed.

(** X16. How [NewServerImpl] ends, case by case.  When the root is relative
    and the working directory cannot be told, it logs one line and ends the
    process with status 1; otherwise it does not.  When the config file is
    read and does not decode, it returns that error and no server, and
    nothing has happened: the deploys directory has not been looked at.
    In every other case it returns a server and no error; its root is the
    root given, cleaned, when that is rooted, and else the working
    directory joined with it; the server's registry is what the file
    decodes to with nil maps made empty, or the empty registry when the
    file cannot be read; and it asks for the deploys directory to be made,
    with the mode bits 0644, exactly when opening it failed for want of
    the directory.  Files, the config file included, processes and the
    trace are as before. *)
Theorem NewServerImpl_outcome h root0 w st :
  match filepath_Abs h root0 with
  | inr e =>
      Path.is_rooted root0 = false ∧ getwd h = inr e
      ∧ NewServerImpl h root0 w st
        = Done {| ending := Exited 1; made := [] |}
            (logged ("Root path:getwd: " +:+ errno_text e) st)
  | inl abs =>
      let dir := Path.Join [abs; deployPath] in
      let started :=
        {| ending := Returned (Some {| root := abs |}, None);
           made := if os_IsNotExist (open_fault h dir)
                   then [(dir, mode_0644)] else [] |} in
      ((Path.is_rooted root0 = true ∧ abs = Path.Clean root0)
       ∨ (Path.is_rooted root0 = false
          ∧ ∃ wd, getwd h = inl wd ∧ abs = Path.Join [wd; root0]))
      ∧ match readable w st (Path.Join [abs; configPath]) with
        | None =>
            NewServerImpl h root0 w st
            = Done started (with_config {| Ports := Some ∅; Labels := Some ∅ |} st)
        | Some data =>
            match Unmarshal data with
            | inl c =>
                NewServerImpl h root0 w st
                = Done started
                    (with_config {| Ports := Some (default ∅ (Ports c));
                                    Labels := Some (default ∅ (Labels c)) |} st)
            | inr je =>
                NewServerImpl h root0 w st
                = Done {| ending := Returned (None, Some (JSONError je));
                          made := [] |} st
            end
        end
  end.
Proof.
  unfold NewServerImpl.
  destruct (filepath_Abs h root0) as [abs|e] eqn:Habs.
  - cbv zeta. split.
    { unfold filepath_Abs in Habs. destruct (Path.is_rooted root0).
      - left. by injection Habs as <-.
      - right. split; [done|]. destruct (getwd h) as [wd|e]; [|done].
        injection Habs as <-. eauto. }
    unfold bind at 1, readConfig, bind, ioutil_ReadFile, readable.
    destruct (read_fault w (Path.Join [abs; configPath])) as [e|]; [done|].
    destruct (files st !! Path.Join [abs; configPath]) as [data|]; [|done].
    destruct (Unmarshal data) as [c|je]; [|done].
    by destruct c as [[p|] [l|]].
  - unfold filepath_Abs in Habs.
    destruct (Path.is_rooted root0); [done|]. split; [done|].
    destruct (getwd h) as [wd|e']; [done|]. injection Habs as ->. done.
Qed.

(** X17. A server that [NewServerImpl] returned can [Run]: its registry has
    its ports map allocated, so [Run] returns, in any world and for any
    deploy id, where it panics on a nil map; and [Run] leaves the map
    allocated for the [Run] after it. *)
Theorem NewServerImpl_server_runs h root0 w st b st1 s :
  NewServerImpl h root0 w st = Done b st1 →
  ending b = Returned (Some s, None) →
  ∀ deployId w',
    ∃ r st2 m, Run s deployId w' st1 = Done r st2 ∧ Ports (config st2) = Some m.
Proof.
  intros Hnew Hend deployId w'.
  assert (Hm : ∃ m, Ports (config st1) = Some m).
  { revert Hnew. unfold NewServerImpl.
    destruct (filepath_Abs h root0) as [abs|e].
    2:{ intros [= <- <-]. done. }
    destruct (readConfig_returns (Path.Join [abs; configPath]) w st)
      as (r & Hr & [(data & je & Hd & Hu & ->)|(ports & labels & ->)]);
      unfold bind at 1; rewrite Hr.
    - intros [= <- <-]. done.
    - intros [= <- <-]. cbn. eauto. }
  destruct Hm as (m & Hm). by apply (Run_returns s deployId w' st1 m).
Qed.

Lemma NewServerImpl_server_runs_witness :
  ∃ b st1 s,
    NewServerImpl bare_host "camus" healthy_world fresh = Done b st1
    ∧ ending b = Returned (Some s, None)
    ∧ root s = "/home/camus/camus"
    ∧ ∃ r st2 m, Run s "dX" silent_world st1 = Done r st2
                 ∧ Ports (config st2) = Some m.
Proof.
  eexists _, _, _. split; [reflexivity|]. split; [reflexivity|].
  split; [reflexivity|].
  eapply (NewServerImpl_server_runs bare_host "camus" healthy_world fresh);
    reflexivity.
Defined.

Lemma matches_pattern_length p s :
  matches_pattern p s = true → String.length s = String.length p.
Proof.
  revert s. induction p as [|x p IH]; intros [|c s] H; try done.
  cbn [matches_pattern] in H. apply andb_true_iff in H as [_ H].
  cbn. by rewrite (IH s).
Qed.

Lemma matches_pattern_noslash p s :
  matches_pattern p s = true →
  forallb (λ c, negb (Ascii.eqb c slash)) (to_list p) = true →
  forallb (λ c, negb (Ascii.eqb c slash)) (to_list s) = true.
Proof.
  revert s. induction p as [|x p IH]; intros [|c s] H Hp; try done.
  cbn [matches_pattern] in H. apply andb_true_iff in H as [Hc H].
  cbn [to_list forallb] in *. apply andb_true_iff in Hp as [Hx Hp].
  rewrite (IH s) by done. rewrite andb_true_r.
  destruct (Ascii.eqb x "d").
  - destruct (Ascii.eqb_spec c slash) as [->|]; [done|done].
  - apply Ascii.eqb_eq in Hc as <-. done.
Qed.

(** A deploy id made by [NewDeployDir] is a plain path element. *)
Lemma timestamp_plain t : clock_reading t → plain (timestamp t) = true.
Proof.
  intros Ht. pose proof (timestamp_matches t Ht) as Hm.
  pose proof (matches_pattern_length _ _ Hm) as Hl.
  pose proof (matches_pattern_noslash _ _ Hm eq_refl) as Hs.
  unfold plain. rewrite Hs, andb_true_r.
  assert (Hne : ∀ x, String.length x ≠ String.length (timestamp t) →
            negb (String.eqb (timestamp t) x) = true).
  { intros x Hx. apply negb_true_iff, String.eqb_neq. by intros <-. }
  rewrite !Hne by (rewrite Hl; cbn; lia). reflexivity.
Qed.

Lemma filepath_Abs_normal h p a :
  (∀ wd, getwd h = inl wd → is_rooted wd = true) →
  filepath_Abs h p = inl a →
  ∃ elems, Forall (λ e, plain e = true) elems ∧ a = abs_path elems.
Proof.
  intros Hwd. unfold filepath_Abs.
  destruct (is_rooted p) eqn:Hp.
  - intros [= <-]. by apply Clean_rooted.
  - destruct (getwd h) as [wd|e] eqn:Hg; [|done]. intros [= <-].
    specialize (Hwd wd eq_refl). destruct wd as [|c wd]; [done|].
    unfold Join. cbn [drop_empty String.eqb]. rewrite join_slash_cons, sapp_cons.
    by apply Clean_rooted.
Qed.

(** X18. Where the server's files are.  The root of a server that
    [NewServerImpl] returned is an absolute path in normal form; the config
    file is [config.json] right below it, and for a plain deploy id, as
    [NewDeployDir] makes them, the deploy's directory is the id below
    [deploys] below the root, and its manifest [deploy.json] in there. *)
Theorem server_files_below_root h root0 w st b st1 s :
  (∀ wd, getwd h = inl wd → is_rooted wd = true) →
  NewServerImpl h root0 w st = Done b st1 →
  ending b = Returned (Some s, None) →
  ∃ elems,
    Forall (λ e, plain e = true) elems
    ∧ root s = abs_path elems
    ∧ config_path s = abs_path (elems ++ ["config.json"])
    ∧ (∀ id, plain id = true →
             deploy_dir s id = abs_path (elems ++ ["deploys"; id])
             ∧ manifest_path s id = abs_path (elems ++ ["deploys"; id; "deploy.json"]))
    ∧ ∀ w' st',
        clock_reading (calendar w' (now st')) →
        ∃ r, NewDeployDir s w' st' = Done r st'
             ∧ plain (DeployId r) = true
             ∧ Path_ r = abs_path (elems ++ ["deploys"; DeployId r]).
Proof.
  intros Hwd Hnew Hend.
  assert (Hroot : filepath_Abs h root0 = inl (root s)).
  { revert Hnew. unfold NewServerImpl.
    destruct (filepath_Abs h root0) as [a|e].
    2:{ intros [= <- <-]. done. }
    destruct (readConfig_returns (Path.Join [a; configPath]) w st)
      as (r & Hr & [(data & je & Hd & Hu & ->)|(ports & labels & ->)]);
      unfold bind at 1; rewrite Hr.
    - intros [= <- <-]. done.
    - intros [= <- <-]. cbn in Hend. by injection Hend as <-. }
  destruct (filepath_Abs_normal _ _ _ Hwd Hroot) as (elems & He & Ha).
  exists elems. split; [done|]. split; [done|].
  assert (Hdir : ∀ id, plain id = true →
            deploy_dir s id = abs_path (elems ++ ["deploys"; id])).
  { intros id Hid. unfold deploy_dir. rewrite Ha.
    apply Join_plain; [done|]. by repeat constructor. }
  split; [|split].
  - unfold config_path. rewrite Ha. apply Join_plain; [done|].
    by repeat constructor.
  - intros id Hid. split; [by apply Hdir|].
    unfold manifest_path. rewrite Hdir by done.
    rewrite Join_plain.
    + by rewrite <- app_assoc.
    + apply Forall_app. split; [done|]. by repeat constructor.
    + by repeat constructor.
  - intros w' st' Ht. eexists. split; [reflexivity|]. cbn [DeployId Path_].
    split; [by apply timestamp_plain|].
    apply (Hdir (timestamp _)). by apply timestamp_plain.
Qed.

Lemma server_files_below_root_witness :
  ∃ b st1 s,
    NewServerImpl bare_host "camus/../srv/" healthy_world fresh = Done b st1
    ∧ ending b = Returned (Some s, None)
    ∧ config_path s = "/home/camus/srv/config.json"
    ∧ ∃ r, NewDeployDir s healthy_world st1 = Done r st1
           ∧ Path_ r = "/home/camus/srv/deploys/2020-01-02-03-04-05".
Proof.
  eexists _, _, _. split; [reflexivity|]. split; [reflexivity|].
  destruct (server_files_below_root bare_host "camus/../srv/" healthy_world fresh
              _ _ _ (λ wd (H : getwd bare_host = inl wd),
                       match H in _ = x return
                         match x with inl wd => is_rooted wd = true | inr _ => True end
                       with eq_refl => eq_refl end)
              eq_refl eq_refl)
    as (elems & _ & Hroot & Hcfg & _ & Hnew).
  split; [reflexivity|].
  destruct (Hnew healthy_world fresh example_time_reading) as (r & Hr & _ & Hp).
  exists r. split; [exact Hr|]. injection Hr as <-. reflexivity.
Defined.

(** X19. The deploy id is joined to the path as it comes: an id that
    starts with [../] takes [Run] out of the deploys directory.  With the id
    [../x], the manifest is looked for in the directory [x] right below the
    root, the command is started there, and the registry records the id as
    given. *)
Theorem deploy_id_not_confined s elems x w st m port st1 app :
  root s = abs_path elems → Forall (λ e, plain e = true) elems →
  plain x = true →
  Ports (config st) = Some m →
  findUnusedPort s w st = Done (port, None) st1 →
  manifest w (abs_path (elems ++ [x; "deploy.json"])) = inl app →
  let cmd := {| Args := ["sh"; "-c"; RunCmd app port];
                Dir := abs_path (elems ++ [x]); Setpgid := true |} in
  start_fault w cmd = None →
  ∃ r st', Run s ("../" +:+ x) w st = Done r st'
           ∧ procs st' = procs st ++ [cmd]
           ∧ assigned (config st') port = Some ("../" +:+ x).
Proof.
  intros Hroot He Hx Hm Hscan Happ cmd Hstart.
  assert (Hdir : deploy_dir s ("../" +:+ x) = abs_path (elems ++ [x])).
  { unfold deploy_dir. rewrite Hroot, Join_abs by done. f_equal.
    cbn [flat_map]. change (split deployPath) with ["deploys"].
    change ("../" +:+ x) with (".." +:+ String slash x).
    unfold split at 1. rewrite split_go_app, split_plain by done.
    cbn [split_go Datatypes.app rev of_list fold_left].
    change (Ascii.eqb "." slash) with false. cbv iota.
    cbn [split_go Datatypes.app rev of_list fold_left].
    change (clean_step true (rev elems) "deploys") with ("deploys" :: rev elems).
    change (clean_step true ("deploys" :: rev elems) "..") with (rev elems).
    rewrite clean_step_plain by done. cbn [rev]. by rewrite rev_involutive. }
  assert (Hman : manifest_path s ("../" +:+ x)
                 = abs_path (elems ++ [x; "deploy.json"])).
  { unfold manifest_path. rewrite Hdir, Join_plain.
    - by rewrite <- app_assoc.
    - apply Forall_app. split; [done|]. by repeat constructor.
    - by repeat constructor. }
  destruct (Run_returns s ("../" +:+ x) w st m Hm) as (r & st' & _ & Hrun & _).
  exists r, st'. split; [done|].
  destruct (Run_done _ _ _ _ _ _ Hrun) as
    [(st2 & Hscan' & _)|(p & st2 & Hscan' & Hcase)];
    rewrite Hscan in Hscan'; [done|]. injection Hscan' as <- <-.
  rewrite Hman, Happ in Hcase.
  destruct Hcase as [(e & [=] & _)|(app' & m' & [= <-] & _ & Hc & _ & Hcase)].
  assert (Hcmd : run_cmd s ("../" +:+ x) app port = cmd).
  { unfold run_cmd, cmd. by rewrite Hdir. }
  rewrite Hcmd, Hstart in Hcase.
  destruct Hcase as [(e & [=] & _)|(_ & Hp & _)].
  split; [done|]. unfold assigned. rewrite Hc. cbn. apply lookup_insert_eq.
Qed.

Lemma deploy_id_not_confined_witness :
  ∃ r st',
    Run example_server "../etc" healthy_world fresh = Done r st'
    ∧ procs st' = [{| Args := ["sh"; "-c"; "myapp --port=8001"];
                      Dir := "/srv/camus/etc"; Setpgid := true |}]
    ∧ assigned (config st') 8001 = Some "../etc".
Proof.
  edestruct (deploy_id_not_confined example_server ["srv"; "camus"] "etc"
               healthy_world fresh ∅ 8001)
    as (r & st' & Hrun & Hp & Ha);
    [reflexivity|by repeat constructor|reflexivity|reflexivity
    |vm_compute; reflexivity|reflexivity|reflexivity|].
  exists r, st'. split; [exact Hrun|]. split; [exact Hp|exact Ha].
Defined.

(** ** More on the port allocator *)

(** X20. [findUnusedPort] only dials.  It returns, having changed neither
    the registry nor a file nor a process; what it adds to the trace are
    connection attempts, 99 at most, each to the address 127.0.0.1:<q> of
    a candidate port q. *)
Theorem findUnusedPort_only_dials s w st :
  ∃ r st' tail,
    findUnusedPort s w st = Done r st'
    ∧ config st' = config st ∧ files st' = files st ∧ procs st' = procs st
    ∧ gets st' = gets st
    ∧ trace st' = trace st ++ tail
    ∧ (length tail ≤ 99)%nat
    ∧ Forall (λ ev, ∃ q, 8001 ≤ q < 8100
                         ∧ ev = EvDial (candidate_address q)
                                  (dial w (candidate_address q)))
        tail.
Proof.
  assert (Hd : ∀ n, (n ≤ 99)%nat →
            (length (dials w 8001 n) ≤ 99)%nat
            ∧ Forall (λ ev, ∃ q, 8001 ≤ q < 8100
                         ∧ ev = EvDial (candidate_address q)
                                  (dial w (candidate_address q)))
                (dials w 8001 n)).
  { intros n Hn. rewrite dials_attempts by lia. unfold attempts. split.
    - rewrite length_map, length_seqZ. lia.
    - apply Forall_forall. intros ev Hev.
      apply list_elem_of_fmap in Hev as (q & -> & Hq).
      apply elem_of_seqZ in Hq. exists q. split; [lia|done]. }
  destruct (findUnusedPort_cases s w st) as
    [(p & st' & Hscan & Hp & _ & _ & Htr & Hc & Hf & Hpr & _ & Hg)
    |(_ & st' & Hscan & Htr & Hc & Hf & Hpr & _ & Hg)].
  - destruct (Hd (Z.to_nat (p - 8001 + 1))) as [Hl Hfa]; [lia|].
    eexists _, st', _. done.
  - destruct (Hd 99%nat) as [Hl Hfa]; [lia|].
    eexists _, st', _. done.
Qed.
